(** * Poll scraper: field classifiers, block assembly and deduplication

    A shallow embedding of the two scraper variants [fetch-data.js] and
    [fetch-data_RTW2.js].  JavaScript strings are sequences of UTF-16 code
    units; regular expressions are kept as syntax trees and run by a
    backtracking matcher that follows the ECMAScript matcher semantics
    (continuation passing, greedy quantifiers, ordered alternation). *)

From Stdlib Require Import ZArith NArith QArith Qround List String Ascii Lia Bool.
From stdpp Require Import base gmap sets list.
Import ListNotations.

Open Scope N_scope.

(** ** Strings *)

Definition jschar := N.
Definition jsstring := list N.

(** An ASCII literal as a sequence of code units. *)
Definition js (s : string) : jsstring :=
  List.map N_of_ascii (list_ascii_of_string s).

Definition jsstring_eqb (a b : jsstring) : bool := bool_decide (a = b).

(** [String.prototype.startsWith]. *)
Fixpoint startsWith (s p : jsstring) : bool :=
  match p, s with
  | [], _ => true
  | _ :: _, [] => false
  | a :: p', b :: s' => (a =? b) && startsWith s' p'
  end.

(** [String.prototype.includes]. *)
Fixpoint includes (s p : jsstring) : bool :=
  startsWith s p ||
  match s with
  | [] => false
  | _ :: s' => includes s' p
  end.

(** [String.prototype.slice(0, n)]. *)
Definition slice0 (n : nat) (s : jsstring) : jsstring := take n s.

(** Basic Latin case mapping, the part of [toLowerCase]/[toUpperCase] and of
    the matcher's Canonicalize that acts on code units below 128. *)
Definition ascii_upper (c : N) : N :=
  if (97 <=? c) && (c <=? 122) then c - 32 else c.
Definition ascii_lower (c : N) : N :=
  if (65 <=? c) && (c <=? 90) then c + 32 else c.
Definition ascii_toLowerCase (s : jsstring) : jsstring := List.map ascii_lower s.
Definition ascii_toUpperCase (s : jsstring) : jsstring := List.map ascii_upper s.

(** ** Character sets *)

Record charset := CharSet { cs_neg : bool; cs_ranges : list (N * N) }.

Definition in_ranges (rs : list (N * N)) (c : N) : bool :=
  existsb (fun r => (fst r <=? c) && (c <=? snd r)) rs.

(** Membership of a code unit in a class.  Under the [i] flag (without [u])
    two code units match when their Canonicalize images agree; a code unit
    of 128 or more never canonicalizes to one below 128, and every class
    of the scraper's case-insensitive patterns holds only Basic Latin
    letters or caseless characters, so the Basic Latin mapping decides. *)
Definition cs_test (ic : bool) (cs : charset) (c : N) : bool :=
  let rs := cs_ranges cs in
  let found :=
    if ic then in_ranges rs c || in_ranges rs (ascii_upper c) || in_ranges rs (ascii_lower c)
    else in_ranges rs c in
  xorb (cs_neg cs) found.

(** WhiteSpace and LineTerminator code units: the class [\s], also the set
    removed by [String.prototype.trim]. *)
Definition ws_ranges : list (N * N) :=
  [(9, 13); (32, 32); (160, 160); (5760, 5760); (8192, 8202); (8232, 8233);
   (8239, 8239); (8287, 8287); (12288, 12288); (65279, 65279)].
Definition is_ws (c : N) : bool := in_ranges ws_ranges c.

Definition word_ranges : list (N * N) := [(48, 57); (65, 90); (95, 95); (97, 122)].
Definition is_word (c : N) : bool := in_ranges word_ranges c.

(** ** Regular expressions *)

Inductive regex :=
| Empty
| Class (cs : charset)
| Seq (r1 r2 : regex)
| Alt (r1 r2 : regex)
| Repeat (min : nat) (max : option nat) (r : regex)
| Group (n : nat) (r : regex)
| WordBoundary
| LineStart
| LineEnd.

Declare Scope re_scope.
Delimit Scope re_scope with re.
Bind Scope re_scope with regex.
Infix "+++" := Seq (at level 60, right associativity) : re_scope.

Definition chr (c : N) : regex := Class (CharSet false [(c, c)]).
Definition cls (rs : list (N * N)) : regex := Class (CharSet false rs).
Definition ncls (rs : list (N * N)) : regex := Class (CharSet true rs).
Definition rstar (r : regex) : regex := Repeat 0 None r.
Definition rplus (r : regex) : regex := Repeat 1 None r.
Definition ropt (r : regex) : regex := Repeat 0 (Some 1%nat) r.
Definition rrange (lo hi : nat) (r : regex) : regex := Repeat lo (Some hi) r.
Definition re_ws : regex := cls ws_ranges.
Definition re_digit : regex := cls [(48, 57)].
Definition re_dot : regex := ncls [(10, 10); (13, 13); (8232, 8233)].

(** Ordered alternation of several branches. *)
Fixpoint alts (r : regex) (rs : list regex) : regex :=
  match rs with
  | [] => r
  | r' :: rs' => Alt r (alts r' rs')
  end.

(** A literal word, one class per character. *)
Fixpoint lit (s : jsstring) : regex :=
  match s with
  | [] => Empty
  | [c] => chr c
  | c :: s' => Seq (chr c) (lit s')
  end.

(** ** The backtracking matcher *)

(** A match state: the code unit before the current position (for [\b] and
    [^]), the input from the current position on, and the captures. *)
Record mstate := MState {
  st_prev : option N;
  st_rest : jsstring;
  st_caps : gmap nat jsstring
}.

Definition cont := mstate -> option mstate.

(** The input consumed between two states of one run. *)
Definition consumed (x y : mstate) : jsstring :=
  take (length (st_rest x) - length (st_rest y)) (st_rest x).

Definition word_before (x : mstate) : bool :=
  match st_prev x with Some c => is_word c | None => false end.
Definition word_after (x : mstate) : bool :=
  match st_rest x with c :: _ => is_word c | [] => false end.

Definition pred_max (max : option nat) : option nat :=
  match max with Some n => Some (Nat.pred n) | None => None end.

(** RepeatMatcher, greedy.  [step] matches the quantified atom once.  An
    iteration past the minimum that consumes nothing is rejected, so at
    most [min + length (st_rest x)] iterations ever run; [fuel] is set
    above that bound by the caller.  No pattern of the scraper has a group
    inside a quantifier, so the reset of the captures at each iteration
    has nothing to do and is left out. *)
Fixpoint repeat_matcher (step : mstate -> cont -> option mstate)
    (fuel min : nat) (max : option nat) (x : mstate) (k : cont) : option mstate :=
  match max with
  | Some O => k x
  | _ =>
    match fuel with
    | O => None
    | S fuel' =>
      let d := fun y : mstate =>
        if (min =? 0)%nat && (length (st_rest y) =? length (st_rest x))%nat then None
        else repeat_matcher step fuel' (Nat.pred min) (pred_max max) y k in
      match min with
      | O => match step x d with
             | Some z => Some z
             | None => k x
             end
      | S _ => step x d
      end
    end
  end.

Fixpoint rmatch (ic : bool) (r : regex) (x : mstate) (k : cont) : option mstate :=
  match r with
  | Empty => k x
  | Class cs =>
      match st_rest x with
      | c :: s' => if cs_test ic cs c then k (MState (Some c) s' (st_caps x)) else None
      | [] => None
      end
  | Seq r1 r2 => rmatch ic r1 x (fun y => rmatch ic r2 y k)
  | Alt r1 r2 =>
      match rmatch ic r1 x k with
      | Some z => Some z
      | None => rmatch ic r2 x k
      end
  | Repeat min max r1 =>
      repeat_matcher (rmatch ic r1) (S (min + length (st_rest x))) min max x k
  | Group n r1 =>
      rmatch ic r1 x (fun y => k (MState (st_prev y) (st_rest y) (<[n := consumed x y]> (st_caps y))))
  | WordBoundary => if xorb (word_before x) (word_after x) then k x else None
  | LineStart => match st_prev x with None => k x | Some _ => None end
  | LineEnd => match st_rest x with [] => k x | _ :: _ => None end
  end.

(** One attempt at the current position. *)
Definition match_here (ic : bool) (r : regex) (prev : option N) (rest : jsstring) : option mstate :=
  rmatch ic r (MState prev rest ∅) Some.

(** A successful [exec]: how many code units were skipped before the match,
    the text of the match, the state after it. *)
Record match_result := MatchResult {
  mr_skipped : nat;
  mr_text : jsstring;
  mr_end : mstate
}.

(** [m[n]] for a capture group; [undefined] is [None]. *)
Definition mr_group (m : match_result) (n : nat) : option jsstring := st_caps (mr_end m) !! n.

(** RegExpBuiltinExec from a given position: try each start position in
    turn, up to and including the end of the input. *)
Fixpoint exec_from (ic : bool) (r : regex) (prev : option N) (rest : jsstring) : option match_result :=
  match match_here ic r prev rest with
  | Some y => Some (MatchResult 0 (take (length rest - length (st_rest y)) rest) y)
  | None =>
      match rest with
      | [] => None
      | c :: rest' =>
          match exec_from ic r (Some c) rest' with
          | Some m => Some (MatchResult (S (mr_skipped m)) (mr_text m) (mr_end m))
          | None => None
          end
      end
  end.

(** [s.match(re)] and [re.exec(s)] for a pattern without the [g] flag. *)
Definition re_match (ic : bool) (r : regex) (s : jsstring) : option match_result :=
  exec_from ic r None s.

(** [re.test(s)]. *)
Definition re_test (ic : bool) (r : regex) (s : jsstring) : bool :=
  match re_match ic r s with Some _ => true | None => false end.

(** [s.replace(re, repl)] for a pattern with the [g] flag and a replacement
    text without [$] patterns.  After an empty match the search resumes one
    code unit further on. *)
Fixpoint replace_all (fuel : nat) (ic : bool) (r : regex) (repl : jsstring)
    (prev : option N) (rest : jsstring) : jsstring :=
  match fuel with
  | O => rest
  | S fuel' =>
      match exec_from ic r prev rest with
      | None => rest
      | Some m =>
          let y := mr_end m in
          take (mr_skipped m) rest ++ repl ++
          match mr_text m, st_rest y with
          | [], [] => []
          | [], c :: rest' => c :: replace_all fuel' ic r repl (Some c) rest'
          | _ :: _, _ => replace_all fuel' ic r repl (st_prev y) (st_rest y)
          end
      end
  end.

Definition replace_g (ic : bool) (r : regex) (repl : jsstring) (s : jsstring) : jsstring :=
  replace_all (S (length s)) ic r repl None s.

(** [s.split(re)] for a pattern without capture groups: the splitter is
    tried at each position [q]; a match that ends at the start [p] of the
    current piece moves [q] on by one.  [piece] is the text from [p] to
    [q]. *)
Fixpoint split_loop (fuel : nat) (ic : bool) (r : regex) (piece : jsstring)
    (prev : option N) (rest : jsstring) : list jsstring :=
  match fuel with
  | O => [piece ++ rest]
  | S fuel' =>
      match rest with
      | [] => [piece]
      | c :: rest' =>
          match match_here ic r prev rest with
          | None => split_loop fuel' ic r (piece ++ [c]) (Some c) rest'
          | Some y =>
              if (length (st_rest y) =? length rest)%nat && bool_decide (piece = [])
              then split_loop fuel' ic r (piece ++ [c]) (Some c) rest'
              else piece :: split_loop fuel' ic r [] (st_prev y) (st_rest y)
          end
      end
  end.

Definition split_re (ic : bool) (r : regex) (s : jsstring) : list jsstring :=
  match s with
  | [] => match match_here ic r None [] with Some _ => [] | None => [[]] end
  | _ :: _ => split_loop (S (2 * length s)) ic r [] None s
  end.

(** [String.prototype.trim]. *)
Fixpoint trimStart (s : jsstring) : jsstring :=
  match s with
  | c :: s' => if is_ws c then trimStart s' else s
  | [] => []
  end.
Definition trimEnd (s : jsstring) : jsstring := rev (trimStart (rev s)).
Definition trim (s : jsstring) : jsstring := trimEnd (trimStart s).

(** ** Values and numbers *)

(** The values that reach the text helpers: a string, or [undefined]/[null]
    (an absent capture, an element without [innerText]). *)
Inductive jsval := Undefined | Null | Str (s : jsstring).

Definition of_group (o : option jsstring) : jsval :=
  match o with Some s => Str s | None => Undefined end.

(** [v || ''] followed by [String(...)]. *)
Definition or_empty (v : jsval) : jsstring :=
  match v with Str s => s | Undefined | Null => [] end.

(** A Number: a finite double is the rational it denotes (kept reduced). *)
Inductive jsnum := NaN | Infinity | NegInfinity | Fin (q : Q).

Definition isFinite (n : jsnum) : bool :=
  match n with Fin _ => true | NaN | Infinity | NegInfinity => false end.

Definition is_digit (c : N) : bool := (48 <=? c) && (c <=? 57).

Fixpoint span_digits (s : jsstring) : jsstring * jsstring :=
  match s with
  | c :: s' => if is_digit c then let (d, r) := span_digits s' in (c :: d, r) else ([], s)
  | [] => ([], [])
  end.

Fixpoint digits_value (acc : Z) (s : jsstring) : Z :=
  match s with
  | c :: s' => digits_value (10 * acc + Z.of_N (c - 48)) s'
  | [] => acc
  end.

Definition pow10 (n : nat) : positive := Z.to_pos (10 ^ Z.of_nat n)%Z.

(** The mathematical value of an unsigned decimal literal [ddd], [ddd.],
    [ddd.ddd] or [.ddd]. *)
Definition decimal_value (s : jsstring) : option Q :=
  let (ip, r) := span_digits s in
  match r with
  | [] => match ip with [] => None | _ :: _ => Some (Qmake (digits_value 0 ip) 1) end
  | 46 :: fs =>
      let (fp, r') := span_digits fs in
      match r', ip ++ fp with
      | [], _ :: _ => Some (Qmake (digits_value 0 (ip ++ fp)) (pow10 (length fp)))
      | _, _ => None
      end
  | _ :: _ => None
  end.

(** Round to nearest, ties to even, of the rational [n / d]. *)
Definition round_half_even (n : Z) (d : positive) : Z :=
  let f := (n / Zpos d)%Z in
  let r2 := (2 * (n mod Zpos d))%Z in
  if (r2 <? Zpos d)%Z then f
  else if (Zpos d <? r2)%Z then (f + 1)%Z
  else if Z.even f then f else (f + 1)%Z.

(** [floor (log2 (n / d))] for [n > 0]. *)
Definition floor_log2 (n : Z) (d : positive) : Z :=
  let l := (Z.log2 n - Z.log2 (Zpos d))%Z in
  let below :=
    if (0 <=? l)%Z then (Zpos d * 2 ^ l <=? n)%Z
    else (Zpos d <=? n * 2 ^ (- l))%Z in
  if below then l else (l - 1)%Z.

(** The binary64 value nearest to a non-negative rational: 53 significant
    bits, exponent no smaller than -1074, overflow to [Infinity]. *)
Definition to_double (q : Q) : jsnum :=
  let n := Qnum q in
  let d := Qden q in
  if (n <=? 0)%Z then Fin 0
  else
    let e := Z.max (floor_log2 n d - 52) (-1074) in
    if (0 <=? e)%Z then
      let m := round_half_even n (d * Z.to_pos (2 ^ e)) in
      if (2 ^ 1024 <=? m * 2 ^ e)%Z then Infinity else Fin (Qmake (m * 2 ^ e) 1)
    else
      let m := round_half_even (n * 2 ^ (- e)) d in
      Fin (Qred (Qmake m (Z.to_pos (2 ^ (- e))))).

Definition negate (n : jsnum) : jsnum :=
  match n with
  | NaN => NaN
  | Infinity => NegInfinity
  | NegInfinity => Infinity
  | Fin q => Fin (Qred (- q))
  end.

Definition strip_sign (t : jsstring) : bool * jsstring :=
  match t with
  | 43 :: r => (false, r)
  | 45 :: r => (true, r)
  | _ => (false, t)
  end.

(** The digits of a decimal mantissa, the number of digits after the
    period, and what follows. *)
Definition mantissa (t : jsstring) : option (Z * nat * jsstring) :=
  let (ip, r1) := span_digits t in
  match r1 with
  | 46 :: r2 =>
      let (fp, r3) := span_digits r2 in
      match ip ++ fp with
      | [] => None
      | _ :: _ => Some (digits_value 0 (ip ++ fp), length fp, r3)
      end
  | _ => match ip with [] => None | _ :: _ => Some (digits_value 0 ip, O, r1) end
  end.

(** The exponent part [e], [e+ddd] or [e-ddd], absent or up to the end. *)
Definition exponent (t : jsstring) : option Z :=
  match t with
  | [] => Some 0%Z
  | c :: r =>
      if (c =? 101) || (c =? 69) then
        let (neg, r1) := strip_sign r in
        match span_digits r1 with
        | ((_ :: _) as ds, []) => Some (if neg then - digits_value 0 ds else digits_value 0 ds)%Z
        | _ => None
        end
      else None
  end.

Definition radix_digit (radix : Z) (c : N) : option Z :=
  let v :=
    if (48 <=? c) && (c <=? 57) then Z.of_N (c - 48)
    else if (97 <=? c) && (c <=? 102) then Z.of_N (c - 87)
    else if (65 <=? c) && (c <=? 70) then Z.of_N (c - 55)
    else 16%Z in
  if (v <? radix)%Z then Some v else None.

Fixpoint radix_value (radix acc : Z) (s : jsstring) : option Z :=
  match s with
  | [] => Some acc
  | c :: s' =>
      match radix_digit radix c with
      | Some v => radix_value radix (radix * acc + v)%Z s'
      | None => None
      end
  end.

(** The other forms of a numeric string: a radix prefix, or a sign, then
    [Infinity] or a decimal literal with an optional exponent. *)
Definition other_literal (t : jsstring) : jsnum :=
  let radix :=
    match t with
    | 48 :: x :: (_ :: _) =>
        if (x =? 120) || (x =? 88) then Some 16%Z
        else if (x =? 111) || (x =? 79) then Some 8%Z
        else if (x =? 98) || (x =? 66) then Some 2%Z
        else None
    | _ => None
    end in
  match radix with
  | Some b =>
      match radix_value b 0 (drop 2 t) with
      | Some v => to_double (Qmake v 1)
      | None => NaN
      end
  | None =>
      let (neg, r) := strip_sign t in
      let n :=
        if bool_decide (r = js "Infinity") then Infinity
        else
          match mantissa r with
          | Some (digits, frac, r') =>
              match exponent r' with
              | Some e =>
                  let k := (e - Z.of_nat frac)%Z in
                  if (0 <=? k)%Z then to_double (Qmake (digits * 10 ^ k) 1)
                  else to_double (Qmake digits (Z.to_pos (10 ^ (- k))))
              | None => NaN
              end
          | None => NaN
          end in
      if neg then negate n else n
  end.

(** [Number(v)]: [undefined] is [NaN], [null] and blank text are 0, a
    numeric string is rounded to its double (an unsigned decimal literal
    without exponent first, the form of every string the scraper converts),
    any other text is [NaN]. *)
Definition Number (v : jsval) : jsnum :=
  match v with
  | Undefined => NaN
  | Null => Fin 0
  | Str s =>
      match trim s with
      | [] => Fin 0
      | t => match decimal_value t with Some q => to_double q | None => other_literal t end
      end
  end.

(** ** The text normalizer (both files, line 35) *)

Definition clean (s : jsval) : jsstring :=
  trim (replace_g false (rplus re_ws) (js " ") (or_empty s)).

(** ** Results extraction *)

Record result_entry := ResultEntry { choice : jsstring; pct : Q }.

Definition name_start : regex := cls [(65, 90); (97, 122)].
(** [[A-Za-z\.'’\-]]: letters, period, apostrophe, U+2019, hyphen. *)
Definition name_char : regex := cls [(65, 90); (97, 122); (46, 46); (39, 39); (8217, 8217); (45, 45)].
Definition name_word : regex := (name_start +++ rplus name_char)%re.
(** [\d{1,2}(?:\.\d+)?] *)
Definition pct_number : regex := (rrange 1 2 re_digit +++ ropt (chr 46 +++ rplus re_digit))%re.

(** [/([A-Za-z][A-Za-z\.'’\-]+(?:\s+[A-Za-z][A-Za-z\.'’\-]+){0,4})\s+(\d{1,2}(?:\.\d+)?)\s*%/g] *)
Definition result_name : regex := (name_word +++ rrange 0 4 (rplus re_ws +++ name_word))%re.
Definition re_result : regex :=
  (Group 1 result_name +++ rplus re_ws +++ Group 2 pct_number +++ rstar re_ws +++ chr 37)%re.

(** [/\b(\d{1,2}(?:\.\d+)?)\s*[-–]\s*(\d{1,2}(?:\.\d+)?)\b/] *)
Definition re_shorthand : regex :=
  (WordBoundary +++ Group 1 pct_number +++ rstar re_ws +++ cls [(45, 45); (8211, 8211)]
   +++ rstar re_ws +++ Group 2 pct_number +++ WordBoundary)%re.

(** The [while ((m = re.exec(txt)) !== null)] loop; [prev]/[rest] stand for
    [re.lastIndex]. *)
Fixpoint results_loop (cap fuel : nat) (prev : option N) (rest : jsstring)
    (out : list result_entry) : list result_entry :=
  match fuel with
  | O => out
  | S fuel' =>
      match exec_from false re_result prev rest with
      | None => out
      | Some m =>
          let choice := clean (of_group (mr_group m 1)) in
          let out1 :=
            match Number (of_group (mr_group m 2)) with
            | Fin q => out ++ [ResultEntry choice q]
            | NaN | Infinity | NegInfinity => out
            end in
          if (cap <=? length out1)%nat then out1
          else results_loop cap fuel' (st_prev (mr_end m)) (st_rest (mr_end m)) out1
      end
  end.

(** [extractResults], with the cap of the loop as a parameter: 10 in
    [fetch-data.js], 12 in [fetch-data_RTW2.js]. *)
Definition extractResults_cap (cap : nat) (txt : jsstring) : list result_entry :=
  match results_loop cap (S (length txt)) None txt [] with
  | [] =>
      match re_match false re_shorthand txt with
      | Some m2 =>
          match Number (of_group (mr_group m2 1)), Number (of_group (mr_group m2 2)) with
          | Fin a, Fin b => [ResultEntry (js "A") a; ResultEntry (js "B") b]
          | _, _ => []
          end
      | None => []
      end
  | out => out
  end.

(** ** Records and the deduplicator (both files, lines 37-47) *)

Record poll := Poll {
  url : jsstring;
  category : jsstring;
  race : jsstring;
  pollster : jsstring;
  date_text : jsstring;
  sample : jsstring;
  population : jsstring;
  results_text : jsstring;
  results : list result_entry
}.

(** [s || ''] on a string. *)
Definition str_or_empty (s : jsstring) : jsstring :=
  match s with [] => [] | _ :: _ => s end.

(** [`${p.url || ''}|${(p.results_text || '').slice(0, 160)}|${p.date_text || ''}`] *)
Definition dedupe_key (p : poll) : jsstring :=
  str_or_empty (url p) ++ js "|" ++ slice0 160 (str_or_empty (results_text p))
  ++ js "|" ++ str_or_empty (date_text p).

Fixpoint dedupe_loop (polls : list poll) (seen : gset jsstring) (out : list poll) : list poll :=
  match polls with
  | [] => out
  | p :: polls' =>
      let key := dedupe_key p in
      if bool_decide (key ∈ seen) then dedupe_loop polls' seen out
      else dedupe_loop polls' ({[key]} ∪ seen) (out ++ [p])
  end.

Definition dedupe (polls : list poll) : list poll := dedupe_loop polls ∅ [].

(** ** Classifiers shared by the two files *)

(** [txt.split(/\n+/).map(clean).filter(Boolean)] *)
Definition nonempty (s : jsstring) : bool :=
  match s with [] => false | _ :: _ => true end.
Definition clean_lines (txt : jsstring) : list jsstring :=
  List.filter nonempty (List.map (fun l => clean (Str l)) (split_re false (rplus (chr 10)) txt)).

(** The text of a capture group that takes part in every match of its
    pattern. *)
Definition group_text (m : match_result) (n : nat) : jsstring :=
  default [] (mr_group m n).

Definition re_dash : regex := cls [(45, 45); (8211, 8211)].

(** [/(Jan|Feb|Mar|Apr|May|Jun|Jul|Aug|Sep|Sept|Oct|Nov|Dec)[a-z]*\s+\d{1,2}(?:\s*[-–]\s*\d{1,2})?(?:,?\s*\d{4})?/i] *)
Definition dateRe : regex :=
  (Group 1 (alts (lit (js "Jan"))
              (List.map (fun w => lit (js w))
                 ["Feb"; "Mar"; "Apr"; "May"; "Jun"; "Jul"; "Aug"; "Sep"; "Sept"; "Oct"; "Nov"; "Dec"]%string))
   +++ rstar (cls [(97, 122)]) +++ rplus re_ws +++ rrange 1 2 re_digit
   +++ ropt (rstar re_ws +++ re_dash +++ rstar re_ws +++ rrange 1 2 re_digit)
   +++ ropt (ropt (chr 44) +++ rstar re_ws +++ rrange 4 4 re_digit))%re.

(** [\d{1,2}\/\d{1,2}(?:\/\d{2,4})?] *)
Definition num_date : regex :=
  (rrange 1 2 re_digit +++ chr 47 +++ rrange 1 2 re_digit +++ ropt (chr 47 +++ rrange 2 4 re_digit))%re.

(** [/\b\d{1,2}\/\d{1,2}(?:\/\d{2,4})?(?:\s*[-–]\s*\d{1,2}\/\d{1,2}(?:\/\d{2,4})?)?/] *)
Definition numRe : regex :=
  (WordBoundary +++ num_date +++ ropt (rstar re_ws +++ re_dash +++ rstar re_ws +++ num_date))%re.

(** The first line, if any, that a pattern matches, with its match. *)
Fixpoint first_match (ic : bool) (r : regex) (lines : list jsstring) : option match_result :=
  match lines with
  | [] => None
  | line :: lines' =>
      match re_match ic r line with
      | Some m => Some m
      | None => first_match ic r lines'
      end
  end.

(** [extractDateText], with the number of lines looked at as a parameter:
    8 in [fetch-data.js], 12 in [fetch-data_RTW2.js]. *)
Definition extractDateText_n (n : nat) (txt : jsstring) : jsstring :=
  let lines := clean_lines txt in
  match first_match true dateRe (take n lines) with
  | Some m => mr_text m
  | None =>
      match first_match false numRe (take n lines) with
      | Some m => mr_text m
      | None => []
      end
  end.

(** [/\b(?:n|N)\s*=\s*(\d{2,6})\b/] *)
Definition re_sample_n : regex :=
  (WordBoundary +++ Alt (chr 110) (chr 78) +++ rstar re_ws +++ chr 61 +++ rstar re_ws
   +++ Group 1 (rrange 2 6 re_digit) +++ WordBoundary)%re.

(** [/\b(\d{2,6})\s*(LV|RV|A|Adults|Voters)\b/i] *)
Definition re_sample_pop : regex :=
  (WordBoundary +++ Group 1 (rrange 2 6 re_digit) +++ rstar re_ws
   +++ Group 2 (alts (lit (js "LV")) [lit (js "RV"); lit (js "A"); lit (js "Adults"); lit (js "Voters")])
   +++ WordBoundary)%re.

(** [extractSample] (the same in both files).  The second group only
    matches Basic Latin letters, on which [toUpperCase] is the Basic Latin
    mapping. *)
Definition extractSample (txt : jsstring) : jsstring :=
  match re_match false re_sample_n txt with
  | Some m => js "n=" ++ group_text m 1
  | None =>
      match re_match true re_sample_pop txt with
      | Some m2 => group_text m2 1 ++ js " " ++ ascii_toUpperCase (group_text m2 2)
      | None => []
      end
  end.

Section Category.
(** [String.prototype.toLowerCase] of the host. *)
Variable toLowerCase : jsstring -> jsstring.

(** [inferCategory] (the same in both files). *)
Definition inferCategory (txt : jsstring) : jsstring :=
  let t := toLowerCase txt in
  if includes t (js "generic ballot") then js "generic_ballot"
  else if includes t (js "approval") then js "approval"
  else if includes t (js "senate") then js "senate"
  else if includes t (js "governor") then js "governor"
  else if includes t (js "house") then js "house"
  else if includes t (js "democratic") && includes t (js "primary") then js "dem_primary"
  else if includes t (js "republican") && includes t (js "primary") then js "gop_primary"
  else if includes t (js "general election") then js "pres_general"
  else if includes t (js "president") || includes t (js "presidential") then js "president"
  else js "other".
End Category.

(** ** The rendered document *)

(** Elements are named by numbers; the document gives what the scraper asks
    of them. *)
Definition elem := nat.

Record document := Document {
  (** [document.querySelectorAll('a[href]')], in document order *)
  doc_anchors : list elem;
  (** [document.querySelectorAll('div, li, p, article, section')] *)
  doc_containers : list elem;
  (** [el.innerText] *)
  innerText : elem -> jsval;
  (** [el.parentElement] *)
  parentElement : elem -> option elem;
  (** [el.getAttribute('href')] *)
  getAttribute_href : elem -> jsval;
  (** [el.href] *)
  href : elem -> jsstring;
  (** [el.closest('header, nav, footer')] is not null *)
  in_header_nav_footer : elem -> bool;
  (** [el.querySelectorAll('a[href]')] *)
  anchors_in : elem -> list elem
}.

(** The ancestor walk [for (let i = 0; i < n && el; i++)]: the first of [el]
    and its ancestors, at most [n] of them, whose trimmed text passes
    [ok]. *)
Fixpoint walk_up (d : document) (ok : jsstring -> bool) (n : nat) (el : option elem) : option elem :=
  match n, el with
  | S n', Some e =>
      if ok (trim (or_empty (innerText d e))) then Some e
      else walk_up d ok n' (parentElement d e)
  | _, _ => None
  end.

(** ** [fetch-data.js] *)

Module FetchData.
Section Page.
Variable toLowerCase : jsstring -> jsstring.

Definition isExternalPollUrl (href : jsval) : bool :=
  match href with
  | Undefined | Null | Str [] => false
  | Str ((_ :: _) as href) =>
      let h := toLowerCase href in
      if negb (startsWith h (js "http")) then false
      else if includes h (js "racetothewh.com") then false
      else if includes h (js "twitter.com") || includes h (js "x.com") then false
      else if includes h (js "facebook.com") then false
      else if includes h (js "instagram.com") then false
      else if includes h (js "youtube.com") then false
      else if includes h (js "tiktok.com") then false
      else true
  end.

Definition extractResults : jsstring -> list result_entry := extractResults_cap 10.
Definition extractDateText : jsstring -> jsstring := extractDateText_n 8.

(** [/\bPollster\s*:\s*([^\n\r]+)\b/i] *)
Definition re_pollster : regex :=
  (WordBoundary +++ lit (js "Pollster") +++ rstar re_ws +++ chr 58 +++ rstar re_ws
   +++ Group 1 (rplus (ncls [(10, 10); (13, 13)])) +++ WordBoundary)%re.

Definition pickPollster (txt : jsstring) : jsstring :=
  match re_match true re_pollster txt with
  | Some m => clean (of_group (mr_group m 1))
  | None =>
      match clean_lines txt with
      | [] => []
      | first :: _ =>
          if (length first <=? 48)%nat && negb (re_test false (chr 37) first) then first
          else []
      end
  end.

Definition re_office : regex := Alt (lit (js "Senate")) (lit (js "Governor")).

(** [/\b([A-Z][a-z]+)\s+(Senate|Governor)\b/] *)
Definition re_state_office : regex :=
  (WordBoundary +++ Group 1 (cls [(65, 90)] +++ rplus (cls [(97, 122)])) +++ rplus re_ws
   +++ Group 2 re_office +++ WordBoundary)%re.

(** [/\b(?:AL|AK|...|WY)\s+(Senate|Governor)\b/] *)
Definition re_code_office : regex :=
  (WordBoundary
   +++ alts (lit (js "AL"))
         (List.map (fun w => lit (js w))
            ["AK"; "AZ"; "AR"; "CA"; "CO"; "CT"; "DE"; "FL"; "GA"; "HI"; "ID"; "IL"; "IN";
             "IA"; "KS"; "KY"; "LA"; "ME"; "MD"; "MA"; "MI"; "MN"; "MS"; "MO"; "MT"; "NE";
             "NV"; "NH"; "NJ"; "NM"; "NY"; "NC"; "ND"; "OH"; "OK"; "OR"; "PA"; "RI"; "SC";
             "SD"; "TN"; "TX"; "UT"; "VT"; "VA"; "WA"; "WV"; "WI"; "WY"]%string)
   +++ rplus re_ws +++ Group 1 re_office +++ WordBoundary)%re.

Definition pickRace (txt : jsstring) : jsstring :=
  match re_match false re_state_office txt with
  | Some m1 => group_text m1 1 ++ js " " ++ group_text m1 2
  | None =>
      match re_match false re_code_office txt with
      | Some m2 => mr_text m2
      | None =>
          if includes (toLowerCase txt) (js "generic ballot") then js "Generic Ballot"
          else if includes (toLowerCase txt) (js "approval") then js "Trump Approval"
          else []
      end
  end.

(** The test of the ancestor walk, line 239. *)
Definition block_ok (txt : jsstring) : bool :=
  includes txt (js "%") && (20 <=? length txt)%nat && (length txt <=? 1200)%nat.

(** The loop over the anchors, lines 233-267. *)
Fixpoint blocks_loop (d : document) (MAX_POLLS : nat) (anchors : list elem)
    (blocks : list poll) : list poll :=
  match anchors with
  | [] => blocks
  | a :: anchors' =>
      match walk_up d block_ok 8 (Some a) with
      | None => blocks_loop d MAX_POLLS anchors' blocks
      | Some chosen =>
          let txt := or_empty (innerText d chosen) in
          let results := extractResults txt in
          let results_text := clean (Str txt) in
          if (length results =? 0)%nat && negb (re_test false (chr 37) txt)
          then blocks_loop d MAX_POLLS anchors' blocks
          else
            let blocks1 := blocks ++
              [Poll (href d a) (inferCategory toLowerCase txt) (pickRace txt) (pickPollster txt)
                    (extractDateText txt) (extractSample txt) [] results_text results] in
            if (MAX_POLLS <=? length blocks1)%nat then blocks1
            else blocks_loop d MAX_POLLS anchors' blocks1
      end
  end.

(** The function evaluated in the page, lines 122-270. *)
Definition page_evaluate (d : document) (MAX_POLLS : nat) : list poll :=
  blocks_loop d MAX_POLLS
    (List.filter (fun a => isExternalPollUrl (getAttribute_href d a)) (doc_anchors d)) [].

(** [out.polls], line 278. *)
Definition out_polls (d : document) (MAX_POLLS : nat) : list poll :=
  take MAX_POLLS (dedupe (page_evaluate d MAX_POLLS)).

(** [run] after the page is rendered: the rows written to [polls.json], or
    the error of line 282 when fewer than 10 survive. *)
Definition run (d : document) (MAX_POLLS : nat) : option (list poll) :=
  let polls := out_polls d MAX_POLLS in
  if (length polls <? 10)%nat then None else Some polls.
End Page.
End FetchData.

(** ** [fetch-data_RTW2.js] *)

(** The outcome of evaluating a function in a frame. *)
Inductive outcome (A : Type) := Returned (a : A) | Thrown.
Arguments Returned {A} a.
Arguments Thrown {A}.

(** A frame either has a document in which the function runs, or its
    evaluation throws (detached frame, navigation, error in the page). *)
Inductive frame := LiveFrame (d : document) | FailingFrame.

Definition frame_evaluate {A : Type} (f : frame) (fn : document -> A) : outcome A :=
  match f with
  | LiveFrame d => Returned (fn d)
  | FailingFrame => Thrown
  end.

Module RTW2.
Section Page.
Variable toLowerCase : jsstring -> jsstring.

Definition isNoiseHref (href : jsval) : bool :=
  match href with
  | Undefined | Null | Str [] => true
  | Str ((_ :: _) as href) =>
      let h := toLowerCase href in
      if startsWith h (js "#") then true
      else if startsWith h (js "mailto:") || startsWith h (js "tel:") then true
      else if includes h (js "twitter.com") || includes h (js "x.com") then true
      else if includes h (js "facebook.com") then true
      else if includes h (js "instagram.com") then true
      else if includes h (js "youtube.com") then true
      else if includes h (js "tiktok.com") then true
      else false
  end.

Definition extractResults : jsstring -> list result_entry := extractResults_cap 12.
Definition extractDateText : jsstring -> jsstring := extractDateText_n 12.

(** [/^(?:Pollster|Poll|Firm)\s*:?\s*(.+)$/i] *)
Definition re_pollster : regex :=
  (LineStart +++ alts (lit (js "Pollster")) [lit (js "Poll"); lit (js "Firm")]
   +++ rstar re_ws +++ ropt (chr 58) +++ rstar re_ws +++ Group 1 (rplus re_dot) +++ LineEnd)%re.

Definition pickPollster (txt : jsstring) : jsstring :=
  let lines := clean_lines txt in
  match first_match true re_pollster (take 10 lines) with
  | Some m => slice0 100 (group_text m 1)
  | None =>
      match lines with
      | first :: _ => slice0 100 first
      | [] => []
      end
  end.

(** [/(senate|governor|house|president|primary|generic ballot|approval)/i] *)
Definition re_race_word : regex :=
  Group 1 (alts (lit (js "senate"))
             (List.map (fun w => lit (js w))
                ["governor"; "house"; "president"; "primary"; "generic ballot"; "approval"]%string)).

(** [/\b[A-Z]{2}\b.*\b(Senate|Governor)\b/] *)
Definition re_race_state : regex :=
  (WordBoundary +++ rrange 2 2 (cls [(65, 90)]) +++ WordBoundary +++ rstar re_dot +++ WordBoundary
   +++ Group 1 (Alt (lit (js "Senate")) (lit (js "Governor"))) +++ WordBoundary)%re.

(** [/\b[A-Z]{2}\-\d{2}\b/] *)
Definition re_race_district : regex :=
  (WordBoundary +++ rrange 2 2 (cls [(65, 90)]) +++ chr 45 +++ rrange 2 2 re_digit +++ WordBoundary)%re.

Fixpoint pickRace_lines (lines : list jsstring) : jsstring :=
  match lines with
  | [] => []
  | line :: lines' =>
      if re_test true re_race_word line then slice0 120 line
      else if re_test false re_race_state line then slice0 120 line
      else if re_test false re_race_district line then slice0 120 line
      else pickRace_lines lines'
  end.

Definition pickRace (txt : jsstring) : jsstring :=
  pickRace_lines (take 12 (clean_lines txt)).

(** [/(lv|rv|likely voters|registered voters|n=|poll|survey|approve|disapprove|ballot|senate|governor|house|primary|republican|democrat|gop|dem)/] *)
Definition re_poll_word : regex :=
  Group 1 (alts (lit (js "lv"))
             (List.map (fun w => lit (js w))
                ["rv"; "likely voters"; "registered voters"; "n="; "poll"; "survey"; "approve";
                 "disapprove"; "ballot"; "senate"; "governor"; "house"; "primary"; "republican";
                 "democrat"; "gop"; "dem"]%string)).

Definition isLikelyPollBlock (txt : jsstring) : bool :=
  if negb (nonempty txt) then false
  else if negb (includes txt (js "%")) then false
  else if (length txt <? 25)%nat || (2200 <? length txt)%nat then false
  else re_test false re_poll_word (toLowerCase txt).

(** [Array.from(el.querySelectorAll('a[href]')).filter(x => !isNoiseHref(...)).map(x => x.href)] *)
Definition links_of (d : document) (el : elem) : list jsstring :=
  List.map (href d)
    (List.filter (fun x => negb (isNoiseHref (getAttribute_href d x))) (anchors_in d el)).

(** The [for (const h of links)] loop of lines 270-273. *)
Fixpoint first_external (links : list jsstring) (bestUrl : jsstring) : jsstring :=
  match links with
  | [] => bestUrl
  | h :: links' =>
      let hl := toLowerCase h in
      if startsWith hl (js "http") && negb (includes hl (js "racetothewh.com")) then h
      else first_external links' bestUrl
  end.

(** Lines 269-274: the url of a block found from the anchor [a]. *)
Definition bestUrl_anchor (a_href : jsstring) (links : list jsstring) : jsstring :=
  let bestUrl := first_external links (str_or_empty a_href) in
  if negb (nonempty bestUrl) && negb (length links =? 0)%nat
  then str_or_empty (hd [] links)
  else bestUrl.

(** Line 307: the url of a block found by the container scan. *)
Definition bestUrl_container (links : list jsstring) : jsstring :=
  match List.find (fun h => nonempty h && startsWith h (js "http")
                            && negb (includes (toLowerCase h) (js "racetothewh.com"))) links with
  | Some h => h
  | None => str_or_empty (hd [] links)
  end.

Definition make_poll (bestUrl txt : jsstring) (results : list result_entry) : poll :=
  Poll bestUrl (inferCategory toLowerCase txt) (pickRace txt) (pickPollster txt)
       (extractDateText txt) (extractSample txt) [] (clean (Str txt)) results.

(** The loop over the anchors, lines 249-289; [seenEl] holds the blocks
    already taken. *)
Fixpoint anchors_loop (d : document) (MAX_POLLS : nat) (anchors : list elem)
    (seenEl : gset elem) (blocks : list poll) : list poll :=
  match anchors with
  | [] => blocks
  | a :: anchors' =>
      match walk_up d isLikelyPollBlock 10 (Some a) with
      | None => anchors_loop d MAX_POLLS anchors' seenEl blocks
      | Some chosen =>
          if bool_decide (chosen ∈ seenEl) then anchors_loop d MAX_POLLS anchors' seenEl blocks
          else
            let seenEl1 := {[chosen]} ∪ seenEl in
            let txt := or_empty (innerText d chosen) in
            let results := extractResults txt in
            if (length results =? 0)%nat then anchors_loop d MAX_POLLS anchors' seenEl1 blocks
            else
              let bestUrl := bestUrl_anchor (href d a) (links_of d chosen) in
              let blocks1 := blocks ++ [make_poll bestUrl txt results] in
              if (MAX_POLLS <=? length blocks1)%nat then blocks1
              else anchors_loop d MAX_POLLS anchors' seenEl1 blocks1
      end
  end.

(** The loop over the generic containers, lines 297-322. *)
Fixpoint containers_loop (d : document) (MAX_POLLS : nat) (elems : list elem)
    (blocks : list poll) : list poll :=
  match elems with
  | [] => blocks
  | el :: elems' =>
      let txt := trim (or_empty (innerText d el)) in
      if negb (isLikelyPollBlock txt) then containers_loop d MAX_POLLS elems' blocks
      else
        let results := extractResults txt in
        if (length results =? 0)%nat then containers_loop d MAX_POLLS elems' blocks
        else
          let bestUrl := bestUrl_container (links_of d el) in
          let blocks1 := blocks ++ [make_poll bestUrl txt results] in
          if (MAX_POLLS <=? length blocks1)%nat then blocks1
          else containers_loop d MAX_POLLS elems' blocks1
  end.

(** The function evaluated in a frame, lines 139-326. *)
Definition in_frame (MAX_POLLS : nat) (d : document) : list poll :=
  let anchors :=
    List.filter (fun a => negb (isNoiseHref (getAttribute_href d a)))
      (List.filter (fun a => negb (in_header_nav_footer d a)) (doc_anchors d)) in
  let blocks := anchors_loop d MAX_POLLS anchors ∅ [] in
  if (length blocks <? 5)%nat then
    let elems :=
      take 2500 (List.filter (fun el => negb (in_header_nav_footer d el)) (doc_containers d)) in
    containers_loop d MAX_POLLS elems blocks
  else blocks.

(** [extractPollsInFrame]: the [try]/[catch] around [frame.evaluate]. *)
Definition extractPollsInFrame (MAX_POLLS : nat) (f : frame) : list poll :=
  match frame_evaluate f (in_frame MAX_POLLS) with
  | Returned blocks => blocks
  | Thrown => []
  end.

(** The loop over the frames, lines 335-339. *)
Fixpoint frames_loop (MAX_POLLS : nat) (frames : list frame) (polls : list poll) : list poll :=
  match frames with
  | [] => polls
  | f :: frames' =>
      let part := extractPollsInFrame MAX_POLLS f in
      frames_loop MAX_POLLS frames'
        (if negb (length part =? 0)%nat then polls ++ part else polls)
  end.

(** [out.polls], line 347. *)
Definition out_polls (MAX_POLLS : nat) (frames : list frame) : list poll :=
  take MAX_POLLS (dedupe (frames_loop MAX_POLLS frames [])).

(** [run] after the page is rendered: the rows written to [polls.json], or
    the error of line 371 when fewer than 10 survive. *)
Definition run (MAX_POLLS : nat) (frames : list frame) : option (list poll) :=
  let polls := out_polls MAX_POLLS frames in
  if (length polls <? 10)%nat then None else Some polls.
End Page.
End RTW2.

(** ** Bot-wall detection (both files, line 106) *)

(** [/just a moment|checking your browser|cf-chl|cloudflare|access denied|attention required/i] *)
Definition re_blocked : regex :=
  alts (lit (js "just a moment"))
    (List.map (fun w => lit (js w))
       ["checking your browser"; "cf-chl"; "cloudflare"; "access denied";
        "attention required"]%string).

(** [maybeBlocked], from the title and the text of the body. *)
Definition maybeBlocked (title bodyText : jsstring) : bool :=
  re_test true re_blocked (title ++ js " " ++ bodyText).

(** ** The row limit and the end of [run] (both files, line 32 and lines 274-287, 343-376) *)

(** [Number(process.env.MAX_POLLS || 600)]; an unset variable is [None]. *)
Definition MAX_POLLS_of_env (v : option jsstring) : jsnum :=
  match v with
  | None | Some [] => Fin 600
  | Some s => Number (Str s)
  end.

(** ToIntegerOrInfinity of a finite Number: truncation toward zero. *)
Definition truncate (q : Q) : Z := Z.quot (Qnum q) (Zpos (Qden q)).

(** [arr.slice(0, n)] for a Number [n]; a negative [n] counts from the
    end. *)
Definition slice0_num {A : Type} (n : jsnum) (l : list A) : list A :=
  match n with
  | NaN | NegInfinity => []
  | Infinity => l
  | Fin q =>
      let k := truncate q in
      if (0 <=? k)%Z then take (Z.to_nat k) l else take (length l - Z.to_nat (- k)) l
  end.

(** [dedupe(polls).slice(0, MAX_POLLS)] and the test on the number of
    rows: the rows written, or the error for too few rows. *)
Definition finish (MAX_POLLS : jsnum) (polls : list poll) : option (list poll) :=
  let rows := slice0_num MAX_POLLS (dedupe polls) in
  if (length rows <? 10)%nat then None else Some rows.

(** ** The passes and [run] with the row limit as a Number (both files, line 32) *)

(** [blocks.length >= MAX_POLLS] for an array of [n] records: the
    comparison of Numbers, false on [NaN]. *)
Definition length_ge (n : nat) (MAX_POLLS : jsnum) : bool :=
  match MAX_POLLS with
  | NaN | Infinity => false
  | NegInfinity => true
  | Fin q => Qle_bool q (inject_Z (Z.of_nat n))
  end.

(** How [run] ends: the error of the bot wall, the error for too few
    rows, or the rows written to [polls.json]. *)
Inductive run_end := Blocked | TooFewRows | Written (polls : list poll).

Section Limit.
Variable toLowerCase : jsstring -> jsstring.
Variable MAX_POLLS : jsnum.

(** [fetch-data.js], lines 233-267. *)
Fixpoint blocks_loop_num (d : document) (anchors : list elem) (blocks : list poll) : list poll :=
  match anchors with
  | [] => blocks
  | a :: anchors' =>
      match walk_up d FetchData.block_ok 8 (Some a) with
      | None => blocks_loop_num d anchors' blocks
      | Some chosen =>
          let txt := or_empty (innerText d chosen) in
          let results := FetchData.extractResults txt in
          let results_text := clean (Str txt) in
          if (length results =? 0)%nat && negb (re_test false (chr 37) txt)
          then blocks_loop_num d anchors' blocks
          else
            let blocks1 := blocks ++
              [Poll (href d a) (inferCategory toLowerCase txt) (FetchData.pickRace toLowerCase txt)
                    (FetchData.pickPollster txt) (FetchData.extractDateText txt)
                    (extractSample txt) [] results_text results] in
            if length_ge (length blocks1) MAX_POLLS then blocks1
            else blocks_loop_num d anchors' blocks1
      end
  end.

(** [fetch-data.js], lines 122-270. *)
Definition page_evaluate_num (d : document) : list poll :=
  blocks_loop_num d
    (List.filter (fun a => FetchData.isExternalPollUrl toLowerCase (getAttribute_href d a))
       (doc_anchors d)) [].

(** [run] of [fetch-data.js], lines 103-287, from the title and the text
    of the body read at lines 104-105 and the rendered page. *)
Definition fetch_data_run (title bodyText : jsstring) (d : document) : run_end :=
  if maybeBlocked title bodyText then Blocked
  else
    match finish MAX_POLLS (page_evaluate_num d) with
    | None => TooFewRows
    | Some rows => Written rows
    end.

(** [fetch-data_RTW2.js], lines 249-289. *)
Fixpoint anchors_loop_num (d : document) (anchors : list elem) (seenEl : gset elem)
    (blocks : list poll) : list poll :=
  match anchors with
  | [] => blocks
  | a :: anchors' =>
      match walk_up d (RTW2.isLikelyPollBlock toLowerCase) 10 (Some a) with
      | None => anchors_loop_num d anchors' seenEl blocks
      | Some chosen =>
          if bool_decide (chosen ∈ seenEl) then anchors_loop_num d anchors' seenEl blocks
          else
            let seenEl1 := {[chosen]} ∪ seenEl in
            let txt := or_empty (innerText d chosen) in
            let results := RTW2.extractResults txt in
            if (length results =? 0)%nat then anchors_loop_num d anchors' seenEl1 blocks
            else
              let bestUrl :=
                RTW2.bestUrl_anchor toLowerCase (href d a) (RTW2.links_of toLowerCase d chosen) in
              let blocks1 := blocks ++ [RTW2.make_poll toLowerCase bestUrl txt results] in
              if length_ge (length blocks1) MAX_POLLS then blocks1
              else anchors_loop_num d anchors' seenEl1 blocks1
      end
  end.

(** [fetch-data_RTW2.js], lines 297-322. *)
Fixpoint containers_loop_num (d : document) (elems : list elem) (blocks : list poll) : list poll :=
  match elems with
  | [] => blocks
  | el :: elems' =>
      let txt := trim (or_empty (innerText d el)) in
      if negb (RTW2.isLikelyPollBlock toLowerCase txt) then containers_loop_num d elems' blocks
      else
        let results := RTW2.extractResults txt in
        if (length results =? 0)%nat then containers_loop_num d elems' blocks
        else
          let bestUrl := RTW2.bestUrl_container toLowerCase (RTW2.links_of toLowerCase d el) in
          let blocks1 := blocks ++ [RTW2.make_poll toLowerCase bestUrl txt results] in
          if length_ge (length blocks1) MAX_POLLS then blocks1
          else containers_loop_num d elems' blocks1
  end.

(** [fetch-data_RTW2.js], lines 139-326. *)
Definition in_frame_num (d : document) : list poll :=
  let anchors :=
    List.filter (fun a => negb (RTW2.isNoiseHref toLowerCase (getAttribute_href d a)))
      (List.filter (fun a => negb (in_header_nav_footer d a)) (doc_anchors d)) in
  let blocks := anchors_loop_num d anchors ∅ [] in
  if (length blocks <? 5)%nat then
    let elems :=
      take 2500 (List.filter (fun el => negb (in_header_nav_footer d el)) (doc_containers d)) in
    containers_loop_num d elems blocks
  else blocks.

(** [extractPollsInFrame], lines 137-330. *)
Definition extractPollsInFrame_num (f : frame) : list poll :=
  match frame_evaluate f in_frame_num with
  | Returned blocks => blocks
  | Thrown => []
  end.

(** The loop over the frames, lines 335-339. *)
Fixpoint frames_loop_num (frames : list frame) (polls : list poll) : list poll :=
  match frames with
  | [] => polls
  | f :: frames' =>
      let part := extractPollsInFrame_num f in
      frames_loop_num frames' (if negb (length part =? 0)%nat then polls ++ part else polls)
  end.

(** [run] of [fetch-data_RTW2.js], lines 103-376, from the title and the
    text of the body read at lines 104-105 and the frames of the page. *)
Definition rtw2_run (title bodyText : jsstring) (frames : list frame) : run_end :=
  if maybeBlocked title bodyText then Blocked
  else
    match finish MAX_POLLS (frames_loop_num frames []) with
    | None => TooFewRows
    | Some rows => Written rows
    end.
End Limit.

(** ** Definitions used to state the properties *)

(** Category classification as a rule list read in order: the first rule
    whose test holds on the lowered text gives the category. *)
Definition category_rules : list ((jsstring -> bool) * jsstring) :=
  [ (fun t => includes t (js "generic ballot"), js "generic_ballot");
    (fun t => includes t (js "approval"), js "approval");
    (fun t => includes t (js "senate"), js "senate");
    (fun t => includes t (js "governor"), js "governor");
    (fun t => includes t (js "house"), js "house");
    (fun t => includes t (js "democratic") && includes t (js "primary"), js "dem_primary");
    (fun t => includes t (js "republican") && includes t (js "primary"), js "gop_primary");
    (fun t => includes t (js "general election"), js "pres_general");
    (fun t => includes t (js "president") || includes t (js "presidential"), js "president") ].

Fixpoint first_rule (rules : list ((jsstring -> bool) * jsstring)) (t : jsstring) : jsstring :=
  match rules with
  | [] => js "other"
  | (test, cat) :: rules' => if test t then cat else first_rule rules' t
  end.

Definition category_values : list jsstring :=
  List.map js ["generic_ballot"; "approval"; "senate"; "governor"; "house"; "dem_primary";
               "gop_primary"; "pres_general"; "president"; "other"]%string.


(** The documents of the frames whose evaluation does not throw. *)
Definition live_documents (frames : list frame) : list document :=
  omap (fun f => match f with LiveFrame d => Some d | FailingFrame => None end) frames.

(** The two readings of "external" in [fetch-data_RTW2.js]: line 272 tests
    the lowered href, line 307 tests the href itself for the scheme. *)
Definition external_lowered (toLowerCase : jsstring -> jsstring) (h : jsstring) : bool :=
  startsWith (toLowerCase h) (js "http") && negb (includes (toLowerCase h) (js "racetothewh.com")).

(** A record of [fetch-data_RTW2.js] assembled from the block found by
    walking up from an anchor. *)
Definition from_anchor (toLowerCase : jsstring -> jsstring) (d : document) (p : poll) : Prop :=
  exists a chosen,
    In a (doc_anchors d) /\
    walk_up d (RTW2.isLikelyPollBlock toLowerCase) 10 (Some a) = Some chosen /\
    RTW2.extractResults (or_empty (innerText d chosen)) <> [] /\
    p = RTW2.make_poll toLowerCase
          (RTW2.bestUrl_anchor toLowerCase (href d a) (RTW2.links_of toLowerCase d chosen))
          (or_empty (innerText d chosen))
          (RTW2.extractResults (or_empty (innerText d chosen))).

(** A record of [fetch-data_RTW2.js] assembled from a generic container. *)
Definition from_container (toLowerCase : jsstring -> jsstring) (d : document) (p : poll) : Prop :=
  exists el,
    In el (doc_containers d) /\
    RTW2.isLikelyPollBlock toLowerCase (trim (or_empty (innerText d el))) = true /\
    RTW2.extractResults (trim (or_empty (innerText d el))) <> [] /\
    p = RTW2.make_poll toLowerCase
          (RTW2.bestUrl_container toLowerCase (RTW2.links_of toLowerCase d el))
          (trim (or_empty (innerText d el)))
          (RTW2.extractResults (trim (or_empty (innerText d el)))).

(** A record of [fetch-data.js]: the block found by walking up from an
    external anchor, kept when it has results or its text has a [%]. *)
Definition from_external_anchor (toLowerCase : jsstring -> jsstring) (d : document) (p : poll) : Prop :=
  exists a chosen,
    In a (doc_anchors d) /\
    FetchData.isExternalPollUrl toLowerCase (getAttribute_href d a) = true /\
    walk_up d FetchData.block_ok 8 (Some a) = Some chosen /\
    (FetchData.extractResults (or_empty (innerText d chosen)) <> [] \/
     re_test false (chr 37) (or_empty (innerText d chosen)) = true) /\
    url p = href d a /\
    results_text p = clean (Str (or_empty (innerText d chosen))) /\
    results p = FetchData.extractResults (or_empty (innerText d chosen)).

(** Test documents.  [polls_page n]: [n] anchors, numbered from 1, each
    the only link of a block of its own (numbered from 101) whose text has
    a percent sign but no result. *)
Definition digit_char (i : nat) : jsstring := [48 + N.of_nat (i mod 10)].

Definition polls_page (n : nat) : document :=
  {| doc_anchors := seq 1 n;
     doc_containers := seq 101 n;
     innerText := fun e =>
       if (e <=? 100)%nat then Str (js "source")
       else Str (js "Turnout rose by 100% compared with 2020");
     parentElement := fun e => if (e <=? 100)%nat then Some (100 + e)%nat else None;
     getAttribute_href := fun e =>
       if (e <=? 100)%nat then Str (js "https://example.org/poll/" ++ digit_char e) else Null;
     href := fun e =>
       if (e <=? 100)%nat then js "https://example.org/poll/" ++ digit_char e else [];
     in_header_nav_footer := fun _ => false;
     anchors_in := fun e => if (e <=? 100)%nat then [] else [(e - 100)%nat] |}.


(** Whitespace collapsing written as a plain recursion: [in_run] tells
    whether the previous code unit was whitespace. *)
Fixpoint collapse (in_run : bool) (s : jsstring) : jsstring :=
  match s with
  | [] => []
  | c :: s' =>
      if is_ws c then (if in_run then collapse true s' else 32 :: collapse true s')
      else c :: collapse false s'
  end.

(** Every whitespace code unit is a single space, and no two of them are
    adjacent ([after_ws]: the code unit before [s] was whitespace). *)
Fixpoint spaced (after_ws : bool) (s : jsstring) : bool :=
  match s with
  | [] => true
  | c :: s' =>
      if is_ws c then (c =? 32) && negb after_ws && spaced true s'
      else spaced false s'
  end.

Definition starts_with_ws (s : jsstring) : bool :=
  match s with c :: _ => is_ws c | [] => false end.
Definition ends_with_ws (s : jsstring) : bool := starts_with_ws (rev s).

(** ** The matcher, declaratively *)

(** [re_run ic r x y]: the pattern [r] can take the state [x] to the state
    [y], whatever the order in which the matcher tries the choices. *)
Inductive re_run (ic : bool) : regex -> mstate -> mstate -> Prop :=
| run_empty x : re_run ic Empty x x
| run_class cs p c s caps :
    cs_test ic cs c = true ->
    re_run ic (Class cs) (MState p (c :: s) caps) (MState (Some c) s caps)
| run_seq r1 r2 x y z :
    re_run ic r1 x y -> re_run ic r2 y z -> re_run ic (Seq r1 r2) x z
| run_alt_l r1 r2 x y : re_run ic r1 x y -> re_run ic (Alt r1 r2) x y
| run_alt_r r1 r2 x y : re_run ic r2 x y -> re_run ic (Alt r1 r2) x y
| run_rep_max min r x : re_run ic (Repeat min (Some O) r) x x
| run_rep_stop max r x : re_run ic (Repeat O max r) x x
| run_rep_step min max r x y z :
    max <> Some O ->
    re_run ic r x y ->
    re_run ic (Repeat (Nat.pred min) (pred_max max) r) y z ->
    re_run ic (Repeat min max r) x z
| run_group n r x y :
    re_run ic r x y ->
    re_run ic (Group n r) x (MState (st_prev y) (st_rest y) (<[n := consumed x y]> (st_caps y)))
| run_word_boundary x :
    xorb (word_before x) (word_after x) = true -> re_run ic WordBoundary x x
| run_line_start x : st_prev x = None -> re_run ic LineStart x x
| run_line_end x : st_rest x = [] -> re_run ic LineEnd x x.

(** Every quantifier has its minimum below its maximum. *)
Fixpoint wf_regex (r : regex) : bool :=
  match r with
  | Seq r1 r2 | Alt r1 r2 => wf_regex r1 && wf_regex r2
  | Repeat min max r1 =>
      match max with Some m => (min <=? m)%nat | None => true end && wf_regex r1
  | Group _ r1 => wf_regex r1
  | Empty | Class _ | WordBoundary | LineStart | LineEnd => true
  end.

Fixpoint has_group (r : regex) : bool :=
  match r with
  | Seq r1 r2 | Alt r1 r2 => has_group r1 || has_group r2
  | Repeat _ _ r1 => has_group r1
  | Group _ _ => true
  | Empty | Class _ | WordBoundary | LineStart | LineEnd => false
  end.

(** The words a pattern can consume. *)
Fixpoint lang (ic : bool) (r : regex) (w : jsstring) : Prop :=
  match r with
  | Empty | WordBoundary | LineStart | LineEnd => w = []
  | Class cs => exists c, w = [c] /\ cs_test ic cs c = true
  | Seq r1 r2 => exists u v, w = u ++ v /\ lang ic r1 u /\ lang ic r2 v
  | Alt r1 r2 => lang ic r1 w \/ lang ic r2 w
  | Repeat min max r1 =>
      exists ws : list jsstring,
        w = concat ws /\ Forall (lang ic r1) ws /\ (min <= length ws)%nat /\
        (forall m, max = Some m -> (length ws <= m)%nat)
  | Group _ r1 => lang ic r1 w
  end.

(** A matcher is local when it only asks its continuation about states at
    or after its own position. *)
Definition local_matcher (step : mstate -> cont -> option mstate) : Prop :=
  forall x k k',
    (forall y, (length (st_rest y) <= length (st_rest x))%nat -> k y = k' y) ->
    step x k = step x k'.

(** The percentage literals [\d{1,2}(?:\.\d+)?]: one or two digits, then
    possibly a period and at least one digit. *)
Definition all_digits (w : jsstring) : Prop := Forall (fun c => is_digit c = true) w.

Definition pct_literal (w : jsstring) : Prop :=
  exists ds fs : jsstring,
    all_digits ds /\ (1 <= length ds <= 2)%nat /\ all_digits fs /\
    (w = ds /\ fs = [] \/ fs <> [] /\ w = ds ++ 46 :: fs).

(** The names [[A-Za-z][A-Za-z\.'’\-]+(?:\s+[A-Za-z][A-Za-z\.'’\-]+){0,4}]:
    one to five words separated by whitespace, each word a Basic Latin
    letter of either case followed by at least one letter, period,
    apostrophe or hyphen. *)
Definition name_start_ok (c : N) : bool := in_ranges [(65, 90); (97, 122)] c.
Definition name_char_ok (c : N) : bool :=
  in_ranges [(65, 90); (97, 122); (46, 46); (39, 39); (8217, 8217); (45, 45)] c.
Definition all_ws (w : jsstring) : Prop := Forall (fun c => is_ws c = true) w.

Definition name_word_shape (u : jsstring) : Prop :=
  exists c t, u = c :: t /\ name_start_ok c = true /\ t <> [] /\
              Forall (fun a => name_char_ok a = true) t.

Definition name_shape (w : jsstring) : Prop :=
  exists (u : jsstring) (more : list (jsstring * jsstring)),
    name_word_shape u /\ (length more <= 4)%nat /\
    Forall (fun p => fst p <> [] /\ all_ws (fst p) /\ name_word_shape (snd p)) more /\
    w = u ++ concat (List.map (fun p => fst p ++ snd p) more).

(** An entry read off an occurrence, in [txt], of a name, whitespace, a
    percentage literal, optional whitespace and a percent sign. *)
Definition result_occurrence (txt : jsstring) (e : result_entry) : Prop :=
  exists pre name sp num sp2 post : jsstring,
    txt = pre ++ name ++ sp ++ num ++ sp2 ++ 37 :: post /\
    name_shape name /\ sp <> [] /\ all_ws sp /\ pct_literal num /\ all_ws sp2 /\
    choice e = clean (Str name) /\ Number (Str num) = Fin (pct e).

(** The entry a match gives, if its number is finite. *)
Definition entry_of (m : match_result) : option result_entry :=
  match Number (of_group (mr_group m 2)) with
  | Fin q => Some (ResultEntry (clean (of_group (mr_group m 1))) q)
  | NaN | Infinity | NegInfinity => None
  end.

(** The successive matches of the results pattern, each search starting
    where the previous match ended. *)
Fixpoint scan (fuel : nat) (prev : option N) (rest : jsstring) : list match_result :=
  match fuel with
  | O => []
  | S fuel' =>
      match exec_from false re_result prev rest with
      | None => []
      | Some m => m :: scan fuel' (st_prev (mr_end m)) (st_rest (mr_end m))
      end
  end.

(** The primary entries: the first [cap] entries of the scan. *)
Definition primary_entries (cap : nat) (txt : jsstring) : list result_entry :=
  take cap (omap entry_of (scan (S (length txt)) None txt)).

Definition capitalized (w : jsstring) : bool :=
  match w with c :: _ => (65 <=? c) && (c <=? 90) | [] => false end.

(** What may follow the token "47-43" for the shorthand pattern to read
    it as it stands: the end of the text, or a code unit that is not a
    word character and does not start a fraction. *)
Definition token_end (post : jsstring) : Prop :=
  match post with
  | [] => True
  | c :: post' =>
      is_word c = false /\
      (c = 46 -> match post' with d :: _ => is_digit d = false | [] => True end)
  end.

(** What may precede it: no digit anywhere before, and no word character
    right before. *)
Definition token_start (pre : jsstring) : Prop :=
  Forall (fun c => is_digit c = false) pre /\
  match last pre with Some c => is_word c = false | None => True end.

(** ** The labelled line, in words *)











(** ** Further definitions used to state the properties *)

(** The visible text: the code units that are not whitespace. *)
Definition visible (s : jsstring) : jsstring := List.filter (fun c => negb (is_ws c)) s.

(** The text as a case-insensitive pattern sees it. *)
Definition fold_case (ic : bool) (s : jsstring) : jsstring :=
  if ic then ascii_toLowerCase s else s.

(** Whether a match was found. *)
Definition matched {A : Type} (o : option A) : bool :=
  match o with Some _ => true | None => false end.

(** One of the words occurs in the text. *)
Definition includes_any (words : list jsstring) (s : jsstring) : bool :=
  existsb (fun w => includes s w) words.

(** The two-letter state codes of the race pattern of [fetch-data.js]. *)
Definition state_codes : list jsstring :=
  List.map js
    ["AL"; "AK"; "AZ"; "AR"; "CA"; "CO"; "CT"; "DE"; "FL"; "GA"; "HI"; "ID"; "IL"; "IN";
     "IA"; "KS"; "KY"; "LA"; "ME"; "MD"; "MA"; "MI"; "MN"; "MS"; "MO"; "MT"; "NE";
     "NV"; "NH"; "NJ"; "NM"; "NY"; "NC"; "ND"; "OH"; "OK"; "OR"; "PA"; "RI"; "SC";
     "SD"; "TN"; "TX"; "UT"; "VT"; "VA"; "WA"; "WV"; "WI"; "WY"]%string.

(** A capitalized word: a capital Basic Latin letter, then one or more
    small ones. *)
Definition capital_word (w : jsstring) : Prop :=
  exists c t, w = c :: t /\ in_ranges [(65, 90)] c = true /\ t <> [] /\
              Forall (fun a => in_ranges [(97, 122)] a = true) t.

Definition office_word (w : jsstring) : Prop := w = js "Senate" \/ w = js "Governor".

(** A record of [fetch-data.js], with all its fields, assembled from the
    block found by walking up from an external anchor. *)
Definition fetch_data_record (toLowerCase : jsstring -> jsstring) (d : document) (p : poll) : Prop :=
  exists a chosen,
    In a (doc_anchors d) /\
    FetchData.isExternalPollUrl toLowerCase (getAttribute_href d a) = true /\
    walk_up d FetchData.block_ok 8 (Some a) = Some chosen /\
    p = Poll (href d a) (inferCategory toLowerCase (or_empty (innerText d chosen)))
          (FetchData.pickRace toLowerCase (or_empty (innerText d chosen)))
          (FetchData.pickPollster (or_empty (innerText d chosen)))
          (FetchData.extractDateText (or_empty (innerText d chosen)))
          (extractSample (or_empty (innerText d chosen))) []
          (clean (Str (or_empty (innerText d chosen))))
          (FetchData.extractResults (or_empty (innerText d chosen))).

(** What holds of the fields of every record: the category is one of the
    ten names, the population is empty, the block text is normalized, has a
    percent sign and at most [max_text] code units, and there are at most
    [max_results] results. *)
Definition block_fields (max_text max_results : nat) (p : poll) : Prop :=
  In (category p) category_values /\ population p = [] /\
  In 37 (results_text p) /\ (length (results_text p) <= max_text)%nat /\
  clean (Str (results_text p)) = results_text p /\
  (length (results p) <= max_results)%nat.

(** [three_blocks_page]: two anchors (elements 1 and 2), each in a poll
    block of its own (elements 101 and 102), and a third poll block
    (element 103) without a link. *)
Definition three_blocks_page : document :=
  {| doc_anchors := [1; 2]%nat;
     doc_containers := [103%nat];
     innerText := fun e =>
       if (e <=? 100)%nat then Str (js "source")
       else Str (js "Smith 47% Jones 43% among likely voters");
     parentElement := fun e => if (e <=? 100)%nat then Some (100 + e)%nat else None;
     getAttribute_href := fun e =>
       if (e <=? 100)%nat then Str (js "https://example.org/poll/" ++ digit_char e) else Null;
     href := fun e =>
       if (e <=? 100)%nat then js "https://example.org/poll/" ++ digit_char e else [];
     in_header_nav_footer := fun _ => false;
     anchors_in := fun e =>
       if (e =? 101)%nat || (e =? 102)%nat then [(e - 100)%nat] else [] |}.

(** The month abbreviations of the date pattern, in lower case. *)
Definition month_names : list jsstring :=
  List.map js ["jan"; "feb"; "mar"; "apr"; "may"; "jun"; "jul"; "aug"; "sep"; "sept"; "oct";
               "nov"; "dec"]%string.

Definition ends_with_digit (w : jsstring) : Prop :=
  exists c, last w = Some c /\ is_digit c = true.

Definition starts_with_digit (w : jsstring) : Prop :=
  exists c t, w = c :: t /\ is_digit c = true.

(** The two forms of a date text found in [line]: a month name and a day
    number, or day and month numbers with a slash. *)
Definition date_shape (line r : jsstring) : Prop :=
  includes line r = true /\ ends_with_digit r /\
  ((exists mon, In mon month_names /\ startsWith (ascii_toLowerCase r) mon = true) \/
   (starts_with_digit r /\ In 47 r)).

(** The form of every choice: it starts with a Basic Latin letter, holds
    only name characters and single spaces, and is normalized. *)
Definition choice_shape (w : jsstring) : Prop :=
  (exists c t, w = c :: t /\ name_start_ok c = true) /\
  Forall (fun a => name_char_ok a = true \/ a = 32) w /\
  clean (Str w) = w.

(** The [k]-th ancestor of an element, itself at 0. *)
Fixpoint ancestor (d : document) (k : nat) (e : elem) : option elem :=
  match k with
  | O => Some e
  | S k' => match parentElement d e with Some e' => ancestor d k' e' | None => None end
  end.

(** [e] is the nearest of [a] and its ancestors, fewer than [n] levels
    up, whose trimmed text passes [ok]. *)
Definition nearest_block (d : document) (ok : jsstring -> bool) (n : nat) (a e : elem) : Prop :=
  exists k, (k < n)%nat /\ ancestor d k a = Some e /\
            ok (trim (or_empty (innerText d e))) = true /\
            forall j, (j < k)%nat ->
              exists e', ancestor d j a = Some e' /\
                         ok (trim (or_empty (innerText d e'))) = false.

(** The blocks reached from a list of anchors in [fetch-data_RTW2.js]. *)
Definition blocks_of (toLowerCase : jsstring -> jsstring) (d : document) (anchors : list elem)
    : list elem :=
  omap (fun a => walk_up d (RTW2.isLikelyPollBlock toLowerCase) 10 (Some a)) anchors.

(** A choice is read in the block text [text], or is one of the two
    placeholders of the shorthand. *)
Definition choice_in_text (text : jsstring) (e : result_entry) : Prop :=
  includes text (choice e) = true \/ choice e = js "A" \/ choice e = js "B".

(** A text that starts and ends with a code unit that is not whitespace. *)
Definition solid (s : jsstring) : Prop :=
  (exists c t, s = c :: t /\ is_ws c = false) /\ (exists w z, s = w ++ [z] /\ is_ws z = false).

(** [results_page n]: [n] anchors, numbered from 1, each the only link of
    a poll block of its own (numbered from 101) with two results. *)
Definition results_page (n : nat) : document :=
  {| doc_anchors := seq 1 n;
     doc_containers := seq 101 n;
     innerText := fun e =>
       if (e <=? 100)%nat then Str (js "source")
       else Str (js "Texas Senate" ++ [10] ++ js "Jan 12-15, 2026" ++ [10]
                 ++ js "Smith 47% Jones 43% among 800 LV");
     parentElement := fun e => if (e <=? 100)%nat then Some (100 + e)%nat else None;
     getAttribute_href := fun e =>
       if (e <=? 100)%nat then Str (js "https://example.org/poll/" ++ digit_char e) else Null;
     href := fun e =>
       if (e <=? 100)%nat then js "https://example.org/poll/" ++ digit_char e else [];
     in_header_nav_footer := fun _ => false;
     anchors_in := fun e => if (e <=? 100)%nat then [] else [(e - 100)%nat] |}.

(** * Properties *)

(** ** The text normalizer *)

Lemma cs_test_ws (c : N) : cs_test false (CharSet false ws_ranges) c = is_ws c.
Proof. reflexivity. Qed.

Lemma length_trimStart (s : jsstring) : (length (trimStart s) <= length s)%nat.
Proof. induction s as [|c s IH]; simpl; [lia|]. destruct (is_ws c); simpl; lia. Qed.

(** [\s*] run from any state consumes the whole whitespace prefix. *)
Lemma repeat_ws_star (fuel : nat) (x : mstate) :
  (length (st_rest x) < fuel)%nat ->
  exists p, repeat_matcher (rmatch false re_ws) fuel 0 None x Some =
            Some (MState p (trimStart (st_rest x)) (st_caps x)).
Proof.
  destruct x as [prev rest caps]. cbn [st_rest st_caps]. revert fuel prev.
  induction rest as [|c rest IH]; intros fuel prev Hfuel.
  - destruct fuel; [simpl in Hfuel; lia|]. cbn. eauto.
  - destruct fuel as [|fuel]; [simpl in Hfuel; lia|].
    simpl in Hfuel. cbn [repeat_matcher]. unfold re_ws at 1, cls. cbn [rmatch st_rest st_caps].
    change (cs_test false (CharSet false ws_ranges) c) with (is_ws c).
    cbn [trimStart]. destruct (is_ws c) eqn:Hc; [|eauto].
    cbn [Nat.eqb andb st_rest length].
    replace (length rest =? S (length rest))%nat with false
      by (symmetry; apply Nat.eqb_neq; lia).
    cbn [Nat.pred pred_max].
    destruct (IH fuel (Some c)) as [p Hp]; [lia|].
    rewrite Hp. eauto.
Qed.

(** [\s+] at a position: fails unless a whitespace code unit is there, and
    then consumes the whole run. *)
Lemma match_here_ws_plus (prev : option N) (c : N) (rest : jsstring) :
  is_ws c = true ->
  exists p, match_here false (rplus re_ws) prev (c :: rest) = Some (MState p (trimStart rest) ∅).
Proof.
  intros Hc. unfold match_here, rplus. cbn [rmatch st_rest]. cbn [repeat_matcher].
  unfold re_ws at 1, cls. cbn [rmatch st_rest st_caps].
  change (cs_test false (CharSet false ws_ranges) c) with (is_ws c). rewrite Hc.
  cbn [Nat.eqb andb Nat.pred pred_max].
  destruct (repeat_ws_star (1 + length (c :: rest)) (MState (Some c) rest ∅)) as [p Hp].
  { simpl. lia. }
  exists p. exact Hp.
Qed.

Lemma match_here_ws_plus_none (prev : option N) (rest : jsstring) :
  starts_with_ws rest = false ->
  match_here false (rplus re_ws) prev rest = None.
Proof.
  intros Hc. unfold match_here, rplus. cbn [rmatch st_rest]. cbn [repeat_matcher].
  unfold re_ws at 1, cls. cbn [rmatch st_rest st_caps].
  destruct rest as [|c rest]; [reflexivity|]. simpl in Hc.
  change (cs_test false (CharSet false ws_ranges) c) with (is_ws c). by rewrite Hc.
Qed.

Lemma replace_ws_nonws (fuel : nat) (prev : option N) (c : N) (rest : jsstring) :
  is_ws c = false ->
  replace_all (S fuel) false (rplus re_ws) (js " ") prev (c :: rest) =
  c :: replace_all (S fuel) false (rplus re_ws) (js " ") (Some c) rest.
Proof.
  intros Hc. cbn [replace_all exec_from].
  rewrite match_here_ws_plus_none by done.
  destruct (exec_from false (rplus re_ws) (Some c) rest) as [m|]; [|reflexivity].
  cbn [mr_skipped mr_text mr_end]. reflexivity.
Qed.

Lemma replace_ws_ws (fuel : nat) (prev : option N) (c : N) (rest : jsstring) :
  is_ws c = true ->
  exists p, replace_all (S fuel) false (rplus re_ws) (js " ") prev (c :: rest) =
            32 :: replace_all fuel false (rplus re_ws) (js " ") p (trimStart rest).
Proof.
  intros Hc. cbn [replace_all exec_from].
  destruct (match_here_ws_plus prev c rest Hc) as [p Hm]. rewrite Hm. exists p.
  cbn [mr_skipped mr_text mr_end st_rest st_prev].
  pose proof (length_trimStart rest) as Hlen.
  replace (length (c :: rest) - length (trimStart rest))%nat
    with (S (length rest - length (trimStart rest))) by (simpl; lia).
  reflexivity.
Qed.

Lemma collapse_true (s : jsstring) : collapse true s = collapse false (trimStart s).
Proof.
  induction s as [|c s IH]; [reflexivity|]. simpl.
  destruct (is_ws c) eqn:Hc; [exact IH|]. simpl. by rewrite Hc.
Qed.

(** [s.replace(/\s+/g, ' ')] is the plain whitespace collapsing. *)
Lemma replace_ws_collapse (s : jsstring) :
  replace_g false (rplus re_ws) (js " ") s = collapse false s.
Proof.
  unfold replace_g.
  assert (H : forall n rest fuel prev,
            (length rest <= n)%nat -> (length rest < fuel)%nat ->
            replace_all fuel false (rplus re_ws) (js " ") prev rest = collapse false rest).
  { induction n as [|n IH]; intros rest fuel prev Hn Hfuel.
    - destruct rest; [|simpl in Hn; lia]. destruct fuel; reflexivity.
    - destruct rest as [|c rest]; [destruct fuel; reflexivity|].
      destruct fuel as [|fuel]; [lia|]. simpl in Hn, Hfuel.
      destruct (is_ws c) eqn:Hc.
      + destruct (replace_ws_ws fuel prev c rest Hc) as [p ->].
        pose proof (length_trimStart rest).
        rewrite IH by lia. simpl. rewrite Hc. by rewrite collapse_true.
      + rewrite replace_ws_nonws by done. rewrite IH by lia. simpl. by rewrite Hc. }
  apply (H (length s)); lia.
Qed.

Lemma clean_collapse (s : jsstring) : clean (Str s) = trim (collapse false s).
Proof. unfold clean. simpl. by rewrite replace_ws_collapse. Qed.

Lemma trimStart_snoc (l : jsstring) (c : N) :
  trimStart (l ++ [c]) =
  match trimStart l with
  | [] => if is_ws c then [] else [c]
  | _ :: _ => trimStart l ++ [c]
  end.
Proof.
  induction l as [|a l IH]; simpl; [by destruct (is_ws c)|].
  destruct (is_ws a); [exact IH|reflexivity].
Qed.

Lemma trimEnd_cons (c : N) (s : jsstring) :
  trimEnd (c :: s) =
  match trimEnd s with
  | [] => if is_ws c then [] else [c]
  | _ :: _ => c :: trimEnd s
  end.
Proof.
  unfold trimEnd. simpl rev at 1. rewrite trimStart_snoc.
  destruct (trimStart (rev s)) as [|a t] eqn:E.
  - simpl. by destruct (is_ws c).
  - rewrite rev_unit. destruct (rev (a :: t)) eqn:E'; [|reflexivity].
    apply (f_equal (@length N)) in E'. rewrite length_rev in E'. simpl in E'. lia.
Qed.

Lemma trimStart_id (s : jsstring) : starts_with_ws s = false -> trimStart s = s.
Proof. destruct s as [|c s]; simpl; [done|]. by intros ->. Qed.

Lemma trimStart_starts (s : jsstring) : starts_with_ws (trimStart s) = false.
Proof.
  induction s as [|c s IH]; simpl; [done|].
  destruct (is_ws c) eqn:Hc; [exact IH|]. simpl. exact Hc.
Qed.

Lemma trimEnd_starts (s : jsstring) :
  starts_with_ws s = false -> starts_with_ws (trimEnd s) = false.
Proof.
  destruct s as [|c s]; [done|]. simpl. intros Hc. rewrite trimEnd_cons.
  destruct (trimEnd s); simpl; by rewrite Hc.
Qed.

Lemma trimEnd_ends (s : jsstring) : ends_with_ws (trimEnd s) = false.
Proof. unfold ends_with_ws, trimEnd. rewrite rev_involutive. apply trimStart_starts. Qed.

Lemma trimEnd_id (s : jsstring) : ends_with_ws s = false -> trimEnd s = s.
Proof.
  unfold ends_with_ws, trimEnd. intros H. rewrite trimStart_id by done. apply rev_involutive.
Qed.

Lemma spaced_collapse (s : jsstring) :
  spaced false (collapse false s) = true /\ spaced true (collapse true s) = true.
Proof.
  induction s as [|c s [IH1 IH2]]; [done|]. simpl.
  destruct (is_ws c) eqn:Hc; simpl.
  - change (is_ws 32) with true. simpl. by rewrite IH2.
  - by rewrite Hc, IH1.
Qed.

Lemma collapse_spaced (s : jsstring) :
  (spaced false s = true -> collapse false s = s) /\
  (spaced true s = true -> collapse true s = s).
Proof.
  induction s as [|c s [IH1 IH2]]; [done|]. simpl.
  destruct (is_ws c) eqn:Hc; simpl.
  - split; intros H; apply andb_prop in H as [H Hs]; apply andb_prop in H as [H Hb];
      [|discriminate].
    apply N.eqb_eq in H as ->. by rewrite IH2.
  - split; intros H; by rewrite IH1.
Qed.

Lemma spaced_trimStart (b : bool) (s : jsstring) :
  spaced b s = true -> spaced false (trimStart s) = true.
Proof.
  revert b. induction s as [|c s IH]; intros b; simpl; [done|].
  destruct (is_ws c) eqn:Hc.
  - intros H. apply andb_prop in H as [_ H]. by apply (IH true).
  - simpl. by rewrite Hc.
Qed.

Lemma spaced_trimEnd (b : bool) (s : jsstring) :
  spaced b s = true -> spaced b (trimEnd s) = true.
Proof.
  revert b. induction s as [|c s IH]; intros b; [done|].
  rewrite trimEnd_cons. simpl. destruct (is_ws c) eqn:Hc.
  - intros H. apply andb_prop in H as [H Hs]. apply IH in Hs.
    destruct (trimEnd s) eqn:E; [done|]. cbn [spaced]. rewrite Hc, H. exact Hs.
  - intros H. apply IH in H.
    destruct (trimEnd s) eqn:E; cbn [spaced]; by rewrite Hc.
Qed.

Lemma spaced_no_double_space (b : bool) (s : jsstring) :
  spaced b s = true -> includes s (js "  ") = false.
Proof.
  change (js "  ") with [32; 32].
  revert b. induction s as [|c s IH]; intros b; [done|].
  cbn [spaced includes startsWith]. destruct (is_ws c) eqn:Hc; intros H.
  - apply andb_prop in H as [H Hs]. rewrite (IH _ Hs), orb_false_r.
    destruct (32 =? c) eqn:E; [|done]. cbn [andb].
    destruct s as [|d s]; [done|]. cbn [startsWith].
    destruct (32 =? d) eqn:Hd; [|done]. apply N.eqb_eq in Hd as <-.
    cbn [spaced] in Hs. change (is_ws 32) with true in Hs.
    apply andb_prop in Hs as [Hs _]. apply andb_prop in Hs as [_ Hs]. discriminate.
  - rewrite (IH _ H), orb_false_r.
    destruct (32 =? c) eqn:E; [|done]. apply N.eqb_eq in E as <-.
    change (is_ws 32) with true in Hc. discriminate.
Qed.

Lemma spaced_ws_is_space (b : bool) (s : jsstring) :
  spaced b s = true -> Forall (fun c => is_ws c = true -> c = 32) s.
Proof.
  revert b. induction s as [|c s IH]; intros b; [constructor|].
  cbn [spaced]. destruct (is_ws c) eqn:Hc; intros H.
  - apply andb_prop in H as [H Hs]. apply andb_prop in H as [H _].
    apply N.eqb_eq in H. constructor; [done|by apply (IH true)].
  - constructor; [congruence|by apply (IH false)].
Qed.

Lemma clean_cases (v : jsval) : exists s, clean v = trim (collapse false s).
Proof.
  destruct v as [| |s]; [exists []|exists []|exists s]; try reflexivity.
  apply clean_collapse.
Qed.

(** C6. The normalizer is defined on every input and gives the empty
    string on [undefined], [null] and the empty string; its result is the
    input with each whitespace run collapsed to one space and the ends
    trimmed: it has no two consecutive spaces, its whitespace is made of
    single spaces only, it neither starts nor ends with whitespace; and
    normalizing twice is normalizing once. *)
Theorem clean_normal_form :
  clean Undefined = [] /\ clean Null = [] /\ clean (Str []) = [] /\
  (forall s : jsstring, clean (Str s) = trim (collapse false s)) /\
  (forall v : jsval,
     includes (clean v) (js "  ") = false /\
     Forall (fun c => is_ws c = true -> c = 32) (clean v) /\
     starts_with_ws (clean v) = false /\
     ends_with_ws (clean v) = false /\
     clean (Str (clean v)) = clean v).
Proof.
  split; [reflexivity|]. split; [reflexivity|]. split; [reflexivity|].
  split; [exact clean_collapse|].
  intros v. destruct (clean_cases v) as [s ->].
  assert (Hsp : spaced false (trim (collapse false s)) = true).
  { unfold trim. apply spaced_trimEnd. eapply spaced_trimStart. apply spaced_collapse. }
  assert (Hst : starts_with_ws (trim (collapse false s)) = false).
  { unfold trim. apply trimEnd_starts, trimStart_starts. }
  assert (Hen : ends_with_ws (trim (collapse false s)) = false).
  { unfold trim. apply trimEnd_ends. }
  split; [by eapply spaced_no_double_space|].
  split; [by eapply spaced_ws_is_space|].
  split; [done|]. split; [done|].
  rewrite clean_collapse.
  destruct (collapse_spaced (trim (collapse false s))) as [Hcs _].
  rewrite (Hcs Hsp).
  unfold trim at 1. rewrite trimStart_id by done. by apply trimEnd_id.
Qed.

(** ** Soundness of the matcher *)

Section Soundness.
Variable ic : bool.

Lemma repeat_matcher_sound (r : regex) (step : mstate -> cont -> option mstate) :
  (forall x k z, step x k = Some z -> exists y, re_run ic r x y /\ k y = Some z) ->
  forall fuel min max x k z,
    repeat_matcher step fuel min max x k = Some z ->
    exists y, re_run ic (Repeat min max r) x y /\ k y = Some z.
Proof.
  intros Hstep. induction fuel as [|fuel IH]; intros min max x k z H.
  - destruct max as [[|m]|]; simpl in H; try discriminate.
    exists x. split; [apply run_rep_max|done].
  - assert (Hnz : max <> Some O ->
              exists y, re_run ic (Repeat min max r) x y /\ k y = Some z).
    { intros Hmax.
      assert (Hd : forall z',
        step x (fun y : mstate =>
          if (min =? 0)%nat && (length (st_rest y) =? length (st_rest x))%nat then None
          else repeat_matcher step fuel (Nat.pred min) (pred_max max) y k) = Some z' ->
        exists y, re_run ic (Repeat min max r) x y /\ k y = Some z').
      { intros z' Hz'. apply Hstep in Hz' as (y & Hy & Hk).
        destruct (_ && _); [discriminate|].
        apply IH in Hk as (y' & Hy' & Hk').
        exists y'. split; [|done]. eapply run_rep_step; eauto. }
      assert (H' : match min with
                   | O => match step x (fun y : mstate =>
                            if (min =? 0)%nat && (length (st_rest y) =? length (st_rest x))%nat
                            then None
                            else repeat_matcher step fuel (Nat.pred min) (pred_max max) y k) with
                          | Some z' => Some z'
                          | None => k x
                          end
                   | S _ => step x (fun y : mstate =>
                            if (min =? 0)%nat && (length (st_rest y) =? length (st_rest x))%nat
                            then None
                            else repeat_matcher step fuel (Nat.pred min) (pred_max max) y k)
                   end = Some z).
      { destruct max as [[|m]|]; [done|exact H|exact H]. }
      destruct min as [|min].
      - destruct (step x _) as [z'|] eqn:Hs.
        + injection H' as ->. by apply Hd.
        + exists x. split; [apply run_rep_stop|done].
      - by apply Hd. }
    destruct max as [[|m]|]; [|by apply Hnz..].
    exists x. split; [apply run_rep_max|exact H].
Qed.

Lemma rmatch_sound (r : regex) :
  forall x k z, rmatch ic r x k = Some z -> exists y, re_run ic r x y /\ k y = Some z.
Proof.
  induction r as [|cs|r1 IH1 r2 IH2|r1 IH1 r2 IH2|min max r IH|n r IH| | |];
    intros x k z H; cbn [rmatch] in H.
  - exists x. split; [constructor|done].
  - destruct x as [p [|c s] caps]; cbn [st_rest st_caps] in H; [discriminate|].
    destruct (cs_test ic cs c) eqn:Hc; [|discriminate].
    eexists. split; [by apply run_class|done].
  - apply IH1 in H as (y & Hy & H). apply IH2 in H as (y' & Hy' & H).
    exists y'. split; [by eapply run_seq|done].
  - destruct (rmatch ic r1 x k) as [z'|] eqn:H1.
    + injection H as ->. apply IH1 in H1 as (y & Hy & H1).
      exists y. split; [by apply run_alt_l|done].
    + apply IH2 in H as (y & Hy & H). exists y. split; [by apply run_alt_r|done].
  - eapply repeat_matcher_sound; [exact IH|exact H].
  - apply IH in H as (y & Hy & H). eexists. split; [by apply run_group|done].
  - destruct (xorb _ _) eqn:Hb; [|discriminate].
    exists x. split; [by apply run_word_boundary|done].
  - destruct (st_prev x) eqn:Hp; [discriminate|].
    exists x. split; [by apply run_line_start|done].
  - destruct (st_rest x) eqn:Hr; [|discriminate].
    exists x. split; [by apply run_line_end|done].
Qed.

Lemma match_here_sound (r : regex) (prev : option N) (rest : jsstring) (y : mstate) :
  match_here ic r prev rest = Some y -> re_run ic r (MState prev rest ∅) y.
Proof.
  unfold match_here. intros H. apply rmatch_sound in H as (y' & Hy & H).
  by injection H as <-.
Qed.

(** A run consumes a word of the pattern's language. *)
Lemma re_run_lang (r : regex) (x y : mstate) :
  re_run ic r x y -> wf_regex r = true ->
  exists w, st_rest x = w ++ st_rest y /\ lang ic r w.
Proof.
  induction 1 as [x|cs p c s caps Hc|r1 r2 x y z _ IH1 _ IH2|r1 r2 x y _ IH|r1 r2 x y _ IH
                 |min r x|max r x|min max r x y z Hmax _ IH1 _ IH2|n r x y _ IH|x Hb|x Hp|x Hr];
    cbn [wf_regex]; intros Hwf.
  - by exists [].
  - exists [c]. split; [done|]. by exists c.
  - apply andb_prop in Hwf as [Hw1 Hw2].
    destruct (IH1 Hw1) as (u & Hu & Lu). destruct (IH2 Hw2) as (v & Hv & Lv).
    exists (u ++ v). split; [by rewrite Hu, Hv, app_assoc|]. by exists u, v.
  - apply andb_prop in Hwf as [Hw1 Hw2]. destruct (IH Hw1) as (w & Hw & Lw).
    exists w. split; [done|]. by left.
  - apply andb_prop in Hwf as [Hw1 Hw2]. destruct (IH Hw2) as (w & Hw & Lw).
    exists w. split; [done|]. by right.
  - apply andb_prop in Hwf as [Hmin _]. apply Nat.leb_le in Hmin.
    exists []. split; [done|]. exists []. repeat split; [constructor|simpl; lia|].
    intros m Hm. simpl. lia.
  - exists []. split; [done|]. exists []. repeat split; [constructor|simpl; lia|].
    intros m Hm. simpl. lia.
  - apply andb_prop in Hwf as [Hmm Hw].
    destruct (IH1 Hw) as (u & Hu & Lu).
    destruct IH2 as (v & Hv & ws & -> & Hall & Hlo & Hhi).
    { cbn [wf_regex]. rewrite Hw, andb_true_r.
      destruct max as [m|]; [|done]. simpl. apply Nat.leb_le in Hmm.
      apply Nat.leb_le. lia. }
    exists (u ++ concat ws). split; [by rewrite Hu, Hv, app_assoc|].
    exists (u :: ws). repeat split; [by constructor|simpl; lia|].
    intros m ->. simpl. specialize (Hhi (Nat.pred m) eq_refl).
    destruct m; [done|]. simpl in Hhi. lia.
  - destruct (IH Hwf) as (w & Hw & Lw). by exists w.
  - by exists [].
  - by exists [].
  - by exists [].
Qed.

(** A pattern without groups leaves the captures as they are. *)
Lemma re_run_caps (r : regex) (x y : mstate) :
  re_run ic r x y -> has_group r = false -> st_caps y = st_caps x.
Proof.
  induction 1 as [x|cs p c s caps Hc|r1 r2 x y z _ IH1 _ IH2|r1 r2 x y _ IH|r1 r2 x y _ IH
                 |min r x|max r x|min max r x y z Hmax _ IH1 _ IH2|n r x y _ IH|x Hb|x Hp|x Hr];
    cbn [has_group]; intros Hg; try done.
  - apply orb_false_elim in Hg as [H1 H2]. by rewrite IH2, IH1.
  - apply orb_false_elim in Hg as [H1 H2]. by apply IH.
  - apply orb_false_elim in Hg as [H1 H2]. by apply IH.
  - by rewrite IH2, IH1.
Qed.

(** What a group captures is the word its body consumed. *)
Lemma re_run_group (n : nat) (r : regex) (x y : mstate) :
  re_run ic (Group n r) x y -> wf_regex r = true -> has_group r = false ->
  exists w, st_rest x = w ++ st_rest y /\ lang ic r w /\
            st_caps y = <[n := w]> (st_caps x).
Proof.
  inversion 1 as [| | | | | | | |n' r' x' y' Hrun| | |]; subst. intros Hwf Hg.
  destruct (re_run_lang _ _ _ Hrun Hwf) as (w & Hw & Lw).
  exists w. cbn [st_rest st_caps]. repeat split; [done..|].
  rewrite (re_run_caps _ _ _ Hrun Hg). f_equal.
  unfold consumed. rewrite Hw, length_app.
  replace (length w + length (st_rest y') - length (st_rest y'))%nat with (length w) by lia.
  apply take_app_length.
Qed.

(** A pattern without groups: the word consumed, the captures kept. *)
Lemma re_run_plain (r : regex) (x y : mstate) :
  re_run ic r x y -> wf_regex r = true -> has_group r = false ->
  exists w, st_rest x = w ++ st_rest y /\ lang ic r w /\ st_caps y = st_caps x.
Proof.
  intros Hrun Hwf Hg. destruct (re_run_lang _ _ _ Hrun Hwf) as (w & Hw & Lw).
  exists w. repeat split; [done..|]. by apply re_run_caps with r.
Qed.

Lemma re_run_seq (r1 r2 : regex) (x z : mstate) :
  re_run ic (Seq r1 r2) x z -> exists y, re_run ic r1 x y /\ re_run ic r2 y z.
Proof. inversion 1; subst. eauto. Qed.
End Soundness.

(** ** The fuel of the quantifier loop is never used up *)

Section Fuel.
Variable ic : bool.

Lemma repeat_matcher_local (step : mstate -> cont -> option mstate) :
  local_matcher step ->
  forall fuel min max, local_matcher (fun x k => repeat_matcher step fuel min max x k).
Proof.
  intros Hstep. induction fuel as [|fuel IH]; intros min max x k k' Hk.
  - destruct max as [[|m]|]; simpl; [apply Hk; lia|done|done].
  - assert (Hd : step x (fun y : mstate =>
        if (min =? 0)%nat && (length (st_rest y) =? length (st_rest x))%nat then None
        else repeat_matcher step fuel (Nat.pred min) (pred_max max) y k) =
      step x (fun y : mstate =>
        if (min =? 0)%nat && (length (st_rest y) =? length (st_rest x))%nat then None
        else repeat_matcher step fuel (Nat.pred min) (pred_max max) y k')).
    { apply Hstep. intros y Hy. destruct (_ && _); [done|].
      apply (IH (Nat.pred min) (pred_max max) y). intros z Hz. apply Hk. lia. }
    destruct max as [[|m]|]; cbn [repeat_matcher]; [apply Hk; lia| |];
      (destruct min; [rewrite Hd|exact Hd];
       match goal with |- context [step x ?f] => destruct (step x f) end;
       [reflexivity|apply Hk; lia]).
Qed.

Lemma rmatch_local (r : regex) : local_matcher (rmatch ic r).
Proof.
  induction r as [|cs|r1 IH1 r2 IH2|r1 IH1 r2 IH2|min max r IH|n r IH| | |];
    intros x k k' Hk; cbn [rmatch].
  - apply Hk. lia.
  - destruct (st_rest x) as [|c s] eqn:Hx; [done|].
    destruct (cs_test ic cs c); [|done]. apply Hk. simpl. lia.
  - apply IH1. intros y Hy. apply IH2. intros z Hz. apply Hk. lia.
  - rewrite (IH1 x k k' Hk), (IH2 x k k' Hk). done.
  - by apply (repeat_matcher_local _ IH).
  - apply IH. intros y Hy. apply Hk. simpl. lia.
  - destruct (xorb _ _); [apply Hk; lia|done].
  - destruct (st_prev x); [done|apply Hk; lia].
  - destruct (st_rest x) eqn:Hx; [|done]. apply Hk. rewrite ?Hx. simpl. lia.
Qed.

(** Any fuel above [min + length (st_rest x)] gives the same result: the
    branch of [repeat_matcher] for an exhausted fuel is never taken. *)
Lemma repeat_matcher_fuel (r : regex) (fuel fuel' min : nat) (max : option nat)
    (x : mstate) (k : cont) :
  (min + length (st_rest x) < fuel)%nat -> (min + length (st_rest x) < fuel')%nat ->
  repeat_matcher (rmatch ic r) fuel min max x k =
  repeat_matcher (rmatch ic r) fuel' min max x k.
Proof.
  revert fuel' min max x. induction fuel as [|fuel IH]; intros fuel' min max x H H'; [lia|].
  destruct fuel' as [|fuel']; [lia|].
  assert (Hd : rmatch ic r x (fun y : mstate =>
        if (min =? 0)%nat && (length (st_rest y) =? length (st_rest x))%nat then None
        else repeat_matcher (rmatch ic r) fuel (Nat.pred min) (pred_max max) y k) =
      rmatch ic r x (fun y : mstate =>
        if (min =? 0)%nat && (length (st_rest y) =? length (st_rest x))%nat then None
        else repeat_matcher (rmatch ic r) fuel' (Nat.pred min) (pred_max max) y k)).
  { apply rmatch_local. intros y Hy.
    destruct ((min =? 0)%nat && (length (st_rest y) =? length (st_rest x))%nat) eqn:E;
      [done|].
    apply IH.
    - destruct min; simpl in *; [apply Nat.eqb_neq in E|]; lia.
    - destruct min; simpl in *; [apply Nat.eqb_neq in E|]; lia. }
  destruct max as [[|m]|]; cbn [repeat_matcher]; [done| |];
    (destruct min; [by rewrite Hd|exact Hd]).
Qed.
End Fuel.

(** ** Numbers *)

Lemma match_here_text (ic : bool) (r : regex) (prev : option N) (rest : jsstring) (y : mstate) :
  wf_regex r = true ->
  match_here ic r prev rest = Some y ->
  rest = take (length rest - length (st_rest y)) rest ++ st_rest y.
Proof.
  intros Hwf Hy. apply match_here_sound in Hy.
  destruct (re_run_lang _ _ _ _ Hy Hwf) as (w & Hw & _). cbn [st_rest] in Hw.
  rewrite Hw at 2 3. rewrite length_app.
  replace (length w + length (st_rest y) - length (st_rest y))%nat with (length w) by lia.
  by rewrite take_app_length.
Qed.

Lemma from_option_last_cons (prev : option N) (c : N) (pre : jsstring) :
  from_option Some prev (last (c :: pre)) = from_option Some (Some c) (last pre).
Proof.
  destruct pre as [|n pre]; [done|]. change (last (c :: n :: pre)) with (last (n :: pre)).
  destruct (last (n :: pre)) eqn:E; [done|]. by apply last_None in E.
Qed.

(** A match found by [exec]: the input splits into the skipped part, the
    match and the rest, and the pattern runs over the match from the code
    unit before it. *)
Lemma exec_from_sound (ic : bool) (r : regex) (prev : option N) (rest : jsstring)
    (m : match_result) :
  wf_regex r = true ->
  exec_from ic r prev rest = Some m ->
  exists pre,
    rest = pre ++ mr_text m ++ st_rest (mr_end m) /\
    length pre = mr_skipped m /\
    re_run ic r (MState (from_option Some prev (last pre))
                   (mr_text m ++ st_rest (mr_end m)) ∅) (mr_end m).
Proof.
  intros Hwf. revert prev m rest.
  assert (Hhere : forall prev rest y,
    match_here ic r prev rest = Some y ->
    exists pre,
      rest = pre ++ take (length rest - length (st_rest y)) rest ++ st_rest y /\
      length pre = 0%nat /\
      re_run ic r (MState (from_option Some prev (last pre))
                     (take (length rest - length (st_rest y)) rest ++ st_rest y) ∅) y).
  { intros prev rest y Hy. exists [].
    rewrite <- (match_here_text _ _ _ _ _ Hwf Hy).
    repeat split. by apply match_here_sound. }
  intros prev m rest. revert prev m.
  induction rest as [|c rest IH]; intros prev m H; cbn [exec_from] in H.
  - destruct (match_here ic r prev []) as [y|] eqn:Hy; [|discriminate].
    injection H as <-. exact (Hhere _ _ _ Hy).
  - destruct (match_here ic r prev (c :: rest)) as [y|] eqn:Hy.
    + injection H as <-. exact (Hhere _ _ _ Hy).
    + destruct (exec_from ic r (Some c) rest) as [m'|] eqn:Hm'; [|discriminate].
      injection H as <-. cbn [mr_text mr_end mr_skipped].
      destruct (IH _ _ Hm') as (pre & Hrest & Hlen & Hrun).
      exists (c :: pre). split; [by rewrite Hrest at 1|]. split; [simpl; lia|].
      by rewrite from_option_last_cons.
Qed.

Lemma cs_test_digit (c : N) : cs_test false (CharSet false [(48, 57)]) c = is_digit c.
Proof. unfold cs_test, is_digit, in_ranges. simpl. by rewrite orb_false_r. Qed.

Lemma lang_repeat_class (ic : bool) (min : nat) (max : option nat) (cs : charset) (w : jsstring) :
  lang ic (Repeat min max (Class cs)) w ->
  Forall (fun c => cs_test ic cs c = true) w /\ (min <= length w)%nat /\
  (forall m, max = Some m -> (length w <= m)%nat).
Proof.
  intros (ws & -> & Hall & Hlo & Hhi).
  assert (H : Forall (fun c => cs_test ic cs c = true) (concat ws) /\
              length (concat ws) = length ws).
  { clear Hlo Hhi. induction Hall as [|u ws (c & -> & Hc) _ [IH1 IH2]]; [done|].
    simpl. split; [by constructor|by rewrite IH2]. }
  destruct H as [H1 H2]. rewrite H2. done.
Qed.

Lemma lang_pct_number (w : jsstring) : lang false pct_number w -> pct_literal w.
Proof.
  intros (u & v & -> & Hu & ws & -> & Hall & _ & Hhi).
  apply lang_repeat_class in Hu as (Hd & Hlo & Hmax).
  specialize (Hmax 2%nat eq_refl). specialize (Hhi 1%nat eq_refl).
  assert (Hud : all_digits u).
  { eapply Forall_impl; [exact Hd|]. intros c Hc. rewrite <- cs_test_digit. exact Hc. }
  destruct ws as [|f ws].
  - exists u, []. simpl. rewrite app_nil_r.
    split; [done|]. split; [lia|]. split; [constructor|]. by left.
  - destruct ws; [|simpl in Hhi; lia]. apply Forall_cons in Hall as [Hf _].
    destruct Hf as (a & b & -> & (c & -> & Hc) & Hb).
    apply lang_repeat_class in Hb as (Hbd & Hblo & _).
    assert (c = 46) as ->.
    { unfold cs_test, in_ranges in Hc. simpl in Hc. rewrite orb_false_r in Hc.
      apply andb_prop in Hc as [H1 H2]. apply N.leb_le in H1, H2. lia. }
    exists u, b. simpl. rewrite app_nil_r.
    split; [done|]. split; [lia|]. split.
    + eapply Forall_impl; [exact Hbd|]. intros c Hc'. rewrite <- cs_test_digit. exact Hc'.
    + right. split; [|done]. intros ->. simpl in Hblo. lia.
Qed.

Lemma is_digit_range (c : N) : is_digit c = true -> 48 <= c <= 57.
Proof. unfold is_digit. intros H. apply andb_prop in H as [H1 H2]. apply N.leb_le in H1, H2. lia. Qed.

(** Decides the comparisons of a code unit known to lie in a range. *)
Ltac decide_leb :=
  repeat match goal with
  | |- context [(?a <=? ?b)] =>
      first [ replace (a <=? b) with false by (symmetry; apply N.leb_gt; lia)
            | replace (a <=? b) with true by (symmetry; apply N.leb_le; lia) ]
  end.

Lemma is_digit_not_ws (c : N) : is_digit c = true -> is_ws c = false.
Proof.
  intros H. apply is_digit_range in H. unfold is_ws, in_ranges, ws_ranges.
  cbn [existsb fst snd]. decide_leb. reflexivity.
Qed.

Lemma span_digits_app (ds rest : jsstring) :
  all_digits ds -> (match rest with c :: _ => is_digit c = false | [] => True end) ->
  span_digits (ds ++ rest) = (ds, rest).
Proof.
  intros Hds Hrest. induction Hds as [|c ds Hc _ IH]; simpl.
  - destruct rest as [|c rest]; [done|]. simpl. by rewrite Hrest.
  - by rewrite Hc, IH.
Qed.

Lemma digits_value_app (acc : Z) (u v : jsstring) :
  digits_value acc (u ++ v) = digits_value (digits_value acc u) v.
Proof. revert acc. induction u as [|c u IH]; intros acc; simpl; [done|apply IH]. Qed.

Lemma digits_value_bounds (acc : Z) (ds : jsstring) :
  all_digits ds -> (0 <= acc)%Z ->
  (acc * 10 ^ Z.of_nat (length ds) <= digits_value acc ds
   < (acc + 1) * 10 ^ Z.of_nat (length ds))%Z.
Proof.
  intros Hds. revert acc. induction Hds as [|c ds Hc _ IH]; intros acc Hacc.
  - simpl. lia.
  - cbn [digits_value length]. apply is_digit_range in Hc.
    specialize (IH (10 * acc + Z.of_N (c - 48))%Z). 
    rewrite Nat2Z.inj_succ, Z.pow_succ_r by lia.
    assert (0 < 10 ^ Z.of_nat (length ds))%Z by (apply Z.pow_pos_nonneg; lia).
    nia.
Qed.

Lemma all_digits_starts (l t : jsstring) :
  all_digits l -> l <> [] -> starts_with_ws (l ++ t) = false.
Proof.
  intros Hl Hne. destruct Hl as [|c l Hc _]; [done|]. simpl. by apply is_digit_not_ws.
Qed.

Lemma all_digits_rev (l : jsstring) : all_digits l -> all_digits (rev l).
Proof. unfold all_digits. rewrite !List.Forall_forall. intros H c Hc. apply H. by apply in_rev. Qed.

Lemma rev_nonempty {A : Type} (l : list A) : l <> [] -> rev l <> [].
Proof.
  intros Hne Hr. apply Hne. apply (f_equal (@rev A)) in Hr. by rewrite rev_involutive in Hr.
Qed.

Lemma pow10_pos (n : nat) : Zpos (pow10 n) = (10 ^ Z.of_nat n)%Z.
Proof.
  unfold pow10. rewrite Z2Pos.id; [done|]. apply Z.pow_pos_nonneg; lia.
Qed.

Lemma trim_pct_literal (w : jsstring) : pct_literal w -> trim w = w /\ w <> [].
Proof.
  intros (ds & fs & Hds & Hlen & Hfs & Hw).
  assert (Hne : ds <> []) by (intros ->; simpl in Hlen; lia).
  assert (Hst : starts_with_ws w = false).
  { destruct Hw as [[-> _]|[_ ->]].
    - rewrite <- (app_nil_r ds). by apply all_digits_starts.
    - by apply all_digits_starts. }
  assert (Hen : ends_with_ws w = false).
  { unfold ends_with_ws. destruct Hw as [[-> _]|[Hfne ->]].
    - rewrite <- (app_nil_r (rev ds)).
      apply all_digits_starts; [by apply all_digits_rev|by apply rev_nonempty].
    - rewrite rev_app_distr. simpl. rewrite <- app_assoc.
      apply all_digits_starts; [by apply all_digits_rev|by apply rev_nonempty]. }
  split.
  - unfold trim. rewrite trimStart_id by done. by apply trimEnd_id.
  - destruct Hw as [[-> _]|[_ ->]]; [done|]. by destruct ds.
Qed.

Lemma decimal_value_pct_literal (w : jsstring) :
  pct_literal w ->
  exists (n : Z) (d : positive),
    decimal_value w = Some (Qmake n d) /\ (0 <= n < 100 * Zpos d)%Z.
Proof.
  intros (ds & fs & Hds & Hlen & Hfs & Hw).
  assert (Hne : ds <> []) by (intros ->; simpl in Hlen; lia).
  pose proof (digits_value_bounds 0 ds Hds ltac:(lia)) as Hb.
  assert (Hpow : (10 ^ Z.of_nat (length ds) <= 100)%Z).
  { destruct ds as [|a [|b [|c ds]]]; simpl in Hlen |- *; lia. }
  destruct Hw as [[-> ->]|[Hfne ->]].
  - exists (digits_value 0 ds), 1%positive. split; [|lia].
    unfold decimal_value. rewrite <- (app_nil_r ds) at 1.
    rewrite span_digits_app by done. by destruct ds.
  - exists (digits_value 0 (ds ++ fs)), (pow10 (length fs)). split.
    + unfold decimal_value. rewrite span_digits_app by done.
      rewrite <- (app_nil_r fs) at 1. rewrite span_digits_app by done.
      destruct ds; [done|]. reflexivity.
    + rewrite pow10_pos, digits_value_app.
      pose proof (digits_value_bounds (digits_value 0 ds) fs Hfs ltac:(lia)) as Hb'.
      assert (0 < 10 ^ Z.of_nat (length fs))%Z by (apply Z.pow_pos_nonneg; lia).
      nia.
Qed.

Lemma round_half_even_bounds (n : Z) (d : positive) :
  (n / Zpos d <= round_half_even n d <= n / Zpos d + 1)%Z.
Proof.
  unfold round_half_even.
  destruct (_ <? _)%Z; [lia|]. destruct (_ <? _)%Z; [lia|]. destruct (Z.even _); lia.
Qed.

Lemma floor_log2_le (n : Z) (d : positive) :
  (floor_log2 n d <= Z.log2 n - Z.log2 (Zpos d))%Z.
Proof.
  unfold floor_log2. cbv zeta.
  match goal with |- context [if ?b then (Z.log2 n - Z.log2 (Zpos d))%Z else _] => destruct b end;
    lia.
Qed.

(** The double nearest to a rational of [[0, 100)] lies in [[0, 100]]. *)
Lemma to_double_bounds (n : Z) (d : positive) :
  (0 <= n < 100 * Zpos d)%Z ->
  exists q, to_double (Qmake n d) = Fin q /\ (0 <= q)%Q /\ (q <= 100)%Q.
Proof.
  intros Hn. unfold to_double. cbn [Qnum Qden].
  destruct (n <=? 0)%Z eqn:Hn0.
  { exists 0%Q. repeat split; [apply Qle_refl|]. unfold Qle. simpl. lia. }
  apply Z.leb_gt in Hn0.
  set (e := Z.max (floor_log2 n d - 52) (-1074)).
  assert (He : (e < 0)%Z).
  { pose proof (floor_log2_le n d) as Hfl.
    assert (Z.log2 n <= Z.log2 (Zpos d * 2 ^ 7))%Z as Hlog by (apply Z.log2_le_mono; lia).
    rewrite Z.log2_mul_pow2 in Hlog by lia. subst e. lia. }
  replace (0 <=? e)%Z with false by (symmetry; apply Z.leb_gt; lia).
  set (k := (- e)%Z).
  assert (Hk : (0 < 2 ^ k)%Z) by (apply Z.pow_pos_nonneg; lia).
  pose proof (round_half_even_bounds (n * 2 ^ k) d) as [Hlo Hhi].
  set (m := round_half_even (n * 2 ^ k) d) in *.
  assert (Hdiv0 : (0 <= n * 2 ^ k / Zpos d)%Z) by (apply Z.div_pos; nia).
  assert (Hdiv1 : (n * 2 ^ k / Zpos d < 100 * 2 ^ k)%Z).
  { apply Z.div_lt_upper_bound; nia. }
  eexists. split; [reflexivity|].
  split.
  - rewrite Qred_correct. unfold Qle. simpl. lia.
  - rewrite Qred_correct. unfold Qle. cbn [Qnum Qden].
    rewrite Z2Pos.id by lia. change (Qnum 100) with 100%Z. change (Zpos (Qden 100)) with 1%Z. lia.
Qed.

(** A percentage literal converts to a finite number of [[0, 100]]. *)
Lemma Number_pct_literal (w : jsstring) :
  pct_literal w ->
  exists q, Number (Str w) = Fin q /\ (0 <= q)%Q /\ (q <= 100)%Q.
Proof.
  intros Hw. destruct (trim_pct_literal w Hw) as [Htrim Hne].
  destruct (decimal_value_pct_literal w Hw) as (n & d & Hdec & Hn).
  destruct (to_double_bounds n d Hn) as (q & Hq & Hb).
  exists q. split; [|done]. unfold Number. rewrite Htrim.
  destruct w; [done|]. by rewrite Hdec.
Qed.

(** ** Results extraction *)

Lemma cs_test_plain (rs : list (N * N)) (c : N) :
  cs_test false (CharSet false rs) c = in_ranges rs c.
Proof. unfold cs_test. simpl. by destruct (in_ranges rs c). Qed.

Lemma lang_ws_plus (sp : jsstring) : lang false (rplus re_ws) sp -> sp <> [] /\ all_ws sp.
Proof.
  intros H. apply lang_repeat_class in H as (Hall & Hlo & _). split.
  - intros ->. simpl in Hlo. lia.
  - eapply Forall_impl; [exact Hall|]. intros c Hc. cbv beta in Hc. by rewrite cs_test_plain in Hc.
Qed.

Lemma lang_ws_star (sp : jsstring) : lang false (rstar re_ws) sp -> all_ws sp.
Proof.
  intros H. apply lang_repeat_class in H as (Hall & _ & _).
  eapply Forall_impl; [exact Hall|]. intros c Hc. cbv beta in Hc. by rewrite cs_test_plain in Hc.
Qed.

Lemma lang_name_word (u : jsstring) : lang false name_word u -> name_word_shape u.
Proof.
  intros (a & t & -> & (c & -> & Hc) & Ht).
  apply lang_repeat_class in Ht as (Hall & Hlo & _).
  exists c, t. split; [done|]. split; [by rewrite cs_test_plain in Hc|]. split.
  - intros ->. simpl in Hlo. lia.
  - eapply Forall_impl; [exact Hall|]. intros b Hb. cbv beta in Hb. by rewrite cs_test_plain in Hb.
Qed.

Lemma lang_result_name (w : jsstring) : lang false result_name w -> name_shape w.
Proof.
  intros (u & v & -> & Hu & ws & -> & Hall & _ & Hhi).
  specialize (Hhi 4%nat eq_refl). apply lang_name_word in Hu.
  assert (Hmore : exists more : list (jsstring * jsstring),
    length more = length ws /\
    Forall (fun p => fst p <> [] /\ all_ws (fst p) /\ name_word_shape (snd p)) more /\
    concat ws = concat (List.map (fun p => fst p ++ snd p) more)).
  { clear Hhi. induction Hall as [|x ws Hx _ (more & Hlen & Hm & Hc)].
    - exists []. repeat split. constructor.
    - destruct Hx as (sp & nw & -> & Hsp & Hnw).
      apply lang_ws_plus in Hsp as [Hne Hws]. apply lang_name_word in Hnw.
      exists ((sp, nw) :: more). simpl. rewrite Hlen, Hc. repeat split. by constructor. }
  destruct Hmore as (more & Hlen & Hm & Hc).
  exists u, more. rewrite Hlen, Hc. done.
Qed.

Lemma lang_chr (ic : bool) (c : N) (w : jsstring) :
  lang ic (chr c) w -> exists a, w = [a] /\ cs_test ic (CharSet false [(c, c)]) a = true.
Proof. intros H. exact H. Qed.

Lemma lang_percent (w : jsstring) : lang false (chr 37) w -> w = [37].
Proof.
  intros (a & -> & Ha). rewrite cs_test_plain in Ha. unfold in_ranges in Ha. simpl in Ha.
  rewrite orb_false_r in Ha. apply andb_prop in Ha as [H1 H2].
  apply N.leb_le in H1, H2. f_equal. lia.
Qed.

(** A run of the results pattern: the text it consumes and the two groups
    it captures. *)
Lemma re_result_run (x y : mstate) :
  re_run false re_result x y ->
  exists name sp num sp2 : jsstring,
    st_rest x = name ++ sp ++ num ++ sp2 ++ 37 :: st_rest y /\
    name_shape name /\ sp <> [] /\ all_ws sp /\ pct_literal num /\ all_ws sp2 /\
    st_caps y = <[2%nat := num]> (<[1%nat := name]> (st_caps x)).
Proof.
  unfold re_result. intros H.
  apply re_run_seq in H as (y1 & H1 & H). apply re_run_seq in H as (y2 & H2 & H).
  apply re_run_seq in H as (y3 & H3 & H). apply re_run_seq in H as (y4 & H4 & H5).
  apply re_run_group in H1 as (name & E1 & L1 & C1); [|reflexivity..].
  apply re_run_plain in H2 as (sp & E2 & L2 & C2); [|reflexivity..].
  apply re_run_group in H3 as (num & E3 & L3 & C3); [|reflexivity..].
  apply re_run_plain in H4 as (sp2 & E4 & L4 & C4); [|reflexivity..].
  apply re_run_plain in H5 as (pc & E5 & L5 & C5); [|reflexivity..].
  apply lang_percent in L5 as ->. apply lang_ws_plus in L2 as [Hne Hsp].
  exists name, sp, num, sp2. rewrite E1, E2, E3, E4, E5.
  split; [reflexivity|]. split; [by apply lang_result_name|].
  split; [done|]. split; [done|]. split; [by apply lang_pct_number|].
  split; [by apply lang_ws_star|]. by rewrite C5, C4, C3, C2, C1.
Qed.

Lemma exec_result_sound (prev : option N) (rest : jsstring) (m : match_result) :
  exec_from false re_result prev rest = Some m ->
  exists pre name sp num sp2 : jsstring,
    rest = pre ++ name ++ sp ++ num ++ sp2 ++ 37 :: st_rest (mr_end m) /\
    name_shape name /\ sp <> [] /\ all_ws sp /\ pct_literal num /\ all_ws sp2 /\
    mr_group m 1 = Some name /\ mr_group m 2 = Some num.
Proof.
  intros H. apply exec_from_sound in H as (pre & Hrest & _ & Hrun); [|reflexivity].
  apply re_result_run in Hrun as (name & sp & num & sp2 & E & Hn & Hne & Hsp & Hnum & Hsp2 & C).
  cbn [st_rest st_caps] in E, C.
  exists pre, name, sp, num, sp2. rewrite Hrest, E.
  repeat split; try done; unfold mr_group; rewrite C.
  - rewrite lookup_insert_ne by done. apply lookup_insert_eq.
  - apply lookup_insert_eq.
Qed.

(** Every match of the results pattern gives an entry: its number is
    finite and lies in [[0, 100]]. *)
Lemma entry_of_match (prev : option N) (rest : jsstring) (m : match_result) :
  exec_from false re_result prev rest = Some m ->
  exists e, entry_of m = Some e /\ (0 <= pct e)%Q /\ (pct e <= 100)%Q /\
            forall pre0, result_occurrence (pre0 ++ rest) e.
Proof.
  intros H. apply exec_result_sound in H
    as (pre & name & sp & num & sp2 & E & Hn & Hne & Hsp & Hnum & Hsp2 & G1 & G2).
  destruct (Number_pct_literal num Hnum) as (q & Hq & Hq0 & Hq100).
  unfold entry_of. rewrite G1, G2. cbn [of_group]. rewrite Hq.
  eexists. split; [reflexivity|]. cbn [pct choice]. repeat split; try done.
  intros pre0. exists (pre0 ++ pre), name, sp, num, sp2, (st_rest (mr_end m)).
  rewrite E, <- app_assoc. by repeat split.
Qed.

Lemma omap_cons_eq {A B : Type} (f : A -> option B) (x : A) (l : list A) :
  omap f (x :: l) = match f x with Some y => y :: omap f l | None => omap f l end.
Proof. reflexivity. Qed.

Lemma omap_nil_eq {A B : Type} (f : A -> option B) : omap f [] = [].
Proof. reflexivity. Qed.

Lemma results_loop_scan (cap fuel : nat) (prev : option N) (rest : jsstring)
    (out : list result_entry) :
  (length out < cap)%nat ->
  results_loop cap fuel prev rest out =
  out ++ take (cap - length out) (omap entry_of (scan fuel prev rest)).
Proof.
  revert prev rest out. induction fuel as [|fuel IH]; intros prev rest out Hlen;
    cbn [results_loop scan].
  - by rewrite omap_nil_eq, take_nil, app_nil_r.
  - destruct (exec_from false re_result prev rest) as [m|];
      [|by rewrite omap_nil_eq, take_nil, app_nil_r].
    rewrite omap_cons_eq. unfold entry_of at 1.
    destruct (Number (of_group (mr_group m 2))) as [| | |q].
    + replace (cap <=? length out)%nat with false by (symmetry; apply Nat.leb_gt; lia).
      by apply IH.
    + replace (cap <=? length out)%nat with false by (symmetry; apply Nat.leb_gt; lia).
      by apply IH.
    + replace (cap <=? length out)%nat with false by (symmetry; apply Nat.leb_gt; lia).
      by apply IH.
    + rewrite length_app. cbn [length].
      replace (cap - length out)%nat with (S (cap - length out - 1)) by lia.
      cbn [take]. destruct (cap <=? length out + 1)%nat eqn:Hcap.
      * apply Nat.leb_le in Hcap.
        replace (cap - length out - 1)%nat with 0%nat by lia. by rewrite take_0.
      * apply Nat.leb_gt in Hcap. rewrite IH by (rewrite length_app; simpl; lia).
        rewrite length_app. cbn [length]. rewrite <- app_assoc.
        replace (cap - (length out + 1))%nat with (cap - length out - 1)%nat by lia.
        done.
Qed.

(** Each match ends at least one code unit after the place the search
    started from, so the fuel of the loop is never used up. *)
Lemma exec_result_shorter (prev : option N) (rest : jsstring) (m : match_result) :
  exec_from false re_result prev rest = Some m ->
  (length (st_rest (mr_end m)) < length rest)%nat.
Proof.
  intros H. apply exec_result_sound in H as (pre & name & sp & num & sp2 & E & _).
  rewrite E. rewrite !length_app. simpl. lia.
Qed.

Lemma scan_fuel (fuel fuel' : nat) (prev : option N) (rest : jsstring) :
  (length rest < fuel)%nat -> (length rest < fuel')%nat ->
  scan fuel prev rest = scan fuel' prev rest.
Proof.
  revert fuel' prev rest. induction fuel as [|fuel IH]; intros fuel' prev rest H H'; [lia|].
  destruct fuel' as [|fuel']; [lia|]. cbn [scan].
  destruct (exec_from false re_result prev rest) as [m|] eqn:Hm; [|done].
  apply exec_result_shorter in Hm. f_equal. apply IH; lia.
Qed.

Lemma scan_all (fuel : nat) (prev : option N) (rest : jsstring) (pre0 : jsstring) :
  exists es, omap entry_of (scan fuel prev rest) = es /\
             length es = length (scan fuel prev rest) /\
             Forall (fun e => (0 <= pct e)%Q /\ (pct e <= 100)%Q /\
                              result_occurrence (pre0 ++ rest) e) es.
Proof.
  eexists. split; [reflexivity|].
  revert prev rest pre0. induction fuel as [|fuel IH]; intros prev rest pre0; cbn [scan].
  - rewrite omap_nil_eq. split; [done|constructor].
  - destruct (exec_from false re_result prev rest) as [m|] eqn:Hm;
      [|rewrite omap_nil_eq; split; [done|constructor]].
    pose proof Hm as Hm'. apply entry_of_match in Hm' as (e & He & H0 & H100 & Hocc).
    rewrite omap_cons_eq, He.
    apply exec_result_sound in Hm as (pre & name & sp & num & sp2 & E & _).
    destruct (IH (st_prev (mr_end m)) (st_rest (mr_end m))
                 (pre0 ++ pre ++ name ++ sp ++ num ++ sp2 ++ [37])) as [Hlen Hall].
    split; [simpl; by rewrite Hlen|].
    constructor; [done|].
    eapply Forall_impl; [exact Hall|]. simpl. intros e' (? & ? & Ho).
    repeat split; try done. rewrite E.
    replace (pre0 ++ pre ++ name ++ sp ++ num ++ sp2 ++ 37 :: st_rest (mr_end m))
      with ((pre0 ++ pre ++ name ++ sp ++ num ++ sp2 ++ [37]) ++ st_rest (mr_end m)); [done|].
    by rewrite <- !app_assoc.
Qed.

Lemma lang_dash (w : jsstring) : lang false re_dash w -> w = [45] \/ w = [8211].
Proof.
  intros (a & -> & Ha). rewrite cs_test_plain in Ha. unfold in_ranges in Ha. simpl in Ha.
  rewrite orb_false_r in Ha. apply orb_prop in Ha as [Ha|Ha];
    apply andb_prop in Ha as [H1 H2]; apply N.leb_le in H1, H2;
    [left|right]; f_equal; lia.
Qed.

(** A run of the shorthand pattern. *)
Lemma re_shorthand_run (x y : mstate) :
  re_run false re_shorthand x y ->
  exists a sp dash sp2 b : jsstring,
    st_rest x = a ++ sp ++ dash ++ sp2 ++ b ++ st_rest y /\
    pct_literal a /\ all_ws sp /\ (dash = [45] \/ dash = [8211]) /\ all_ws sp2 /\
    pct_literal b /\
    st_caps y = <[2%nat := b]> (<[1%nat := a]> (st_caps x)).
Proof.
  unfold re_shorthand. fold re_dash. intros H.
  apply re_run_seq in H as (y0 & H0 & H). apply re_run_seq in H as (y1 & H1 & H).
  apply re_run_seq in H as (y2 & H2 & H). apply re_run_seq in H as (y3 & H3 & H).
  apply re_run_seq in H as (y4 & H4 & H). apply re_run_seq in H as (y5 & H5 & H6).
  apply re_run_plain in H0 as (w0 & E0 & L0 & C0); [|reflexivity..].
  apply re_run_group in H1 as (a & E1 & L1 & C1); [|reflexivity..].
  apply re_run_plain in H2 as (sp & E2 & L2 & C2); [|reflexivity..].
  apply re_run_plain in H3 as (dash & E3 & L3 & C3); [|reflexivity..].
  apply re_run_plain in H4 as (sp2 & E4 & L4 & C4); [|reflexivity..].
  apply re_run_group in H5 as (b & E5 & L5 & C5); [|reflexivity..].
  apply re_run_plain in H6 as (w6 & E6 & L6 & C6); [|reflexivity..].
  simpl in L0, L6. subst w0 w6. simpl in E0, E6.
  exists a, sp, dash, sp2, b. rewrite E0, E1, E2, E3, E4, E5, E6.
  split; [reflexivity|]. split; [by apply lang_pct_number|].
  split; [by apply lang_ws_star|]. split; [by apply lang_dash|].
  split; [by apply lang_ws_star|]. split; [by apply lang_pct_number|].
  by rewrite C6, C5, C4, C3, C2, C1, C0.
Qed.

Lemma match_shorthand_sound (txt : jsstring) (m2 : match_result) :
  re_match false re_shorthand txt = Some m2 ->
  exists pre a sp dash sp2 b : jsstring,
    txt = pre ++ a ++ sp ++ dash ++ sp2 ++ b ++ st_rest (mr_end m2) /\
    pct_literal a /\ all_ws sp /\ (dash = [45] \/ dash = [8211]) /\ all_ws sp2 /\
    pct_literal b /\
    mr_group m2 1 = Some a /\ mr_group m2 2 = Some b.
Proof.
  unfold re_match. intros H.
  apply exec_from_sound in H as (pre & Hrest & _ & Hrun); [|reflexivity].
  apply re_shorthand_run in Hrun as (a & sp & dash & sp2 & b & E & Ha & Hsp & Hd & Hsp2 & Hb & C).
  cbn [st_rest st_caps] in E, C.
  exists pre, a, sp, dash, sp2, b. rewrite Hrest, E.
  repeat split; try done; unfold mr_group; rewrite C.
  - rewrite lookup_insert_ne by done. apply lookup_insert_eq.
  - apply lookup_insert_eq.
Qed.

Lemma results_loop_primary (cap : nat) (txt : jsstring) :
  (0 < cap)%nat ->
  results_loop cap (S (length txt)) None txt [] = primary_entries cap txt.
Proof.
  intros Hcap. rewrite results_loop_scan by (simpl; lia). simpl.
  unfold primary_entries. by rewrite Nat.sub_0_r.
Qed.

Lemma primary_entries_ok (cap : nat) (txt : jsstring) :
  Forall (fun e => (0 <= pct e)%Q /\ (pct e <= 100)%Q /\ result_occurrence txt e)
         (primary_entries cap txt).
Proof.
  unfold primary_entries.
  destruct (scan_all (S (length txt)) None txt []) as (es & <- & _ & Hall).
  simpl in Hall. by apply Forall_take.
Qed.

Lemma primary_entries_none (cap : nat) (txt : jsstring) :
  re_match false re_result txt = None -> primary_entries cap txt = [].
Proof.
  unfold re_match, primary_entries. intros H. cbn [scan]. rewrite H.
  by rewrite omap_nil_eq, take_nil.
Qed.

Lemma primary_entries_some (cap : nat) (txt : jsstring) (m : match_result) :
  (0 < cap)%nat ->
  re_match false re_result txt = Some m ->
  exists e l, entry_of m = Some e /\ primary_entries cap txt = e :: l.
Proof.
  unfold re_match, primary_entries. intros Hcap H. cbn [scan]. rewrite H.
  destruct (entry_of_match _ _ _ H) as (e & He & _).
  rewrite omap_cons_eq, He. destruct cap; [lia|]. cbn [take]. eauto.
Qed.

(** [extractResults] on a text whose primary scan gives no entry. *)
Lemma extractResults_fallback (cap : nat) (txt : jsstring) :
  (0 < cap)%nat -> primary_entries cap txt = [] ->
  extractResults_cap cap txt =
  match re_match false re_shorthand txt with
  | Some m2 =>
      match Number (of_group (mr_group m2 1)), Number (of_group (mr_group m2 2)) with
      | Fin a, Fin b => [ResultEntry (js "A") a; ResultEntry (js "B") b]
      | _, _ => []
      end
  | None => []
  end.
Proof.
  intros Hcap Hp. unfold extractResults_cap. by rewrite results_loop_primary, Hp.
Qed.

Lemma extractResults_primary (cap : nat) (txt : jsstring) :
  (0 < cap)%nat -> primary_entries cap txt <> [] ->
  extractResults_cap cap txt = primary_entries cap txt.
Proof.
  intros Hcap Hp. unfold extractResults_cap. rewrite results_loop_primary by done.
  by destruct (primary_entries cap txt).
Qed.

Lemma shorthand_entries (txt : jsstring) (m2 : match_result) :
  re_match false re_shorthand txt = Some m2 ->
  exists qa qb,
    Number (of_group (mr_group m2 1)) = Fin qa /\
    Number (of_group (mr_group m2 2)) = Fin qb /\
    (0 <= qa)%Q /\ (qa <= 100)%Q /\ (0 <= qb)%Q /\ (qb <= 100)%Q.
Proof.
  intros H. apply match_shorthand_sound in H
    as (pre & a & sp & dash & sp2 & b & _ & Ha & _ & _ & _ & Hb & G1 & G2).
  destruct (Number_pct_literal a Ha) as (qa & Hqa & ? & ?).
  destruct (Number_pct_literal b Hb) as (qb & Hqb & ? & ?).
  exists qa, qb. rewrite G1, G2. simpl of_group. by repeat split.
Qed.

Lemma extractResults_cap_bounds (cap : nat) (txt : jsstring) :
  (0 < cap)%nat ->
  Forall (fun e => (0 <= pct e)%Q /\ (pct e <= 100)%Q) (extractResults_cap cap txt).
Proof.
  intros Hcap. destruct (primary_entries cap txt) as [|e l] eqn:Hp.
  - rewrite extractResults_fallback by done.
    destruct (re_match false re_shorthand txt) as [m2|] eqn:Hm; [|constructor].
    destruct (shorthand_entries _ _ Hm) as (qa & qb & -> & -> & ? & ? & ? & ?).
    by repeat constructor.
  - rewrite extractResults_primary by (done || congruence).
    eapply Forall_impl; [apply primary_entries_ok|]. simpl. tauto.
Qed.

(** [exec] returns the leftmost match: no earlier position matches. *)
Lemma exec_from_leftmost (ic : bool) (r : regex) (prev : option N) (rest : jsstring)
    (m : match_result) :
  exec_from ic r prev rest = Some m ->
  forall i, (i < mr_skipped m)%nat ->
    match_here ic r (from_option Some prev (last (take i rest))) (drop i rest) = None.
Proof.
  revert prev m. induction rest as [|c rest IH]; intros prev m H i Hi; cbn [exec_from] in H.
  - destruct (match_here ic r prev []); [|discriminate]. injection H as <-. simpl in Hi. lia.
  - destruct (match_here ic r prev (c :: rest)) eqn:Hhere.
    { injection H as <-. simpl in Hi. lia. }
    destruct (exec_from ic r (Some c) rest) as [m'|] eqn:Hm'; [|discriminate].
    injection H as <-. cbn [mr_skipped] in Hi.
    destruct i as [|i]; [exact Hhere|].
    cbn [take drop]. rewrite from_option_last_cons. apply (IH _ _ Hm'). lia.
Qed.

Lemma extractResults_cap_length (cap : nat) (txt : jsstring) :
  (2 <= cap)%nat -> (length (extractResults_cap cap txt) <= cap)%nat.
Proof.
  intros Hcap. destruct (primary_entries cap txt) as [|e l] eqn:Hp.
  - rewrite extractResults_fallback by (done || lia).
    destruct (re_match false re_shorthand txt); [|simpl; lia].
    destruct (Number _); try (simpl; lia). destruct (Number _); simpl; lia.
  - rewrite extractResults_primary by (lia || congruence).
    unfold primary_entries. rewrite length_take. lia.
Qed.

(** C3 (amended). The primary loop returns the entries of the successive
    leftmost matches of the results pattern, each search starting where the
    previous match ended, cut after 10 entries in [fetch-data.js] and 12 in
    [fetch-data_RTW2.js]; when there is one, it is the result of
    [extractResults].  Every such entry comes from an occurrence in the
    text of a name of one to five words (each a Basic Latin letter of
    either case followed by letters, periods, apostrophes or hyphens),
    whitespace, a percentage literal, optional whitespace and a percent
    sign.  On "Smith 47% Jones 43%" both files return Smith 47, Jones 43. *)
Theorem primary_results_scan (txt : jsstring) :
  results_loop 10 (S (length txt)) None txt [] = primary_entries 10 txt /\
  results_loop 12 (S (length txt)) None txt [] = primary_entries 12 txt /\
  (primary_entries 10 txt <> [] -> FetchData.extractResults txt = primary_entries 10 txt) /\
  (primary_entries 12 txt <> [] -> RTW2.extractResults txt = primary_entries 12 txt) /\
  Forall (result_occurrence txt) (primary_entries 10 txt) /\
  Forall (result_occurrence txt) (primary_entries 12 txt) /\
  (length (FetchData.extractResults txt) <= 10)%nat /\
  (length (RTW2.extractResults txt) <= 12)%nat /\
  (forall (prev : option N) (rest : jsstring) (m : match_result),
     exec_from false re_result prev rest = Some m ->
     (length (st_rest (mr_end m)) < length rest)%nat /\
     forall i, (i < mr_skipped m)%nat ->
       match_here false re_result (from_option Some prev (last (take i rest))) (drop i rest)
       = None) /\
  FetchData.extractResults (js "Smith 47% Jones 43%") =
    [ResultEntry (js "Smith") 47; ResultEntry (js "Jones") 43] /\
  RTW2.extractResults (js "Smith 47% Jones 43%") =
    [ResultEntry (js "Smith") 47; ResultEntry (js "Jones") 43].
Proof.
  split; [apply results_loop_primary; lia|].
  split; [apply results_loop_primary; lia|].
  split; [intros H; apply extractResults_primary; [lia|done]|].
  split; [intros H; apply extractResults_primary; [lia|done]|].
  split; [eapply Forall_impl; [apply primary_entries_ok|]; simpl; tauto|].
  split; [eapply Forall_impl; [apply primary_entries_ok|]; simpl; tauto|].
  split; [apply extractResults_cap_length; lia|].
  split; [apply extractResults_cap_length; lia|].
  split.
  { intros prev rest m Hm. split; [by apply (exec_result_shorter prev)|].
    by apply exec_from_leftmost. }
  split; vm_compute; reflexivity.
Qed.

(** C3, counterexample: a name in lower case is matched as well. *)
Lemma lowercase_name_is_matched :
  FetchData.extractResults (js "smith 47%") = [ResultEntry (js "smith") 47] /\
  RTW2.extractResults (js "smith 47%") = [ResultEntry (js "smith") 47] /\
  capitalized (js "smith") = false.
Proof. repeat split; vm_compute; reflexivity. Qed.

(** ** The two-number fallback *)

(** Evaluation of the matcher on a partly known input: the tests on known
    code units are computed, the matcher is unfolded as far as it goes. *)
Ltac eval_tests :=
  repeat match goal with
  | |- context [cs_test ?ic ?cs (N.pos ?p)] =>
      let v := eval vm_compute in (cs_test ic cs (N.pos p)) in
      change (cs_test ic cs (N.pos p)) with v
  | |- context [is_word (N.pos ?p)] =>
      let v := eval vm_compute in (is_word (N.pos p)) in
      change (is_word (N.pos p)) with v
  end.

Ltac run_matcher :=
  repeat (progress (cbn [rmatch repeat_matcher st_rest st_caps st_prev pred_max Nat.pred
                         Nat.eqb andb orb xorb negb length Nat.add app word_before word_after];
                    eval_tests)).

Ltac unfold_shorthand :=
  unfold match_here, re_shorthand, pct_number, rrange, ropt, rstar, rplus,
    re_digit, re_ws, chr, cls.

Lemma eqb_S_1 (n : nat) : (n =? S n)%nat = false.
Proof. apply Nat.eqb_neq. lia. Qed.

Lemma eqb_S_2 (n : nat) : (n =? S (S n))%nat = false.
Proof. apply Nat.eqb_neq. lia. Qed.

Lemma shorthand_needs_digit (prev : option N) (rest : jsstring) :
  match rest with c :: _ => is_digit c = false | [] => True end ->
  match_here false re_shorthand prev rest = None.
Proof.
  intros H. unfold_shorthand. cbn [rmatch]. destruct (xorb _ _); [|done].
  run_matcher. destruct rest as [|c rest]; [done|].
  change (cs_test false (CharSet false [(48, 57)]) c) with
    (xorb false (is_digit c || false)). by rewrite H.
Qed.

Lemma shorthand_here (prev : option N) (post : jsstring) :
  match prev with Some c => is_word c | None => false end = false ->
  token_end post ->
  exists y, match_here false re_shorthand prev ([52; 55; 45; 52; 51] ++ post) = Some y /\
            st_caps y !! 1%nat = Some [52; 55] /\ st_caps y !! 2%nat = Some [52; 51].
Proof.
  intros Hp Hpost. unfold_shorthand. cbn [rmatch]. unfold word_before at 1.
  cbn [st_prev]. rewrite Hp.
  assert (Hcons : forall (p1 p2 p3 : option N) (caps : gmap nat jsstring) (tl : jsstring),
    ((<[2%nat := consumed (MState p1 (52 :: 51 :: tl) (<[1%nat :=
        consumed (MState p2 (52 :: 55 :: 45 :: 52 :: 51 :: tl) ∅)
                 (MState p3 (45 :: 52 :: 51 :: tl) ∅)]> ∅))
                 (MState (Some 51) tl caps)]>
       (<[1%nat := consumed (MState p2 (52 :: 55 :: 45 :: 52 :: 51 :: tl) ∅)
                            (MState p3 (45 :: 52 :: 51 :: tl) ∅)]> ∅)) : gmap nat jsstring)
      !! 1%nat = Some [52; 55] /\
    ((<[2%nat := consumed (MState p1 (52 :: 51 :: tl) (<[1%nat :=
        consumed (MState p2 (52 :: 55 :: 45 :: 52 :: 51 :: tl) ∅)
                 (MState p3 (45 :: 52 :: 51 :: tl) ∅)]> ∅))
                 (MState (Some 51) tl caps)]>
       (<[1%nat := consumed (MState p2 (52 :: 55 :: 45 :: 52 :: 51 :: tl) ∅)
                            (MState p3 (45 :: 52 :: 51 :: tl) ∅)]> ∅)) : gmap nat jsstring)
      !! 2%nat = Some [52; 51]).
  { intros. rewrite lookup_insert_ne by done. rewrite !lookup_insert_eq.
    unfold consumed. cbn [st_rest length].
    replace (S (S (S (S (S (length tl))))) - S (S (S (length tl))))%nat with 2%nat by lia.
    replace (S (S (length tl)) - length tl)%nat with 2%nat by lia. done. }
  destruct post as [|c post].
  { run_matcher. eexists. split; [reflexivity|]. apply Hcons. }
  destruct Hpost as [Hc Hfrac].
  run_matcher.
  rewrite ?eqb_S_1, ?eqb_S_2.
  destruct (cs_test false (CharSet false [(46, 46)]) c) eqn:Hdot.
  - assert (c = 46) as ->.
    { rewrite cs_test_plain in Hdot. unfold in_ranges in Hdot. simpl in Hdot.
      rewrite orb_false_r in Hdot. apply andb_prop in Hdot as [H1 H2].
      apply N.leb_le in H1, H2. lia. }
    specialize (Hfrac eq_refl).
    assert (Hnone : match post with
                    | [] => true
                    | d :: _ => negb (cs_test false (CharSet false [(48, 57)]) d)
                    end = true).
    { destruct post as [|d post]; [done|]. rewrite cs_test_digit, Hfrac. done. }
    destruct post as [|d post].
    + eval_tests. cbn [negb]. eexists. split; [reflexivity|]. apply Hcons.
    + apply negb_true_iff in Hnone. rewrite Hnone.
      eval_tests. cbn [negb]. eexists. split; [reflexivity|]. apply Hcons.
  - rewrite Hc. cbn [negb]. eexists. split; [reflexivity|]. apply Hcons.
Qed.

Lemma exec_from_skip (ic : bool) (r : regex) (prev : option N) (c : N) (rest : jsstring) :
  match_here ic r prev (c :: rest) = None ->
  exec_from ic r prev (c :: rest) =
  match exec_from ic r (Some c) rest with
  | Some m => Some (MatchResult (S (mr_skipped m)) (mr_text m) (mr_end m))
  | None => None
  end.
Proof. intros H. cbn [exec_from]. by rewrite H. Qed.

Lemma exec_from_here (ic : bool) (r : regex) (prev : option N) (rest : jsstring) (y : mstate) :
  match_here ic r prev rest = Some y ->
  exec_from ic r prev rest =
  Some (MatchResult 0 (take (length rest - length (st_rest y)) rest) y).
Proof. intros H. destruct rest; cbn [exec_from]; by rewrite H. Qed.

Lemma exec_shorthand_token (prev : option N) (pre post : jsstring) :
  Forall (fun c => is_digit c = false) pre ->
  match from_option Some prev (last pre) with Some c => is_word c | None => false end = false ->
  token_end post ->
  exists m2, exec_from false re_shorthand prev (pre ++ [52; 55; 45; 52; 51] ++ post) = Some m2 /\
             mr_group m2 1 = Some [52; 55] /\ mr_group m2 2 = Some [52; 51].
Proof.
  intros Hpre. revert prev. induction Hpre as [|c pre Hc _ IH]; intros prev Hlast Hpost.
  - destruct (shorthand_here prev post Hlast Hpost) as (y & Hy & G1 & G2).
    rewrite app_nil_l, (exec_from_here _ _ _ _ _ Hy). eexists. split; [reflexivity|]. done.
  - rewrite from_option_last_cons in Hlast.
    destruct (IH (Some c) Hlast Hpost) as (m2 & Hm & G1 & G2).
    rewrite <- app_comm_cons. rewrite exec_from_skip by (by apply shorthand_needs_digit).
    rewrite Hm. eexists. split; [reflexivity|]. done.
Qed.

Lemma startsWith_nil (s : jsstring) : startsWith s [] = true.
Proof. by destruct s. Qed.

Lemma includes_In (c : N) (s : jsstring) : In c s -> includes s [c] = true.
Proof.
  induction s as [|a s IH]; [done|]. intros [->|H]; cbn [includes startsWith].
  - by rewrite N.eqb_refl, startsWith_nil.
  - rewrite IH by done. apply orb_true_r.
Qed.

Lemma no_percent_no_match (txt : jsstring) :
  includes txt (js "%") = false -> re_match false re_result txt = None.
Proof.
  intros H. unfold re_match. destruct (exec_from false re_result None txt) as [m|] eqn:Hm; [|done].
  apply exec_result_sound in Hm as (pre & name & sp & num & sp2 & E & _).
  change (js "%") with [37] in H. rewrite (includes_In 37 txt) in H; [done|].
  rewrite E. rewrite !in_app_iff. do 5 right. by left.
Qed.

(** C4 (amended). The fallback is used exactly when the primary pattern
    has no match: with a primary match the result starts with the entry of
    that match; without one, and with a match of the shorthand pattern,
    the result is the two placeholder entries A and B with the two
    numbers of the leftmost shorthand match; without either it is empty.
    A text with no percent sign has no primary match.  A text with no
    percent sign in which "47-43" comes before any other digit, is not
    next to a word character and is not followed by a fraction gives
    A 47, B 43; so does the text "47-43". *)
Theorem fallback_when_no_primary_match (txt : jsstring) :
  (forall m : match_result,
     re_match false re_result txt = Some m ->
     exists e l10 l12,
       entry_of m = Some e /\ choice e = clean (of_group (mr_group m 1)) /\
       FetchData.extractResults txt = e :: l10 /\ RTW2.extractResults txt = e :: l12) /\
  (re_match false re_result txt = None ->
   forall m2 : match_result,
     re_match false re_shorthand txt = Some m2 ->
     exists (a b : jsstring) (qa qb : Q),
       mr_group m2 1 = Some a /\ mr_group m2 2 = Some b /\
       pct_literal a /\ pct_literal b /\
       Number (Str a) = Fin qa /\ Number (Str b) = Fin qb /\
       FetchData.extractResults txt = [ResultEntry (js "A") qa; ResultEntry (js "B") qb] /\
       RTW2.extractResults txt = [ResultEntry (js "A") qa; ResultEntry (js "B") qb]) /\
  (re_match false re_result txt = None -> re_match false re_shorthand txt = None ->
   FetchData.extractResults txt = [] /\ RTW2.extractResults txt = []) /\
  (includes txt (js "%") = false -> re_match false re_result txt = None) /\
  (forall pre post : jsstring,
     txt = pre ++ js "47-43" ++ post -> includes txt (js "%") = false ->
     token_start pre -> token_end post ->
     FetchData.extractResults txt = [ResultEntry (js "A") 47; ResultEntry (js "B") 43] /\
     RTW2.extractResults txt = [ResultEntry (js "A") 47; ResultEntry (js "B") 43]) /\
  FetchData.extractResults (js "47-43") = [ResultEntry (js "A") 47; ResultEntry (js "B") 43] /\
  RTW2.extractResults (js "47-43") = [ResultEntry (js "A") 47; ResultEntry (js "B") 43].
Proof.
  assert (Hfb : forall cap, (0 < cap)%nat ->
    re_match false re_result txt = None ->
    extractResults_cap cap txt =
    match re_match false re_shorthand txt with
    | Some m2 =>
        match Number (of_group (mr_group m2 1)), Number (of_group (mr_group m2 2)) with
        | Fin a, Fin b => [ResultEntry (js "A") a; ResultEntry (js "B") b]
        | _, _ => []
        end
    | None => []
    end).
  { intros cap Hcap Hnone. apply extractResults_fallback; [done|].
    by apply primary_entries_none. }
  split; [|split; [|split; [|split; [|split]]]].
  - intros m Hm.
    destruct (primary_entries_some 10 txt m ltac:(lia) Hm) as (e & l10 & He & H10).
    destruct (primary_entries_some 12 txt m ltac:(lia) Hm) as (e' & l12 & He' & H12).
    assert (e' = e) as -> by congruence.
    exists e, l10, l12. split; [done|]. split.
    { unfold entry_of in He. destruct (Number _); try discriminate. by injection He as <-. }
    unfold FetchData.extractResults, RTW2.extractResults.
    rewrite !extractResults_primary by (lia || congruence). done.
  - intros Hnone m2 Hm2.
    pose proof Hm2 as Hs. apply match_shorthand_sound in Hs
      as (pre & a & sp & dash & sp2 & b & _ & Ha & _ & _ & _ & Hb & G1 & G2).
    destruct (Number_pct_literal a Ha) as (qa & Hqa & _).
    destruct (Number_pct_literal b Hb) as (qb & Hqb & _).
    exists a, b, qa, qb. repeat (split; [done|]).
    unfold FetchData.extractResults, RTW2.extractResults.
    rewrite !Hfb by (lia || done). rewrite Hm2, G1, G2. cbn [of_group]. by rewrite Hqa, Hqb.
  - intros Hnone Hnone2. unfold FetchData.extractResults, RTW2.extractResults.
    rewrite !Hfb by (lia || done). by rewrite Hnone2.
  - apply no_percent_no_match.
  - intros pre post Htxt Hpct [Hdig Hlast] Hpost.
    pose proof (no_percent_no_match txt Hpct) as Hnone.
    destruct (exec_shorthand_token None pre post Hdig) as (m2 & Hm2 & G1 & G2); [|done|].
    { simpl. by destruct (last pre). }
    change (js "47-43") with [52; 55; 45; 52; 51] in Htxt. rewrite <- Htxt in Hm2.
    unfold FetchData.extractResults, RTW2.extractResults.
    rewrite !Hfb by (lia || done). unfold re_match. rewrite Hm2, G1, G2.
    split; vm_compute; reflexivity.
  - split; vm_compute; reflexivity.
Qed.

(** The token "47-43" inside a longer text. *)
Example shorthand_inside_text :
  FetchData.extractResults (js "Margin: 47-43 among likely voters") =
    [ResultEntry (js "A") 47; ResultEntry (js "B") 43].
Proof. vm_compute; reflexivity. Qed.

(** C4, counterexample: a text with no percent sign that contains "47-43"
    after a date gives the first two numbers of the date. *)
Lemma shorthand_reads_first_pair :
  includes (js "2024-11-05 poll: 47-43") (js "%") = false /\
  includes (js "2024-11-05 poll: 47-43") (js "47-43") = true /\
  FetchData.extractResults (js "2024-11-05 poll: 47-43") =
    [ResultEntry (js "A") 11; ResultEntry (js "B") 5] /\
  RTW2.extractResults (js "2024-11-05 poll: 47-43") =
    [ResultEntry (js "A") 11; ResultEntry (js "B") 5].
Proof. repeat split; vm_compute; reflexivity. Qed.

(** ** Letter case and whitespace in the patterns *)

Lemma cs_test_icase_char (c a : N) :
  cs_test true (CharSet false [(c, c)]) a = true -> ascii_lower a = ascii_lower c.
Proof.
  unfold cs_test, in_ranges. cbn [cs_neg cs_ranges existsb fst snd xorb].
  rewrite !orb_false_r. unfold ascii_upper, ascii_lower. intros H.
  assert (Hcases : a = c \/
            (97 <= a <= 122 /\ c = a - 32) \/ (65 <= a <= 90 /\ c = a + 32)).
  { destruct ((97 <=? a) && (a <=? 122)) eqn:E1; destruct ((65 <=? a) && (a <=? 90)) eqn:E2;
      repeat match goal with
      | E : _ && _ = true |- _ => apply andb_prop in E as [? ?]
      | E : (_ <=? _) = true |- _ => apply N.leb_le in E
      end;
      repeat match type of H with
      | _ || _ = true => apply orb_prop in H as [H|H]
      end;
      apply andb_prop in H as [Hlo Hhi]; apply N.leb_le in Hlo, Hhi; lia. }
  clear H.
  assert (Hif : forall x lo hi, (lo <=? x) && (x <=? hi) = true <-> lo <= x <= hi).
  { intros. rewrite andb_true_iff, !N.leb_le. tauto. }
  destruct ((65 <=? a) && (a <=? 90)) eqn:Ea; destruct ((65 <=? c) && (c <=? 90)) eqn:Ec;
    try apply Hif in Ea; try apply Hif in Ec;
    try (apply not_true_iff_false in Ea; rewrite Hif in Ea);
    try (apply not_true_iff_false in Ec; rewrite Hif in Ec); lia.
Qed.

Lemma lang_lit_icase (s w : jsstring) :
  lang true (lit s) w -> ascii_toLowerCase w = ascii_toLowerCase s.
Proof.
  revert w. induction s as [|c s IH]; intros w H.
  - simpl in H. by subst.
  - destruct s as [|c' s].
    + destruct H as (a & -> & Ha). simpl. f_equal. by apply cs_test_icase_char.
    + destruct H as (u & v & -> & (a & -> & Ha) & Hv).
      change (ascii_toLowerCase ([a] ++ v)) with (ascii_lower a :: ascii_toLowerCase v).
      rewrite (IH v Hv). change (ascii_toLowerCase (c :: c' :: s))
        with (ascii_lower c :: ascii_toLowerCase (c' :: s)).
      f_equal. by apply cs_test_icase_char.
Qed.




Lemma first_match_some (ic : bool) (r : regex) (lines : list jsstring) (m : match_result) :
  first_match ic r lines = Some m ->
  exists l1 line l2, lines = l1 ++ line :: l2 /\
    Forall (fun l => re_match ic r l = None) l1 /\ re_match ic r line = Some m.
Proof.
  induction lines as [|l lines IH]; [done|]. cbn [first_match].
  destruct (re_match ic r l) as [m'|] eqn:Hl.
  - intros [= <-]. exists [], l, lines. by repeat split.
  - intros H. destruct (IH H) as (l1 & line & l2 & -> & Hall & Hm).
    exists (l :: l1), line, l2. repeat split; [|done]. by constructor.
Qed.

(** ** The deduplicator *)

Lemma str_or_empty_id (s : jsstring) : str_or_empty s = s.
Proof. by destruct s. Qed.

Lemma dedupe_loop_out (polls : list poll) (seen : gset jsstring) (out : list poll) :
  dedupe_loop polls seen out = out ++ dedupe_loop polls seen [].
Proof.
  revert seen out. induction polls as [|p polls IH]; intros seen out; simpl.
  - by rewrite app_nil_r.
  - case_bool_decide; [apply IH|].
    rewrite (IH _ (out ++ [p])), (IH _ [p]). by rewrite <- app_assoc.
Qed.

(** The loop run on [l1 ++ l2] is the loop on [l1], then the loop on [l2]
    with the keys of [l1] added to the seen set. *)
Lemma dedupe_loop_app (l1 l2 : list poll) (seen : gset jsstring) :
  dedupe_loop (l1 ++ l2) seen [] =
  dedupe_loop l1 seen [] ++ dedupe_loop l2 (list_to_set (dedupe_key <$> l1) ∪ seen) [].
Proof.
  revert seen. induction l1 as [|p l1 IH]; intros seen; simpl.
  - f_equal. set_solver.
  - case_bool_decide as Hin.
    + rewrite IH. do 2 f_equal. set_solver.
    + rewrite (dedupe_loop_out _ _ [p]), (dedupe_loop_out l1 _ [p]), IH.
      rewrite <- app_assoc. do 3 f_equal. set_solver.
Qed.

Lemma dedupe_loop_fresh (l : list poll) (seen : gset jsstring) :
  Forall (fun q => dedupe_key q ∉ seen) (dedupe_loop l seen []).
Proof.
  revert seen. induction l as [|p l IH]; intros seen; simpl; [constructor|].
  case_bool_decide as Hin; [apply IH|].
  rewrite dedupe_loop_out. simpl. constructor; [done|].
  eapply Forall_impl; [apply IH|]. simpl. intros q Hq. set_solver.
Qed.

Lemma dedupe_loop_sublist (l : list poll) (seen : gset jsstring) :
  dedupe_loop l seen [] `sublist_of` l.
Proof.
  revert seen. induction l as [|p l IH]; intros seen; simpl; [constructor|].
  case_bool_decide.
  - apply sublist_cons, IH.
  - rewrite dedupe_loop_out. simpl. apply sublist_skip, IH.
Qed.

Lemma dedupe_loop_NoDup (l : list poll) (seen : gset jsstring) :
  NoDup (dedupe_key <$> dedupe_loop l seen []).
Proof.
  revert seen. induction l as [|p l IH]; intros seen; simpl; [constructor|].
  case_bool_decide as Hin; [apply IH|].
  rewrite dedupe_loop_out. simpl. apply NoDup_cons. split; [|apply IH].
  intros Hk. apply list_elem_of_fmap in Hk as (q & Hq & Hin').
  pose proof (dedupe_loop_fresh l ({[dedupe_key p]} ∪ seen)) as Hf.
  rewrite Forall_forall in Hf. specialize (Hf q Hin'). set_solver.
Qed.

(** C7. The deduplicator keeps a record exactly when its fingerprint, the
    url, the first 160 code units of [results_text] and [date_text] joined
    by ["|"], has not occurred earlier in the input: the result is built
    record by record (third part), it is a sublist of the input, so the
    survivors keep their relative order, no fingerprint survives twice, and
    of the records that share a fingerprint, hence of those that agree on
    the three components, the first one met is the one kept. *)
Theorem dedupe_first_occurrence :
  (forall p : poll,
     dedupe_key p = url p ++ js "|" ++ take 160 (results_text p) ++ js "|" ++ date_text p) /\
  (forall p q : poll,
     url p = url q -> take 160 (results_text p) = take 160 (results_text q) ->
     date_text p = date_text q -> dedupe_key p = dedupe_key q) /\
  (forall (l : list poll) (p : poll),
     dedupe (l ++ [p]) =
     if bool_decide (dedupe_key p ∈ dedupe_key <$> l) then dedupe l else dedupe l ++ [p]) /\
  (forall l : list poll, dedupe l `sublist_of` l) /\
  (forall l : list poll, NoDup (dedupe_key <$> dedupe l)) /\
  (forall (l1 : list poll) (p : poll) (l2 : list poll),
     dedupe_key p ∉ dedupe_key <$> l1 ->
     exists rest, dedupe (l1 ++ p :: l2) = dedupe l1 ++ p :: rest /\
                  Forall (fun q => dedupe_key q <> dedupe_key p) rest) /\
  (forall (l1 : list poll) (q : poll) (l2 : list poll),
     dedupe_key q ∈ dedupe_key <$> l1 ->
     dedupe (l1 ++ q :: l2) = dedupe (l1 ++ l2)).
Proof.
  assert (Hkey : forall p : poll,
     dedupe_key p = url p ++ js "|" ++ take 160 (results_text p) ++ js "|" ++ date_text p).
  { intros p. unfold dedupe_key, slice0. by rewrite !str_or_empty_id. }
  split; [exact Hkey|]. split.
  { intros p q Hu Ht Hd. rewrite !Hkey. by rewrite Hu, Ht, Hd. }
  split.
  { intros l p. unfold dedupe. rewrite dedupe_loop_app. simpl.
    rewrite union_empty_r_L.
    case_bool_decide as Hin; case_bool_decide as Hin'; try done.
    - by rewrite app_nil_r.
    - exfalso. apply Hin'. by apply elem_of_list_to_set in Hin.
    - exfalso. apply Hin. by apply elem_of_list_to_set. }
  split; [intros l; apply dedupe_loop_sublist|].
  split; [intros l; apply dedupe_loop_NoDup|].
  split.
  - intros l1 p l2 Hfresh. unfold dedupe. rewrite dedupe_loop_app. simpl.
    rewrite union_empty_r_L. case_bool_decide as Hin.
    { exfalso. apply Hfresh. by apply elem_of_list_to_set in Hin. }
    rewrite (dedupe_loop_out l2 _ [p]). simpl. eexists. split; [reflexivity|].
    eapply Forall_impl; [apply dedupe_loop_fresh|]. simpl. intros q Hq Heq.
    apply Hq. rewrite Heq. set_solver.
  - intros l1 q l2 Hin. unfold dedupe. rewrite !dedupe_loop_app. simpl.
    rewrite union_empty_r_L. case_bool_decide as Hin'; [done|].
    exfalso. apply Hin'. by apply elem_of_list_to_set.
Qed.

(** ** Category classification *)

Lemma startsWith_map (f : N -> N) (s p : jsstring) :
  startsWith s p = true -> startsWith (List.map f s) (List.map f p) = true.
Proof.
  revert s. induction p as [|a p IH]; intros s; [by destruct s|].
  destruct s as [|b s]; [done|]. cbn [startsWith List.map]. intros H.
  apply andb_prop in H as [H1 H2]. apply N.eqb_eq in H1 as ->.
  by rewrite N.eqb_refl, IH.
Qed.

Lemma includes_map (f : N -> N) (s p : jsstring) :
  includes s p = true -> includes (List.map f s) (List.map f p) = true.
Proof.
  induction s as [|b s IH]; cbn [includes List.map]; intros H.
  - rewrite orb_false_r in H |- *. exact (startsWith_map f [] p H).
  - apply orb_prop in H as [H|H].
    + apply (startsWith_map f) in H. cbn [List.map] in H. by rewrite H.
    + rewrite IH by done. apply orb_true_r.
Qed.

(** C2. [inferCategory] is the first-match-wins reading of the ordered rule
    list on the lowered text; a text that contains both "generic ballot"
    and "president" is classified [generic_ballot]; a text on which no
    rule holds is [other]; the result is one of the ten category names.
    With the Basic Latin case mapping, a text that contains the two
    keywords as they stand is classified [generic_ballot]. *)
Theorem inferCategory_first_match (toLowerCase : jsstring -> jsstring) (txt : jsstring) :
  inferCategory toLowerCase txt = first_rule category_rules (toLowerCase txt) /\
  List.map snd category_rules =
    List.map js ["generic_ballot"; "approval"; "senate"; "governor"; "house"; "dem_primary";
                 "gop_primary"; "pres_general"; "president"]%string /\
  (includes (toLowerCase txt) (js "generic ballot") = true ->
   includes (toLowerCase txt) (js "president") = true ->
   inferCategory toLowerCase txt = js "generic_ballot") /\
  (Forall (fun rule => fst rule (toLowerCase txt) = false) category_rules ->
   inferCategory toLowerCase txt = js "other") /\
  In (inferCategory toLowerCase txt) category_values /\
  (includes txt (js "generic ballot") = true ->
   includes txt (js "president") = true ->
   inferCategory ascii_toLowerCase txt = js "generic_ballot").
Proof.
  split; [reflexivity|]. split; [reflexivity|]. split; [|split; [|split]].
  - intros Hg _. unfold inferCategory. by rewrite Hg.
  - intros Hall. unfold category_rules in Hall.
    repeat match goal with
    | H : Forall _ (_ :: _) |- _ => apply Forall_cons in H as [? H]
    end.
    simpl in *. unfold inferCategory.
    repeat match goal with H : _ = false |- _ => rewrite H; clear H end.
    reflexivity.
  - unfold inferCategory, category_values.
    repeat match goal with
    | |- context [if ?b then _ else _] => destruct b
    end; simpl; tauto.
  - intros Hg _. unfold inferCategory.
    apply (includes_map ascii_lower) in Hg. change (List.map ascii_lower txt)
      with (ascii_toLowerCase txt) in Hg.
    change (List.map ascii_lower (js "generic ballot")) with (js "generic ballot") in Hg.
    by rewrite Hg.
Qed.

(** ** Block assembly *)

Lemma length_eqb_0 {A : Type} (l : list A) : (length l =? 0)%nat = true <-> l = [].
Proof. destruct l; simpl; split; congruence. Qed.

Lemma length_eqb_0_false {A : Type} (l : list A) : (length l =? 0)%nat = false <-> l <> [].
Proof. destruct l; simpl; split; congruence. Qed.

Section RTW2_assembly.
Variable toLowerCase : jsstring -> jsstring.


Lemma anchors_loop_inv (P : poll -> Prop) (d : document) (MAX_POLLS : nat)
    (anchors : list elem) (seenEl : gset elem) (blocks : list poll) :
  (forall p, from_anchor toLowerCase d p -> P p) ->
  Forall (fun a => In a (doc_anchors d)) anchors ->
  Forall P blocks ->
  Forall P (RTW2.anchors_loop toLowerCase d MAX_POLLS anchors seenEl blocks).
Proof.
  intros HP. revert seenEl blocks.
  induction anchors as [|a anchors IH]; intros seenEl blocks Ha Hb;
    cbn [RTW2.anchors_loop]; [done|].
  apply Forall_cons in Ha as [Ha Has].
  destruct (walk_up d _ 10 (Some a)) as [chosen|] eqn:Hw; [|by apply IH].
  case_bool_decide; [by apply IH|].
  destruct (length _ =? 0)%nat eqn:Hlen; [by apply IH|].
  apply length_eqb_0_false in Hlen.
  assert (Forall P (blocks ++
    [RTW2.make_poll toLowerCase
       (RTW2.bestUrl_anchor toLowerCase (href d a) (RTW2.links_of toLowerCase d chosen))
       (or_empty (innerText d chosen))
       (RTW2.extractResults (or_empty (innerText d chosen)))])) as Hb1.
  { apply Forall_app. split; [done|]. constructor; [|constructor].
    apply HP. exists a, chosen. eauto. }
  destruct (_ <=? _)%nat; [done|by apply IH].
Qed.

Lemma containers_loop_inv (P : poll -> Prop) (d : document) (MAX_POLLS : nat)
    (elems : list elem) (blocks : list poll) :
  (forall p, from_container toLowerCase d p -> P p) ->
  Forall (fun el => In el (doc_containers d)) elems ->
  Forall P blocks ->
  Forall P (RTW2.containers_loop toLowerCase d MAX_POLLS elems blocks).
Proof.
  intros HP. revert blocks.
  induction elems as [|el elems IH]; intros blocks He Hb;
    cbn [RTW2.containers_loop]; [done|].
  apply Forall_cons in He as [He Hes].
  destruct (RTW2.isLikelyPollBlock _ _) eqn:Hl; cbn [negb]; [|by apply IH].
  destruct (length _ =? 0)%nat eqn:Hlen; [by apply IH|].
  apply length_eqb_0_false in Hlen.
  assert (Forall P (blocks ++
    [RTW2.make_poll toLowerCase
       (RTW2.bestUrl_container toLowerCase (RTW2.links_of toLowerCase d el))
       (trim (or_empty (innerText d el)))
       (RTW2.extractResults (trim (or_empty (innerText d el))))])) as Hb1.
  { apply Forall_app. split; [done|]. constructor; [|constructor].
    apply HP. exists el. eauto. }
  destruct (_ <=? _)%nat; [done|by apply IH].
Qed.

Lemma Forall_filter_In {A : Type} (f : A -> bool) (l : list A) :
  Forall (fun a => In a l) (List.filter f l).
Proof. apply List.Forall_forall. intros a Ha. by apply filter_In in Ha as [? _]. Qed.

(** Every record returned for a frame was assembled from an anchor's
    block or from a container. *)
Lemma in_frame_assembled (MAX_POLLS : nat) (d : document) :
  Forall (fun p => from_anchor toLowerCase d p \/ from_container toLowerCase d p)
         (RTW2.in_frame toLowerCase MAX_POLLS d).
Proof.
  unfold RTW2.in_frame.
  set (anchors := List.filter _ (List.filter _ _)).
  assert (Forall (fun p => from_anchor toLowerCase d p \/ from_container toLowerCase d p)
            (RTW2.anchors_loop toLowerCase d MAX_POLLS anchors ∅ [])) as Hanch.
  { apply anchors_loop_inv; [tauto| |constructor].
    apply List.Forall_forall. intros a Ha. subst anchors.
    apply filter_In in Ha as [Ha _]. by apply filter_In in Ha as [? _]. }
  destruct (_ <? _)%nat; [|done].
  apply containers_loop_inv; [tauto| |done].
  apply List.Forall_forall. intros el Hel.
  apply list_elem_of_In, elem_of_take in Hel as (i & Hel & _).
  apply list_elem_of_lookup_2, list_elem_of_In in Hel.
  by apply filter_In in Hel as [? _].
Qed.

Lemma frames_loop_concat (MAX_POLLS : nat) (frames : list frame) (polls : list poll) :
  RTW2.frames_loop toLowerCase MAX_POLLS frames polls =
  polls ++ concat (List.map (RTW2.in_frame toLowerCase MAX_POLLS) (live_documents frames)).
Proof.
  revert polls. induction frames as [|f frames IH]; intros polls;
    cbn [RTW2.frames_loop].
  - by rewrite app_nil_r.
  - rewrite IH.
    set (part := RTW2.extractPollsInFrame toLowerCase MAX_POLLS f).
    replace (if negb (length part =? 0)%nat then polls ++ part else polls)
      with (polls ++ part) by (destruct part; simpl; by rewrite ?app_nil_r).
    rewrite <- app_assoc. f_equal. subst part. by destruct f.
Qed.
End RTW2_assembly.

Lemma live_documents_app (fs1 fs2 : list frame) :
  live_documents (fs1 ++ fs2) = live_documents fs1 ++ live_documents fs2.
Proof. unfold live_documents. apply omap_app. Qed.

(** C10. A frame whose evaluation throws contributes the empty list, and
    the loop goes on over the other frames: the polls gathered are the
    concatenation of what the non-failing frames return, and a failing
    frame anywhere in the list changes nothing. *)
Theorem failing_frame_is_skipped (toLowerCase : jsstring -> jsstring) (MAX_POLLS : nat) :
  RTW2.extractPollsInFrame toLowerCase MAX_POLLS FailingFrame = [] /\
  (forall d : document,
     RTW2.extractPollsInFrame toLowerCase MAX_POLLS (LiveFrame d) =
     RTW2.in_frame toLowerCase MAX_POLLS d) /\
  (forall frames : list frame,
     RTW2.frames_loop toLowerCase MAX_POLLS frames [] =
     concat (List.map (RTW2.in_frame toLowerCase MAX_POLLS) (live_documents frames))) /\
  (forall fs1 fs2 : list frame,
     RTW2.frames_loop toLowerCase MAX_POLLS (fs1 ++ FailingFrame :: fs2) [] =
     RTW2.frames_loop toLowerCase MAX_POLLS (fs1 ++ fs2) []).
Proof.
  split; [reflexivity|]. split; [reflexivity|]. split.
  - intros frames. by rewrite frames_loop_concat.
  - intros fs1 fs2. rewrite !frames_loop_concat. simpl.
    by rewrite !live_documents_app.
Qed.

Section FetchData_assembly.
Variable toLowerCase : jsstring -> jsstring.

Lemma blocks_loop_inv (P : poll -> Prop) (d : document) (MAX_POLLS : nat)
    (anchors : list elem) (blocks : list poll) :
  (forall p, from_external_anchor toLowerCase d p -> P p) ->
  Forall (fun a => In a (doc_anchors d) /\
                   FetchData.isExternalPollUrl toLowerCase (getAttribute_href d a) = true) anchors ->
  Forall P blocks ->
  Forall P (FetchData.blocks_loop toLowerCase d MAX_POLLS anchors blocks).
Proof.
  intros HP. revert blocks.
  induction anchors as [|a anchors IH]; intros blocks Ha Hb;
    cbn [FetchData.blocks_loop]; [done|].
  apply Forall_cons in Ha as [[Ha Hext] Has].
  destruct (walk_up d _ 8 (Some a)) as [chosen|] eqn:Hw; [|by apply IH].
  destruct (_ && _) eqn:Hskip; [by apply IH|].
  match goal with |- context [blocks ++ [?p]] => assert (Forall P (blocks ++ [p])) as Hb1 end.
  { apply Forall_app. split; [done|]. constructor; [|constructor].
    apply HP. exists a, chosen. repeat split; try done.
    apply andb_false_iff in Hskip as [Hlen|Hpct].
    - left. by apply length_eqb_0_false.
    - right. by apply negb_false_iff. }
  destruct (_ <=? _)%nat; [done|by apply IH].
Qed.

Lemma page_evaluate_assembled (d : document) (MAX_POLLS : nat) :
  Forall (from_external_anchor toLowerCase d) (FetchData.page_evaluate toLowerCase d MAX_POLLS).
Proof.
  apply blocks_loop_inv; [done| |constructor].
  apply List.Forall_forall. intros a Ha. by apply filter_In in Ha.
Qed.
End FetchData_assembly.

Lemma In_take {A : Type} (n : nat) (l : list A) (x : A) : In x (take n l) -> In x l.
Proof.
  intros H. apply list_elem_of_In, elem_of_take in H as (i & H & _).
  by apply list_elem_of_lookup_2, list_elem_of_In in H.
Qed.

Lemma In_dedupe (l : list poll) (p : poll) : In p (dedupe l) -> In p l.
Proof.
  intros H. apply list_elem_of_In. apply list_elem_of_In in H.
  eapply elem_of_sublist; [done|apply dedupe_loop_sublist].
Qed.

Lemma In_frames_loop (toLowerCase : jsstring -> jsstring) (MAX_POLLS : nat)
    (frames : list frame) (p : poll) :
  In p (RTW2.frames_loop toLowerCase MAX_POLLS frames []) ->
  exists d, In (LiveFrame d) frames /\ In p (RTW2.in_frame toLowerCase MAX_POLLS d).
Proof.
  rewrite frames_loop_concat. simpl. intros H.
  apply in_concat in H as (part & Hpart & Hp).
  apply in_map_iff in Hpart as (d & <- & Hd).
  exists d. split; [|done].
  apply list_elem_of_In in Hd. unfold live_documents in Hd.
  apply list_elem_of_omap in Hd as (f & Hf & Hfd).
  destruct f; [|done]. injection Hfd as ->. by apply list_elem_of_In.
Qed.

Lemma re_test_chr_In (c : N) (s : jsstring) : In c s -> re_test false (chr c) s = true.
Proof.
  unfold re_test, re_match. generalize (@None N) as prev.
  induction s as [|a s IH]; intros prev Hin; [done|].
  cbn [exec_from]. unfold match_here, chr. cbn [rmatch st_rest st_caps].
  destruct (cs_test false (CharSet false [(c, c)]) a) eqn:Ha; [done|].
  destruct Hin as [->|Hin].
  - unfold cs_test, in_ranges in Ha. simpl in Ha. by rewrite N.leb_refl in Ha.
  - specialize (IH (Some a) Hin). by destruct (exec_from _ _ _ s).
Qed.

Lemma includes_single (c : N) (s : jsstring) : includes s [c] = true -> In c s.
Proof.
  induction s as [|a s IH]; [done|]. cbn [includes startsWith]. intros H.
  apply orb_prop in H as [H|H].
  - apply andb_prop in H as [H _]. apply N.eqb_eq in H. by left.
  - right. by apply IH.
Qed.

Lemma In_trimStart (c : N) (s : jsstring) : In c (trimStart s) -> In c s.
Proof.
  induction s as [|a s IH]; [done|]. simpl. destruct (is_ws a); [|done]. intros H. right. auto.
Qed.

Lemma In_trim (c : N) (s : jsstring) : In c (trim s) -> In c s.
Proof.
  unfold trim, trimEnd. intros H. apply In_trimStart.
  apply in_rev in H. apply In_trimStart in H. by apply in_rev in H.
Qed.

Lemma walk_up_ok (d : document) (ok : jsstring -> bool) (n : nat) (el : option elem)
    (chosen : elem) :
  walk_up d ok n el = Some chosen -> ok (trim (or_empty (innerText d chosen))) = true.
Proof.
  revert el. induction n as [|n IH]; intros el; [by destruct el|].
  destruct el as [e|]; [|done]. cbn [walk_up].
  destruct (ok (trim (or_empty (innerText d e)))) eqn:He; [|apply IH].
  by intros [= <-].
Qed.

(** The block chosen by the walk of [fetch-data.js] always has a percent
    sign, so the test of line 252 never skips it. *)
Lemma chosen_block_has_percent (d : document) (n : nat) (el : option elem) (chosen : elem) :
  walk_up d FetchData.block_ok n el = Some chosen ->
  re_test false (chr 37) (or_empty (innerText d chosen)) = true.
Proof.
  intros H. apply walk_up_ok in H. unfold FetchData.block_ok in H.
  apply andb_prop in H as [H _]. apply andb_prop in H as [H _].
  apply re_test_chr_In, In_trim. by apply includes_single.
Qed.

(** C1 (amended). In [fetch-data_RTW2.js] a block whose extracted results
    are empty is discarded: every record returned for a frame, every
    record gathered over the frames and every record of the output has a
    non-empty results sequence.  In [fetch-data.js] a block with empty
    results is discarded only when its text has no percent sign: every
    record returned has results or a block text with a percent sign; as
    the walk only chooses blocks with a percent sign, no chosen block is
    skipped there. *)
Theorem empty_results_discarded (toLowerCase : jsstring -> jsstring) (MAX_POLLS : nat) :
  (forall (d : document) (p : poll),
     In p (RTW2.in_frame toLowerCase MAX_POLLS d) -> results p <> []) /\
  (forall (frames : list frame) (p : poll),
     In p (RTW2.out_polls toLowerCase MAX_POLLS frames) -> results p <> []) /\
  (forall (frames : list frame) (polls : list poll) (p : poll),
     RTW2.run toLowerCase MAX_POLLS frames = Some polls -> In p polls -> results p <> []) /\
  (forall (d : document) (p : poll),
     In p (FetchData.out_polls toLowerCase d MAX_POLLS) ->
     exists a chosen,
       In a (doc_anchors d) /\
       walk_up d FetchData.block_ok 8 (Some a) = Some chosen /\
       results p = FetchData.extractResults (or_empty (innerText d chosen)) /\
       (results p <> [] \/ re_test false (chr 37) (or_empty (innerText d chosen)) = true)) /\
  (forall (d : document) (a chosen : elem),
     walk_up d FetchData.block_ok 8 (Some a) = Some chosen ->
     (length (FetchData.extractResults (or_empty (innerText d chosen))) =? 0)%nat
     && negb (re_test false (chr 37) (or_empty (innerText d chosen))) = false).
Proof.
  assert (Hframe : forall (d : document) (p : poll),
     In p (RTW2.in_frame toLowerCase MAX_POLLS d) -> results p <> []).
  { intros d p Hp.
    pose proof (in_frame_assembled toLowerCase MAX_POLLS d) as Hall.
    rewrite List.Forall_forall in Hall.
    destruct (Hall p Hp) as [(a & chosen & _ & _ & Hne & ->)|(el & _ & _ & Hne & ->)];
      exact Hne. }
  assert (Hout : forall (frames : list frame) (p : poll),
     In p (RTW2.out_polls toLowerCase MAX_POLLS frames) -> results p <> []).
  { intros frames p Hp. unfold RTW2.out_polls in Hp.
    apply In_take, In_dedupe, In_frames_loop in Hp as (d & _ & Hp). eauto. }
  split; [exact Hframe|]. split; [exact Hout|]. split; [|split].
  - intros frames polls p Hrun Hp. unfold RTW2.run in Hrun.
    destruct (_ <? _)%nat; [done|]. injection Hrun as <-. eauto.
  - intros d p Hp. unfold FetchData.out_polls in Hp.
    apply In_take, In_dedupe in Hp.
    pose proof (page_evaluate_assembled toLowerCase d MAX_POLLS) as Hall.
    rewrite List.Forall_forall in Hall.
    destruct (Hall p Hp) as (a & chosen & Ha & _ & Hw & Hkeep & _ & _ & Hres).
    exists a, chosen. rewrite Hres. eauto.
  - intros d a chosen Hw. rewrite (chosen_block_has_percent _ _ _ _ Hw).
    apply andb_false_r.
Qed.

(** C1, counterexample: [fetch-data.js] on a page of ten blocks whose text
    has a percent sign but no result writes ten records, each with an
    empty results sequence. *)
Lemma results_empty_fetch_data :
  exists polls : list poll,
    FetchData.run ascii_toLowerCase (polls_page 10) 600 = Some polls /\
    length polls = 10%nat /\
    Forall (fun p => results p = []) polls.
Proof.
  eexists. split; [vm_compute; reflexivity|]. split; [reflexivity|].
  repeat constructor.
Qed.

Lemma startsWith_nil_false (p : jsstring) : p <> [] -> startsWith [] p = false.
Proof. by destruct p. Qed.




(** C5. Every entry of the results sequence, and so every entry of every
    record either file returns, has a finite number between 0 and 100; the
    number of every match of the primary pattern converts to a finite
    value, and a match whose number were not finite would leave the
    sequence as it was. *)
Theorem pct_between_0_and_100 :
  (forall (txt : jsstring) (e : result_entry),
     In e (FetchData.extractResults txt) -> (0 <= pct e)%Q /\ (pct e <= 100)%Q) /\
  (forall (txt : jsstring) (e : result_entry),
     In e (RTW2.extractResults txt) -> (0 <= pct e)%Q /\ (pct e <= 100)%Q) /\
  (forall (prev : option N) (rest : jsstring) (m : match_result),
     exec_from false re_result prev rest = Some m ->
     isFinite (Number (of_group (mr_group m 2))) = true) /\
  (forall (txt : jsstring) (m2 : match_result),
     re_match false re_shorthand txt = Some m2 ->
     isFinite (Number (of_group (mr_group m2 1))) = true /\
     isFinite (Number (of_group (mr_group m2 2))) = true) /\
  (forall (cap fuel : nat) (prev : option N) (rest : jsstring) (out : list result_entry)
          (m : match_result),
     exec_from false re_result prev rest = Some m ->
     isFinite (Number (of_group (mr_group m 2))) = false ->
     results_loop cap (S fuel) prev rest out =
     if (cap <=? length out)%nat then out
     else results_loop cap fuel (st_prev (mr_end m)) (st_rest (mr_end m)) out) /\
  (forall (toLowerCase : jsstring -> jsstring) (MAX_POLLS : nat) (d : document)
          (p : poll) (e : result_entry),
     In p (RTW2.in_frame toLowerCase MAX_POLLS d) -> In e (results p) ->
     (0 <= pct e)%Q /\ (pct e <= 100)%Q) /\
  (forall (toLowerCase : jsstring -> jsstring) (MAX_POLLS : nat) (d : document)
          (p : poll) (e : result_entry),
     In p (FetchData.page_evaluate toLowerCase d MAX_POLLS) -> In e (results p) ->
     (0 <= pct e)%Q /\ (pct e <= 100)%Q).
Proof.
  assert (H10 : forall (txt : jsstring) (e : result_entry),
     In e (FetchData.extractResults txt) -> (0 <= pct e)%Q /\ (pct e <= 100)%Q).
  { intros txt e He. pose proof (extractResults_cap_bounds 10 txt ltac:(lia)) as H.
    rewrite List.Forall_forall in H. by apply H. }
  assert (H12 : forall (txt : jsstring) (e : result_entry),
     In e (RTW2.extractResults txt) -> (0 <= pct e)%Q /\ (pct e <= 100)%Q).
  { intros txt e He. pose proof (extractResults_cap_bounds 12 txt ltac:(lia)) as H.
    rewrite List.Forall_forall in H. by apply H. }
  split; [exact H10|]. split; [exact H12|].
  split; [|split; [|split; [|split]]].
  - intros prev rest m Hm. destruct (entry_of_match _ _ _ Hm) as (e & He & _).
    unfold entry_of in He. by destruct (Number _).
  - intros txt m2 Hm. destruct (shorthand_entries _ _ Hm) as (qa & qb & -> & -> & _). done.
  - intros cap fuel prev rest out m Hm Hfin. cbn [results_loop]. rewrite Hm.
    by destruct (Number _).
  - intros toLowerCase MAX_POLLS d p e Hp He.
    pose proof (in_frame_assembled toLowerCase MAX_POLLS d) as Hall.
    rewrite List.Forall_forall in Hall.
    destruct (Hall p Hp) as [(a & chosen & _ & _ & _ & ->)|(el & _ & _ & _ & ->)];
      simpl in He; by apply H12 in He.
  - intros toLowerCase MAX_POLLS d p e Hp He.
    pose proof (page_evaluate_assembled toLowerCase d MAX_POLLS) as Hall.
    rewrite List.Forall_forall in Hall.
    destruct (Hall p Hp) as (a & chosen & _ & _ & _ & _ & _ & _ & Hres).
    rewrite Hres in He. by apply H10 in He.
Qed.

(** ** More on the text normalizer *)

Lemma visible_app (u v : jsstring) : visible (u ++ v) = visible u ++ visible v.
Proof. apply List.filter_app. Qed.

Lemma visible_rev (s : jsstring) : visible (rev s) = rev (visible s).
Proof.
  induction s as [|c s IH]; [reflexivity|]. simpl rev. rewrite visible_app, IH.
  unfold visible at 2 3. simpl. destruct (is_ws c); simpl; [by rewrite app_nil_r|reflexivity].
Qed.

Lemma visible_collapse (b : bool) (s : jsstring) : visible (collapse b s) = visible s.
Proof.
  revert b. induction s as [|c s IH]; intros b; [reflexivity|].
  unfold visible in *. simpl. destruct (is_ws c) eqn:Hc; simpl.
  - destruct b; [apply IH|]. simpl. change (is_ws 32) with true. simpl. apply IH.
  - rewrite Hc. simpl. f_equal. apply IH.
Qed.

Lemma visible_trimStart (s : jsstring) : visible (trimStart s) = visible s.
Proof.
  induction s as [|c s IH]; [reflexivity|]. unfold visible in *. simpl.
  destruct (is_ws c) eqn:Hc; simpl; [exact IH|]. by rewrite Hc.
Qed.

Lemma visible_trim (s : jsstring) : visible (trim s) = visible s.
Proof.
  unfold trim, trimEnd. rewrite visible_rev, visible_trimStart, visible_rev, rev_involutive.
  apply visible_trimStart.
Qed.

Lemma visible_nil_all_ws (s : jsstring) : visible s = [] <-> all_ws s.
Proof.
  unfold visible, all_ws. induction s as [|c s IH]; simpl.
  - split; [constructor|reflexivity].
  - destruct (is_ws c) eqn:Hc; simpl.
    + rewrite IH. split; [by constructor|by inversion 1].
    + split; [discriminate|]. inversion 1; congruence.
Qed.

Lemma visible_clean (v : jsval) : visible (clean v) = visible (or_empty v).
Proof.
  destruct v as [| |s]; try reflexivity.
  rewrite clean_collapse, visible_trim, visible_collapse. reflexivity.
Qed.

Lemma no_ws_start_visible (s : jsstring) :
  s <> [] -> starts_with_ws s = false -> visible s <> [].
Proof.
  destruct s as [|c s]; [done|]. simpl. intros _ Hc. unfold visible. simpl. by rewrite Hc.
Qed.

Lemma clean_starts (v : jsval) : starts_with_ws (clean v) = false.
Proof.
  destruct (clean_cases v) as [s ->]. unfold trim. apply trimEnd_starts, trimStart_starts.
Qed.

Lemma clean_nil_iff (v : jsval) : clean v = [] <-> all_ws (or_empty v).
Proof.
  rewrite <- visible_nil_all_ws, <- visible_clean. split; [by intros ->|].
  intros H. destruct (clean v) as [|c t] eqn:E; [reflexivity|].
  exfalso. apply (no_ws_start_visible (c :: t)); [done| |exact H].
  rewrite <- E. apply clean_starts.
Qed.

Lemma length_collapse (b : bool) (s : jsstring) : (length (collapse b s) <= length s)%nat.
Proof.
  revert b. induction s as [|c s IH]; intros b; simpl; [lia|].
  destruct (is_ws c); [destruct b|]; simpl;
    [pose proof (IH true)|pose proof (IH true)|pose proof (IH false)]; lia.
Qed.

Lemma length_trimEnd (s : jsstring) : (length (trimEnd s) <= length s)%nat.
Proof.
  unfold trimEnd. rewrite length_rev. pose proof (length_trimStart (rev s)) as H.
  by rewrite length_rev in H.
Qed.

Lemma trimStart_collapse (s : jsstring) :
  trimStart (collapse false s) = collapse false (trimStart s).
Proof.
  destruct s as [|c s]; [reflexivity|]. simpl. destruct (is_ws c) eqn:Hc.
  - simpl. change (is_ws 32) with true. cbn iota. rewrite collapse_true.
    apply trimStart_id.
    pose proof (trimStart_starts s) as H. destruct (trimStart s) as [|a t]; [reflexivity|].
    simpl in H |- *. by rewrite H.
  - simpl. by rewrite Hc.
Qed.

Lemma trimEnd_nonempty_visible (s : jsstring) : trimEnd s <> [] -> visible (trimEnd s) <> [].
Proof.
  intros H. pose proof (trimEnd_ends s) as He. unfold ends_with_ws in He.
  intros Hv. apply (no_ws_start_visible (rev (trimEnd s))).
  - intros E. apply H. apply (f_equal (@rev N)) in E. by rewrite rev_involutive in E.
  - exact He.
  - by rewrite visible_rev, Hv.
Qed.

Lemma trimEnd_collapse (b : bool) (s : jsstring) :
  trimEnd (collapse b s) = collapse b (trimEnd s).
Proof.
  revert b. induction s as [|c s IH]; intros b; [reflexivity|].
  rewrite (trimEnd_cons c s).
  assert (Hne : forall a t, trimEnd s = a :: t -> collapse true (a :: t) <> []).
  { intros a t E E'. apply (trimEnd_nonempty_visible s); [by rewrite E|].
    rewrite E, <- (visible_collapse true), E'. reflexivity. }
  destruct (is_ws c) eqn:Hc.
  - destruct b.
    + change (collapse true (c :: s)) with (if is_ws c then collapse true s else c :: collapse false s).
      rewrite Hc, IH. destruct (trimEnd s) as [|a t] eqn:E; [reflexivity|].
      change (collapse true (c :: a :: t))
        with (if is_ws c then collapse true (a :: t) else c :: collapse false (a :: t)).
      by rewrite Hc.
    + change (collapse false (c :: s)) with (if is_ws c then 32 :: collapse true s else c :: collapse false s).
      rewrite Hc, trimEnd_cons, IH. change (is_ws 32) with true.
      destruct (trimEnd s) as [|a t] eqn:E; [reflexivity|].
      change (collapse false (c :: a :: t))
        with (if is_ws c then 32 :: collapse true (a :: t) else c :: collapse false (a :: t)).
      rewrite Hc. specialize (Hne a t eq_refl).
      destruct (collapse true (a :: t)); [done|reflexivity].
  - assert (Hcons : forall b' l, collapse b' (c :: l) = c :: collapse false l).
    { intros b' l. simpl. by rewrite Hc. }
    rewrite Hcons, trimEnd_cons, IH.
    destruct (trimEnd s) as [|a t] eqn:E.
    + rewrite Hcons. simpl. by rewrite Hc.
    + rewrite Hcons. destruct (collapse false (a :: t)) eqn:E'; [|reflexivity].
      exfalso. simpl in E'. destruct (is_ws a); discriminate.
Qed.

Lemma trim_collapse (s : jsstring) : trim (collapse false s) = collapse false (trim s).
Proof. unfold trim. by rewrite trimStart_collapse, trimEnd_collapse. Qed.

Lemma clean_collapse_trim (s : jsstring) : clean (Str s) = collapse false (trim s).
Proof. by rewrite clean_collapse, trim_collapse. Qed.

Lemma length_clean_trim (s : jsstring) : (length (clean (Str s)) <= length (trim s))%nat.
Proof. rewrite clean_collapse_trim. apply length_collapse. Qed.

Lemma clean_clean (v : jsval) : clean (Str (clean v)) = clean v.
Proof.
  destruct (clean_cases v) as [s ->].
  assert (Hsp : spaced false (trim (collapse false s)) = true).
  { unfold trim. apply spaced_trimEnd. eapply spaced_trimStart. apply spaced_collapse. }
  rewrite clean_collapse.
  destruct (collapse_spaced (trim (collapse false s))) as [Hcs _].
  rewrite (Hcs Hsp).
  unfold trim at 1. rewrite trimStart_id by (unfold trim; apply trimEnd_starts, trimStart_starts).
  apply trimEnd_id. unfold trim. apply trimEnd_ends.
Qed.

Lemma In_visible (c : N) (s : jsstring) : In c (visible s) <-> In c s /\ is_ws c = false.
Proof. unfold visible. rewrite filter_In, negb_true_iff. tauto. Qed.

Lemma In_clean (c : N) (s : jsstring) : is_ws c = false -> In c s -> In c (clean (Str s)).
Proof.
  intros Hc Hin. apply (In_visible c (clean (Str s))). rewrite visible_clean.
  by apply In_visible.
Qed.

(** X1. The normalizer touches whitespace only: the code units that are
    not whitespace come out unchanged and in order, and the result is the
    empty string exactly when the input has none of them. *)
Theorem clean_keeps_visible_text (v : jsval) :
  visible (clean v) = visible (or_empty v) /\
  (clean v = [] <-> all_ws (or_empty v)).
Proof. split; [apply visible_clean|apply clean_nil_iff]. Qed.

(** X2. Trimming and collapsing commute: [clean] is the collapse of the
    trimmed text, it gives the same result on a text and on its trimmed
    form, and its result is never longer than the trimmed text. *)
Theorem clean_of_trimmed (s : jsstring) :
  clean (Str s) = collapse false (trim s) /\
  clean (Str (trim s)) = clean (Str s) /\
  (length (clean (Str s)) <= length (trim s))%nat.
Proof.
  pose proof (clean_collapse_trim s) as H.
  split; [exact H|]. split.
  - rewrite !clean_collapse, !trim_collapse. f_equal.
    unfold trim. rewrite (trimStart_id (trimEnd (trimStart s))).
    + apply trimEnd_id, trimEnd_ends.
    + apply trimEnd_starts, trimStart_starts.
  - rewrite H. apply length_collapse.
Qed.

(** ** More on the deduplicator *)

Lemma dedupe_loop_cons (p : poll) (l : list poll) (seen : gset jsstring) :
  dedupe_loop (p :: l) seen [] =
  if bool_decide (dedupe_key p ∈ seen) then dedupe_loop l seen []
  else p :: dedupe_loop l ({[dedupe_key p]} ∪ seen) [].
Proof.
  cbn [dedupe_loop]. case_bool_decide; [reflexivity|].
  by rewrite dedupe_loop_out.
Qed.

Lemma dedupe_loop_distinct (l : list poll) (seen : gset jsstring) :
  NoDup (dedupe_key <$> l) -> Forall (fun p => dedupe_key p ∉ seen) l ->
  dedupe_loop l seen [] = l.
Proof.
  revert seen. induction l as [|p l IH]; intros seen Hnd Hfresh; [reflexivity|].
  rewrite dedupe_loop_cons. rewrite fmap_cons in Hnd.
  apply NoDup_cons in Hnd as [Hp Hnd]. apply Forall_cons in Hfresh as [Hps Hfresh].
  rewrite bool_decide_eq_false_2 by done. f_equal. apply IH; [done|].
  apply Forall_forall. intros q Hq.
  rewrite Forall_forall in Hfresh. specialize (Hfresh q Hq).
  intros [Heq%elem_of_singleton|Hin]%elem_of_union; [|done].
  apply Hp. rewrite <- Heq. by apply list_elem_of_fmap_2.
Qed.

Lemma dedupe_loop_keys (l : list poll) (seen : gset jsstring) :
  list_to_set (dedupe_key <$> dedupe_loop l seen []) ∪ seen =@{gset jsstring}
  list_to_set (dedupe_key <$> l) ∪ seen.
Proof.
  revert seen. induction l as [|p l IH]; intros seen; [reflexivity|].
  rewrite dedupe_loop_cons. case_bool_decide as Hp.
  - rewrite IH, fmap_cons. cbn [list_to_set].
    apply set_eq. intros x. rewrite !elem_of_union, elem_of_singleton.
    split; [tauto|]. intros [[->| ?]| ?]; tauto.
  - rewrite !fmap_cons. cbn [list_to_set].
    specialize (IH ({[dedupe_key p]} ∪ seen)).
    rewrite (comm_L (∪) {[dedupe_key p]} (list_to_set (dedupe_key <$> dedupe_loop _ _ _))),
      (comm_L (∪) {[dedupe_key p]} (list_to_set (dedupe_key <$> l))), <- !(assoc_L (∪)).
    exact IH.
Qed.

(** X3. The deduplicator leaves a list unchanged exactly when the
    fingerprints of its records are pairwise distinct; so running it a
    second time changes nothing. *)
Theorem dedupe_fixed_points :
  (forall l : list poll, dedupe l = l <-> NoDup (dedupe_key <$> l)) /\
  (forall l : list poll, dedupe (dedupe l) = dedupe l).
Proof.
  assert (H : forall l : list poll, NoDup (dedupe_key <$> l) -> dedupe l = l).
  { intros l Hnd. apply dedupe_loop_distinct; [done|].
    apply Forall_forall. intros p _. set_solver. }
  split.
  - intros l. split; [|apply H]. intros <-. apply dedupe_loop_NoDup.
  - intros l. apply H, dedupe_loop_NoDup.
Qed.

(** X4. The deduplicator loses no fingerprint: the fingerprints of the
    survivors are those of the input, every input record has a survivor
    with its fingerprint, and the number of survivors is the number of
    distinct fingerprints. *)
Theorem dedupe_keeps_every_key (l : list poll) :
  list_to_set (dedupe_key <$> dedupe l) =@{gset jsstring} list_to_set (dedupe_key <$> l) /\
  (forall p, In p l -> exists q, In q (dedupe l) /\ dedupe_key q = dedupe_key p) /\
  length (dedupe l) = size (list_to_set (dedupe_key <$> l) : gset jsstring).
Proof.
  assert (Hk : list_to_set (dedupe_key <$> dedupe l) =@{gset jsstring}
               list_to_set (dedupe_key <$> l)).
  { pose proof (dedupe_loop_keys l ∅) as H. unfold dedupe. set_solver. }
  split; [exact Hk|]. split.
  - intros p Hp.
    assert (Hin : dedupe_key p ∈ (list_to_set (dedupe_key <$> dedupe l) : gset jsstring)).
    { rewrite Hk. apply elem_of_list_to_set, list_elem_of_fmap_2. by apply list_elem_of_In. }
    apply elem_of_list_to_set, list_elem_of_fmap in Hin as (q & Heq & Hq).
    exists q. split; [by apply list_elem_of_In|done].
  - rewrite <- Hk, size_list_to_set by apply dedupe_loop_NoDup.
    by rewrite length_fmap.
Qed.

(** ** The two link filters *)

Lemma startsWith_http_only (h : jsstring) :
  startsWith h (js "http") = true ->
  startsWith h (js "#") = false /\ startsWith h (js "mailto:") = false /\
  startsWith h (js "tel:") = false.
Proof.
  destruct h as [|c h]; [discriminate|].
  change (js "http") with [104; 116; 116; 112]. change (js "#") with [35].
  change (js "mailto:") with [109; 97; 105; 108; 116; 111; 58].
  change (js "tel:") with [116; 101; 108; 58].
  cbn [startsWith]. intros H. apply andb_prop in H as [H _]. apply N.eqb_eq in H as <-.
  repeat split; reflexivity.
Qed.

(** X5. The links [fetch-data.js] follows are exactly the links that
    [fetch-data_RTW2.js] does not count as noise and whose lowered href
    starts with [http] and is off the source site; in particular no link
    followed by the first file is noise for the second. *)
Theorem external_links_are_not_noise (toLowerCase : jsstring -> jsstring) (href : jsval) :
  FetchData.isExternalPollUrl toLowerCase href =
    negb (RTW2.isNoiseHref toLowerCase href) && external_lowered toLowerCase (or_empty href) /\
  (FetchData.isExternalPollUrl toLowerCase href = true ->
   RTW2.isNoiseHref toLowerCase href = false).
Proof.
  assert (H : FetchData.isExternalPollUrl toLowerCase href =
              negb (RTW2.isNoiseHref toLowerCase href)
              && external_lowered toLowerCase (or_empty href)).
  { destruct href as [| |[|c s]]; try reflexivity.
    unfold FetchData.isExternalPollUrl, RTW2.isNoiseHref, external_lowered. cbn [or_empty].
    set (h := toLowerCase (c :: s)).
    destruct (startsWith h (js "http")) eqn:Hh; cbn [negb andb].
    - destruct (startsWith_http_only h Hh) as (-> & -> & ->). cbn [orb].
      destruct (includes h (js "racetothewh.com")); cbn [negb andb];
        [by rewrite andb_false_r|].
      destruct (includes h (js "twitter.com") || includes h (js "x.com")); [reflexivity|].
      destruct (includes h (js "facebook.com")); [reflexivity|].
      destruct (includes h (js "instagram.com")); [reflexivity|].
      destruct (includes h (js "youtube.com")); [reflexivity|].
      destruct (includes h (js "tiktok.com")); reflexivity.
    - by rewrite andb_false_r. }
  split; [exact H|]. rewrite H. intros E. apply andb_prop in E as [E _].
  by apply negb_true_iff in E.
Qed.

(** ** Patterns that are a list of words *)

Lemma cs_test_chr_icase (c a : N) :
  cs_test true (CharSet false [(c, c)]) a = (ascii_lower c =? ascii_lower a).
Proof.
  apply eq_true_iff_eq. split.
  - intros H. apply cs_test_icase_char in H. apply N.eqb_eq. congruence.
  - intros H. apply N.eqb_eq in H.
    unfold cs_test, in_ranges. cbn [cs_neg cs_ranges existsb fst snd xorb].
    rewrite !orb_false_r. revert H. unfold ascii_upper, ascii_lower.
    assert (Hif : forall x lo hi, (lo <=? x) && (x <=? hi) = true <-> lo <= x <= hi).
    { intros. rewrite andb_true_iff, !N.leb_le. tauto. }
    destruct ((65 <=? a) && (a <=? 90)) eqn:Ea; destruct ((65 <=? c) && (c <=? 90)) eqn:Ec;
      destruct ((97 <=? a) && (a <=? 122)) eqn:Fa;
      try apply Hif in Ea; try apply Hif in Ec; try apply Hif in Fa;
      try (apply not_true_iff_false in Ea; rewrite Hif in Ea);
      try (apply not_true_iff_false in Ec; rewrite Hif in Ec);
      try (apply not_true_iff_false in Fa; rewrite Hif in Fa);
      intros H; rewrite !orb_true_iff, !Hif; lia.
Qed.

Lemma cs_test_chr_plain (c a : N) : cs_test false (CharSet false [(c, c)]) a = (c =? a).
Proof.
  unfold cs_test, in_ranges. cbn [cs_neg cs_ranges existsb fst snd xorb].
  rewrite orb_false_r. apply eq_true_iff_eq.
  rewrite andb_true_iff, !N.leb_le, N.eqb_eq. lia.
Qed.

Lemma fold_case_cons (ic : bool) (c : N) (s : jsstring) :
  fold_case ic (c :: s) = (if ic then ascii_lower c else c) :: fold_case ic s.
Proof. by destruct ic. Qed.

Lemma cs_test_chr_fold (ic : bool) (c a : N) :
  cs_test ic (CharSet false [(c, c)]) a =
  ((if ic then ascii_lower c else c) =? (if ic then ascii_lower a else a)).
Proof. destruct ic; [apply cs_test_chr_icase|apply cs_test_chr_plain]. Qed.

(** A literal word matches at a position exactly when the text there
    starts with it, and then consumes it. *)
Lemma rmatch_lit (ic : bool) (w : jsstring) (x : mstate) (k : cont) :
  w <> [] ->
  rmatch ic (lit w) x k =
  if startsWith (fold_case ic (st_rest x)) (fold_case ic w)
  then k (MState (last (take (length w) (st_rest x))) (drop (length w) (st_rest x)) (st_caps x))
  else None.
Proof.
  revert x k. induction w as [|c w IH]; intros [prev rest caps] k Hne; [done|].
  cbn [st_rest st_caps]. destruct w as [|c' w].
  - cbn [lit]. unfold chr. cbn [rmatch st_rest st_caps length].
    destruct rest as [|a rest].
    + rewrite fold_case_cons. by destruct ic.
    + rewrite !fold_case_cons. cbn [startsWith take drop last].
      rewrite cs_test_chr_fold.
      destruct (_ =? _); [|reflexivity]. cbn [andb].
      replace (startsWith (fold_case ic rest) (fold_case ic [])) with true
        by (by destruct ic, rest).
      by rewrite take_0, drop_0.
  - change (lit (c :: c' :: w)) with (Seq (chr c) (lit (c' :: w))).
    unfold chr at 1. cbn [rmatch st_rest st_caps].
    destruct rest as [|a rest].
    + rewrite fold_case_cons. by destruct ic.
    + rewrite (fold_case_cons ic a), (fold_case_cons ic c). cbn [startsWith].
      rewrite cs_test_chr_fold. destruct (_ =? _); [|reflexivity]. cbn [andb].
      rewrite IH by done. cbn [st_rest st_caps].
      destruct (startsWith _ _) eqn:Hs; [|reflexivity].
      change (length (c :: c' :: w)) with (S (length (c' :: w))). cbn [take drop].
      f_equal. f_equal. 
      destruct (take (length (c' :: w)) rest) as [|b t] eqn:Et; [|reflexivity].
      exfalso. destruct rest as [|b rest]; [|discriminate].
      rewrite fold_case_cons in Hs. by destruct ic.
Qed.

Lemma rmatch_words (ic : bool) (w : jsstring) (ws : list jsstring) (x : mstate) (k : cont) :
  Forall (fun w' => w' <> []) (w :: ws) ->
  (forall y, matched (k y) = true) ->
  matched (rmatch ic (alts (lit w) (List.map lit ws)) x k) =
  existsb (fun w' => startsWith (fold_case ic (st_rest x)) (fold_case ic w')) (w :: ws).
Proof.
  revert w. induction ws as [|w2 ws IH]; intros w Hne Hk;
    apply Forall_cons in Hne as [Hw Hne].
  - cbn [List.map alts existsb]. rewrite rmatch_lit, orb_false_r by done.
    destruct (startsWith _ _); [apply Hk|reflexivity].
  - cbn [List.map alts rmatch]. cbn [existsb]. rewrite rmatch_lit by done.
    destruct (startsWith _ _).
    + specialize (Hk (MState (last (take (length w) (st_rest x)))
                        (drop (length w) (st_rest x)) (st_caps x))).
      destruct (k _); [reflexivity|discriminate].
    + cbn [orb]. by apply IH.
Qed.

Lemma exec_from_matched (ic : bool) (r : regex) (t : jsstring -> bool) :
  (forall prev rest, matched (match_here ic r prev rest) = t rest) ->
  forall prev rest,
    matched (exec_from ic r prev rest) =
    (fix any (rest : jsstring) : bool :=
       t rest || match rest with [] => false | _ :: rest' => any rest' end) rest.
Proof.
  intros Ht prev rest. revert prev. induction rest as [|c rest IH]; intros prev.
  - cbn [exec_from]. rewrite <- Ht with (prev := prev).
    destruct (match_here ic r prev []); [reflexivity|]. by rewrite orb_false_r.
  - cbn [exec_from]. rewrite <- Ht with (prev := prev).
    destruct (match_here ic r prev (c :: rest)); [reflexivity|].
    cbn [matched orb]. rewrite <- (IH (Some c)).
    by destruct (exec_from ic r (Some c) rest).
Qed.

Lemma any_includes (ic : bool) (words : list jsstring) (s : jsstring) :
  (fix any (rest : jsstring) : bool :=
     existsb (fun w' => startsWith (fold_case ic rest) (fold_case ic w')) words
     || match rest with [] => false | _ :: rest' => any rest' end) s =
  includes_any (List.map (fold_case ic) words) (fold_case ic s).
Proof.
  unfold includes_any.
  assert (Hstep : forall (t t' : jsstring),
            existsb (fun w' => startsWith t (fold_case ic w')) words
            || existsb (fun w => includes t' w) (List.map (fold_case ic) words) =
            existsb (fun w => startsWith t w || includes t' w) (List.map (fold_case ic) words)).
  { intros t t'. induction words as [|w words IHw]; [reflexivity|].
    cbn [List.map existsb]. rewrite <- IHw.
    destruct (startsWith t (fold_case ic w)), (includes t' (fold_case ic w)); cbn [orb];
      rewrite ?orb_true_r; reflexivity. }
  induction s as [|c s IH].
  - replace (fold_case ic []) with (@nil N) by (by destruct ic).
    rewrite orb_false_r. clear Hstep. induction words as [|w words IHw]; [reflexivity|].
    cbn [List.map existsb]. rewrite IHw. f_equal.
    cbn [includes]. by rewrite orb_false_r.
  - rewrite IH, Hstep, fold_case_cons. reflexivity.
Qed.

(** A test with a pattern that is a list of alternative words, grouped or
    not, is a search for one of the words in the text, both seen through
    the case folding of the [i] flag. *)
Lemma re_test_words (ic : bool) (w : jsstring) (ws : list jsstring) (s : jsstring) :
  Forall (fun w' => w' <> []) (w :: ws) ->
  re_test ic (alts (lit w) (List.map lit ws)) s =
  includes_any (List.map (fold_case ic) (w :: ws)) (fold_case ic s).
Proof.
  intros Hne. unfold re_test, re_match.
  change (match exec_from ic (alts (lit w) (List.map lit ws)) None s with
          | Some _ => true | None => false end)
    with (matched (exec_from ic (alts (lit w) (List.map lit ws)) None s)).
  rewrite (exec_from_matched ic _
             (fun rest => existsb (fun w' => startsWith (fold_case ic rest) (fold_case ic w'))
                            (w :: ws))).
  - apply any_includes.
  - intros prev rest. unfold match_here. by rewrite rmatch_words.
Qed.

Lemma re_test_words_group (ic : bool) (n : nat) (w : jsstring) (ws : list jsstring)
    (s : jsstring) :
  Forall (fun w' => w' <> []) (w :: ws) ->
  re_test ic (Group n (alts (lit w) (List.map lit ws))) s =
  includes_any (List.map (fold_case ic) (w :: ws)) (fold_case ic s).
Proof.
  intros Hne. unfold re_test, re_match.
  change (match exec_from ic (Group n (alts (lit w) (List.map lit ws))) None s with
          | Some _ => true | None => false end)
    with (matched (exec_from ic (Group n (alts (lit w) (List.map lit ws))) None s)).
  rewrite (exec_from_matched ic _
             (fun rest => existsb (fun w' => startsWith (fold_case ic rest) (fold_case ic w'))
                            (w :: ws))).
  - apply any_includes.
  - intros prev rest. unfold match_here. cbn [rmatch]. by rewrite rmatch_words.
Qed.

(** ** Keyword tests *)

Ltac words_nonempty := repeat constructor; discriminate.

(** X6. The bot-wall test holds exactly when the title, a space and the
    body text, put in lower case (Basic Latin letters), contain one of the
    six phrases. *)
Theorem maybeBlocked_phrases (title bodyText : jsstring) :
  maybeBlocked title bodyText =
  includes_any
    (List.map js ["just a moment"; "checking your browser"; "cf-chl"; "cloudflare";
                  "access denied"; "attention required"]%string)
    (ascii_toLowerCase (title ++ js " " ++ bodyText)).
Proof.
  unfold maybeBlocked, re_blocked.
  change (List.map (fun w => lit (js w)) ?l) with (List.map lit (List.map js l)).
  rewrite re_test_words by words_nonempty. reflexivity.
Qed.

(** X7. A text is a likely poll block exactly when it has a percent sign,
    between 25 and 2200 code units, and its lowered form contains one of
    the eighteen keywords. *)
Theorem isLikelyPollBlock_keywords (toLowerCase : jsstring -> jsstring) (txt : jsstring) :
  RTW2.isLikelyPollBlock toLowerCase txt =
  includes txt (js "%") && (25 <=? length txt)%nat && (length txt <=? 2200)%nat
  && includes_any
       (List.map js ["lv"; "rv"; "likely voters"; "registered voters"; "n="; "poll"; "survey";
                     "approve"; "disapprove"; "ballot"; "senate"; "governor"; "house";
                     "primary"; "republican"; "democrat"; "gop"; "dem"]%string)
       (toLowerCase txt).
Proof.
  unfold RTW2.isLikelyPollBlock, RTW2.re_poll_word.
  change (List.map (fun w => lit (js w)) ?l) with (List.map lit (List.map js l)).
  rewrite re_test_words_group by words_nonempty.
  change (fold_case false (toLowerCase txt)) with (toLowerCase txt).
  destruct txt as [|c txt]; [reflexivity|]. cbn [nonempty negb].
  destruct (includes (c :: txt) (js "%")); cbn [negb andb]; [|reflexivity].
  destruct (Nat.ltb_spec (length (c :: txt)) 25) as [H1|H1];
    destruct (Nat.ltb_spec 2200 (length (c :: txt))) as [H2|H2];
    destruct (Nat.leb_spec 25 (length (c :: txt))) as [H3|H3];
    destruct (Nat.leb_spec (length (c :: txt)) 2200) as [H4|H4];
    try lia; reflexivity.
Qed.

(** ** The race line of [fetch-data_RTW2.js] *)

Lemma startsWith_app (w v : jsstring) : startsWith (w ++ v) w = true.
Proof. induction w as [|c w IH]; [by destruct v|]. simpl. by rewrite N.eqb_refl. Qed.

Lemma includes_app_mid (pre w post : jsstring) : includes (pre ++ w ++ post) w = true.
Proof.
  induction pre as [|c pre IH].
  - simpl. destruct (w ++ post) eqn:E; cbn [includes]; rewrite <- ?E, startsWith_app; reflexivity.
  - cbn [app includes]. rewrite IH. apply orb_true_r.
Qed.

Lemma lang_lit_plain (s w : jsstring) : lang false (lit s) w -> w = s.
Proof.
  revert w. induction s as [|c s IH]; intros w H; [exact H|].
  destruct s as [|c' s].
  - destruct H as (a & -> & Ha). rewrite cs_test_chr_plain in Ha.
    apply N.eqb_eq in Ha. by subst.
  - destruct H as (u & v & -> & (a & -> & Ha) & Hv).
    rewrite cs_test_chr_plain in Ha. apply N.eqb_eq in Ha. subst a.
    by rewrite (IH v Hv).
Qed.

Lemma lang_alts (ic : bool) (r : regex) (rs : list regex) (w : jsstring) :
  lang ic (alts r rs) w -> exists r', In r' (r :: rs) /\ lang ic r' w.
Proof.
  revert r. induction rs as [|r2 rs IH]; intros r H.
  - exists r. split; [by left|exact H].
  - cbn [alts lang] in H. destruct H as [H|H].
    + exists r. split; [by left|exact H].
    + destruct (IH r2 H) as (r' & Hin & Hr'). exists r'. split; [by right|exact Hr'].
Qed.

(** A plain pattern found somewhere in a text consumed a piece of it. *)
Lemma re_test_lang (ic : bool) (r : regex) (s : jsstring) :
  wf_regex r = true -> re_test ic r s = true ->
  exists pre w post, s = pre ++ w ++ post /\ lang ic r w.
Proof.
  intros Hwf. unfold re_test, re_match.
  destruct (exec_from ic r None s) as [m|] eqn:E; [|discriminate]. intros _.
  apply exec_from_sound in E as (pre & Hs & _ & Hrun); [|exact Hwf].
  apply re_run_lang in Hrun as (w & Hw & Hl); [|exact Hwf].
  cbn [st_rest] in Hw. apply app_inv_tail in Hw. rewrite Hw in Hs.
  by exists pre, w, (st_rest (mr_end m)).
Qed.

Lemma race_state_has_office (line : jsstring) :
  re_test false RTW2.re_race_state line = true ->
  includes line (js "Senate") = true \/ includes line (js "Governor") = true.
Proof.
  intros H. apply re_test_lang in H as (pre & w & post & -> & Hl); [|reflexivity].
  unfold RTW2.re_race_state in Hl. cbn [lang] in Hl.
  destruct Hl as (u1 & v1 & -> & _ & u2 & v2 & -> & _ & u3 & v3 & -> & _ &
                  u4 & v4 & -> & _ & u5 & v5 & -> & _ & u6 & v6 & -> & Hoff & _).
  assert (Hsplit : forall office,
            u6 = office ->
            includes (pre ++ (u1 ++ u2 ++ u3 ++ u4 ++ u5 ++ u6 ++ v6) ++ post) office = true).
  { intros office ->.
    replace (pre ++ (u1 ++ u2 ++ u3 ++ u4 ++ u5 ++ office ++ v6) ++ post)
      with ((pre ++ u1 ++ u2 ++ u3 ++ u4 ++ u5) ++ office ++ (v6 ++ post))
      by (by rewrite <- !app_assoc).
    apply includes_app_mid. }
  destruct Hoff as [Ho|Ho]; apply lang_lit_plain in Ho; [left|right]; by apply Hsplit.
Qed.

Lemma pickRace_lines_find (lines : list jsstring) :
  RTW2.pickRace_lines lines =
  match List.find (fun line => re_test true RTW2.re_race_word line
                               || re_test false RTW2.re_race_state line
                               || re_test false RTW2.re_race_district line) lines with
  | Some line => take 120 line
  | None => []
  end.
Proof.
  induction lines as [|line lines IH]; [reflexivity|]. cbn [RTW2.pickRace_lines List.find].
  destruct (re_test true RTW2.re_race_word line); [reflexivity|].
  destruct (re_test false RTW2.re_race_state line); [reflexivity|].
  destruct (re_test false RTW2.re_race_district line); [reflexivity|]. exact IH.
Qed.

Lemma pickRace_lines_length (lines : list jsstring) :
  (length (RTW2.pickRace_lines lines) <= 120)%nat.
Proof.
  rewrite pickRace_lines_find. destruct (List.find _ _); [|simpl; lia].
  rewrite length_take. lia.
Qed.

Lemma race_word_keywords (line : jsstring) :
  re_test true RTW2.re_race_word line =
  includes_any
    (List.map js ["senate"; "governor"; "house"; "president"; "primary"; "generic ballot";
                  "approval"]%string)
    (ascii_toLowerCase line).
Proof.
  unfold RTW2.re_race_word.
  change (List.map (fun w => lit (js w)) ?l) with (List.map lit (List.map js l)).
  rewrite re_test_words_group by words_nonempty. reflexivity.
Qed.

Lemma race_state_subsumed (line : jsstring) :
  re_test false RTW2.re_race_state line = true -> re_test true RTW2.re_race_word line = true.
Proof.
  intros H. rewrite race_word_keywords. unfold includes_any. cbn [List.map existsb].
  apply race_state_has_office in H as [H|H];
    apply (includes_map ascii_lower) in H.
  - change (List.map ascii_lower (js "Senate")) with (js "senate") in H.
    unfold ascii_toLowerCase. by rewrite H.
  - change (List.map ascii_lower (js "Governor")) with (js "governor") in H.
    unfold ascii_toLowerCase. rewrite H. by rewrite orb_true_r.
Qed.

(** X8. In [fetch-data_RTW2.js] the race is the first of the first 12
    lines that names an office keyword in any letter case or holds a
    district code such as [TX-07], cut to 120 code units; the state test of
    line 228 never decides, since a line that passes it has passed the
    keyword test of line 227. *)
Theorem pickRace_first_keyword_line :
  (forall line : jsstring,
     re_test false RTW2.re_race_state line = true ->
     re_test true RTW2.re_race_word line = true) /\
  (forall txt : jsstring,
     RTW2.pickRace txt =
     match List.find
             (fun line =>
                includes_any
                  (List.map js ["senate"; "governor"; "house"; "president"; "primary";
                                "generic ballot"; "approval"]%string)
                  (ascii_toLowerCase line)
                || re_test false RTW2.re_race_district line)
             (take 12 (clean_lines txt)) with
     | Some line => take 120 line
     | None => []
     end) /\
  (forall txt : jsstring, (length (RTW2.pickRace txt) <= 120)%nat).
Proof.
  split; [exact race_state_subsumed|].
  assert (Hfind : forall lines,
            RTW2.pickRace_lines lines =
            match List.find
                    (fun line =>
                       includes_any
                         (List.map js ["senate"; "governor"; "house"; "president"; "primary";
                                       "generic ballot"; "approval"]%string)
                         (ascii_toLowerCase line)
                       || re_test false RTW2.re_race_district line) lines with
            | Some line => take 120 line
            | None => []
            end).
  { intros lines. rewrite pickRace_lines_find.
    induction lines as [|line lines IH]; [reflexivity|]. cbn [List.find].
    rewrite <- race_word_keywords.
    destruct (re_test true RTW2.re_race_word line) eqn:E1; [reflexivity|].
    destruct (re_test false RTW2.re_race_state line) eqn:E2.
    - apply race_state_subsumed in E2. congruence.
    - cbn [orb]. destruct (re_test false RTW2.re_race_district line); [reflexivity|exact IH]. }
  split.
  - intros txt. unfold RTW2.pickRace. apply Hfind.
  - intros txt. apply pickRace_lines_length.
Qed.

(** ** The sample size *)

Lemma cs_test_digit_any (ic : bool) (c : N) :
  cs_test ic (CharSet false [(48, 57)]) c = true -> is_digit c = true.
Proof.
  destruct ic; [|by rewrite cs_test_digit].
  unfold cs_test, in_ranges, is_digit. cbn [cs_neg cs_ranges existsb fst snd xorb].
  rewrite !orb_false_r. unfold ascii_upper, ascii_lower.
  assert (Hif : forall x lo hi, (lo <=? x) && (x <=? hi) = true <-> lo <= x <= hi).
  { intros. rewrite andb_true_iff, !N.leb_le. tauto. }
  destruct ((97 <=? c) && (c <=? 122)) eqn:Ea; destruct ((65 <=? c) && (c <=? 90)) eqn:Eb;
    try apply Hif in Ea; try apply Hif in Eb;
    rewrite !orb_true_iff, !Hif; lia.
Qed.

Lemma lang_digits (ic : bool) (lo hi : nat) (w : jsstring) :
  lang ic (rrange lo hi re_digit) w -> all_digits w /\ (lo <= length w <= hi)%nat.
Proof.
  intros H. apply lang_repeat_class in H as (Hall & Hlo & Hhi). split.
  - eapply Forall_impl; [exact Hall|]. intros c Hc. by apply (cs_test_digit_any ic).
  - split; [exact Hlo|]. by apply Hhi.
Qed.

Lemma ascii_upper_lower (c : N) : ascii_upper (ascii_lower c) = ascii_upper c.
Proof.
  unfold ascii_upper, ascii_lower.
  assert (Hif : forall x lo hi, (lo <=? x) && (x <=? hi) = true <-> lo <= x <= hi).
  { intros. rewrite andb_true_iff, !N.leb_le. tauto. }
  destruct ((65 <=? c) && (c <=? 90)) eqn:Ea.
  - apply Hif in Ea.
    replace ((97 <=? c + 32) && (c + 32 <=? 122)) with true by (symmetry; apply Hif; lia).
    replace ((97 <=? c) && (c <=? 122)) with false
      by (symmetry; apply not_true_iff_false; rewrite Hif; lia).
    lia.
  - reflexivity.
Qed.

Lemma toUpperCase_of_lower (w s : jsstring) :
  ascii_toLowerCase w = ascii_toLowerCase s -> ascii_toUpperCase w = ascii_toUpperCase s.
Proof.
  intros H. unfold ascii_toUpperCase, ascii_toLowerCase in *.
  rewrite <- (map_ext _ _ ascii_upper_lower w), <- (map_ext _ _ ascii_upper_lower s).
  rewrite <- !(List.map_map ascii_lower ascii_upper). by rewrite H.
Qed.

Lemma re_run_word_boundary (ic : bool) (x y : mstate) : re_run ic WordBoundary x y -> y = x.
Proof. by inversion 1. Qed.

Lemma sample_n_sound (txt : jsstring) (m : match_result) :
  re_match false re_sample_n txt = Some m ->
  exists ds, group_text m 1 = ds /\ all_digits ds /\ (2 <= length ds <= 6)%nat /\
             includes txt ds = true.
Proof.
  unfold re_match. intros H.
  apply exec_from_sound in H as (pre & Hrest & _ & Hrun); [|reflexivity].
  unfold re_sample_n in Hrun.
  apply re_run_seq in Hrun as (y0 & H0 & H). apply re_run_seq in H as (y1 & H1 & H).
  apply re_run_seq in H as (y2 & H2 & H). apply re_run_seq in H as (y3 & H3 & H).
  apply re_run_seq in H as (y4 & H4 & H). apply re_run_seq in H as (y5 & H5 & H6).
  apply re_run_word_boundary in H0 as ->. apply re_run_word_boundary in H6. subst y5.
  apply re_run_plain in H1 as (u1 & E1 & _ & C1); [|reflexivity..].
  apply re_run_plain in H2 as (u2 & E2 & _ & C2); [|reflexivity..].
  apply re_run_plain in H3 as (u3 & E3 & _ & C3); [|reflexivity..].
  apply re_run_plain in H4 as (u4 & E4 & _ & C4); [|reflexivity..].
  apply re_run_group in H5 as (ds & E5 & L5 & C5); [|reflexivity..].
  cbn [st_prev st_rest st_caps] in *.
  apply lang_digits in L5 as [Hd Hlen].
  exists ds. split.
  { unfold group_text, mr_group. rewrite C5, lookup_insert_eq. reflexivity. }
  split; [exact Hd|]. split; [exact Hlen|].
  rewrite Hrest, E1, E2, E3, E4, E5.
  replace (pre ++ u1 ++ u2 ++ u3 ++ u4 ++ ds ++ st_rest (mr_end m))
    with ((pre ++ u1 ++ u2 ++ u3 ++ u4) ++ ds ++ st_rest (mr_end m))
    by (by rewrite <- !app_assoc).
  apply includes_app_mid.
Qed.

Lemma sample_pop_sound (txt : jsstring) (m : match_result) :
  re_match true re_sample_pop txt = Some m ->
  exists ds lab,
    group_text m 1 = ds /\ all_digits ds /\ (2 <= length ds <= 6)%nat /\
    includes txt ds = true /\
    In lab (List.map js ["LV"; "RV"; "A"; "ADULTS"; "VOTERS"]%string) /\
    ascii_toUpperCase (group_text m 2) = lab.
Proof.
  unfold re_match. intros H.
  apply exec_from_sound in H as (pre & Hrest & _ & Hrun); [|reflexivity].
  unfold re_sample_pop in Hrun.
  apply re_run_seq in Hrun as (y0 & H0 & H). apply re_run_seq in H as (y1 & H1 & H).
  apply re_run_seq in H as (y2 & H2 & H). apply re_run_seq in H as (y3 & H3 & H4).
  apply re_run_word_boundary in H0 as ->. apply re_run_word_boundary in H4. subst y3.
  apply re_run_group in H1 as (ds & E1 & L1 & C1); [|reflexivity..].
  apply re_run_plain in H2 as (u2 & E2 & _ & C2); [|reflexivity..].
  apply re_run_group in H3 as (w & E3 & L3 & C3); [|reflexivity..].
  cbn [st_prev st_rest st_caps] in *.
  apply lang_digits in L1 as [Hd Hlen].
  assert (Hg1 : group_text m 1 = ds).
  { unfold group_text, mr_group. rewrite C3, lookup_insert_ne by done.
    rewrite C2, C1, lookup_insert_eq. reflexivity. }
  assert (Hg2 : group_text m 2 = w).
  { unfold group_text, mr_group. rewrite C3, lookup_insert_eq. reflexivity. }
  assert (Hlab : In (ascii_toUpperCase w) (List.map js ["LV"; "RV"; "A"; "ADULTS"; "VOTERS"]%string)).
  { cbn [alts lang] in L3.
    destruct L3 as [L|[L|[L|[L|L]]]]; apply lang_lit_icase, toUpperCase_of_lower in L;
      rewrite L; cbn; tauto. }
  exists ds, (ascii_toUpperCase w). rewrite Hg2.
  split; [exact Hg1|]. split; [exact Hd|]. split; [exact Hlen|]. split; [|done].
  rewrite Hrest, E1. apply includes_app_mid.
Qed.

(** X9. The sample size is the empty string, or [n=] followed by two to
    six digits that occur in the text, or two to six digits of the text, a
    space and one of the labels LV, RV, A, ADULTS, VOTERS in capitals; the
    [n=] form wins when both occur. *)
Theorem extractSample_shape (txt : jsstring) :
  (extractSample txt = [] \/
   exists ds : jsstring,
     all_digits ds /\ (2 <= length ds <= 6)%nat /\ includes txt ds = true /\
     (extractSample txt = js "n=" ++ ds \/
      exists lab, In lab (List.map js ["LV"; "RV"; "A"; "ADULTS"; "VOTERS"]%string) /\
                  extractSample txt = ds ++ js " " ++ lab)) /\
  (forall m : match_result,
     re_match false re_sample_n txt = Some m -> extractSample txt = js "n=" ++ group_text m 1) /\
  (re_match false re_sample_n txt = None -> re_match true re_sample_pop txt = None ->
   extractSample txt = []).
Proof.
  split; [|split].
  - unfold extractSample.
    destruct (re_match false re_sample_n txt) as [m|] eqn:E1.
    + right. destruct (sample_n_sound txt m E1) as (ds & -> & Hd & Hlen & Hin).
      exists ds. repeat split; try done; try lia. by left.
    + destruct (re_match true re_sample_pop txt) as [m2|] eqn:E2; [|by left].
      right. destruct (sample_pop_sound txt m2 E2) as (ds & lab & -> & Hd & Hlen & Hin & Hlab & ->).
      exists ds. repeat split; try done; try lia. right. by exists lab.
  - intros m E. unfold extractSample. by rewrite E.
  - intros E1 E2. unfold extractSample. by rewrite E1, E2.
Qed.

(** ** The race of [fetch-data.js] *)

Lemma lang_office (w : jsstring) : lang false FetchData.re_office w -> office_word w.
Proof. intros [H|H]; apply lang_lit_plain in H; [by left|by right]. Qed.

Lemma lang_words_plain (w : jsstring) (ws : list jsstring) (u : jsstring) :
  lang false (alts (lit w) (List.map lit ws)) u -> In u (w :: ws).
Proof.
  intros H. apply lang_alts in H as (r & Hin & Hr).
  change (lit w :: List.map lit ws) with (List.map lit (w :: ws)) in Hin.
  apply in_map_iff in Hin as (w' & <- & Hw'). apply lang_lit_plain in Hr. by subst.
Qed.

Lemma state_office_sound (txt : jsstring) (m : match_result) :
  re_match false FetchData.re_state_office txt = Some m ->
  capital_word (group_text m 1) /\ office_word (group_text m 2) /\
  includes txt (group_text m 1) = true.
Proof.
  unfold re_match. intros H.
  apply exec_from_sound in H as (pre & Hrest & _ & Hrun); [|reflexivity].
  unfold FetchData.re_state_office in Hrun.
  apply re_run_seq in Hrun as (y0 & H0 & H). apply re_run_seq in H as (y1 & H1 & H).
  apply re_run_seq in H as (y2 & H2 & H). apply re_run_seq in H as (y3 & H3 & H4).
  apply re_run_word_boundary in H0 as ->. apply re_run_word_boundary in H4. subst y3.
  apply re_run_group in H1 as (place & E1 & L1 & C1); [|reflexivity..].
  apply re_run_plain in H2 as (sp & E2 & _ & C2); [|reflexivity..].
  apply re_run_group in H3 as (office & E3 & L3 & C3); [|reflexivity..].
  cbn [st_prev st_rest st_caps] in *.
  assert (Hg1 : group_text m 1 = place).
  { unfold group_text, mr_group. rewrite C3, lookup_insert_ne by done.
    rewrite C2, C1, lookup_insert_eq. reflexivity. }
  assert (Hg2 : group_text m 2 = office).
  { unfold group_text, mr_group. rewrite C3, lookup_insert_eq. reflexivity. }
  rewrite Hg1, Hg2. split; [|split].
  - destruct L1 as (u & v & -> & (c & -> & Hc) & Hv).
    apply lang_repeat_class in Hv as (Hall & Hlo & _).
    exists c, v. split; [reflexivity|]. split; [by rewrite cs_test_plain in Hc|].
    split; [intros ->; simpl in Hlo; lia|].
    eapply Forall_impl; [exact Hall|]. intros a Ha. cbv beta in Ha.
    by rewrite cs_test_plain in Ha.
  - by apply lang_office.
  - rewrite Hrest, E1. apply includes_app_mid.
Qed.

Lemma code_office_sound (txt : jsstring) (m : match_result) :
  re_match false FetchData.re_code_office txt = Some m ->
  exists code sp office,
    mr_text m = code ++ sp ++ office /\ In code state_codes /\ sp <> [] /\ all_ws sp /\
    office_word office /\ includes txt code = true.
Proof.
  unfold re_match. intros H.
  apply exec_from_sound in H as (pre & Hrest & _ & Hrun); [|reflexivity].
  unfold FetchData.re_code_office in Hrun.
  apply re_run_seq in Hrun as (y0 & H0 & H). apply re_run_seq in H as (y1 & H1 & H).
  apply re_run_seq in H as (y2 & H2 & H). apply re_run_seq in H as (y3 & H3 & H4).
  apply re_run_word_boundary in H0 as ->. apply re_run_word_boundary in H4. subst y3.
  apply re_run_plain in H1 as (code & E1 & L1 & C1); [|reflexivity..].
  apply re_run_plain in H2 as (sp & E2 & L2 & C2); [|reflexivity..].
  apply re_run_group in H3 as (office & E3 & L3 & C3); [|reflexivity..].
  cbn [st_prev st_rest st_caps] in *.
  apply lang_ws_plus in L2 as [Hne Hws].
  exists code, sp, office. split.
  { rewrite E2, E3 in E1. rewrite !app_assoc in E1. apply app_inv_tail in E1.
    by rewrite E1, <- !app_assoc. }
  split.
  { change (List.map (fun w => lit (js w)) ?l) with (List.map lit (List.map js l)) in L1.
    apply lang_words_plain in L1. exact L1. }
  split; [exact Hne|]. split; [exact Hws|]. split; [by apply lang_office|].
  rewrite Hrest, E1. apply includes_app_mid.
Qed.

Lemma last_office (u office : jsstring) :
  office_word office -> last (u ++ office) = Some 101 \/ last (u ++ office) = Some 114.
Proof. intros [-> | ->]; rewrite last_app; [by left|by right]. Qed.

(** The three ways the race of [fetch-data.js] comes about. *)
Lemma pickRace_cases (toLowerCase : jsstring -> jsstring) (txt : jsstring) :
  (exists place office,
     FetchData.pickRace toLowerCase txt = place ++ js " " ++ office /\
     capital_word place /\ office_word office /\ includes txt place = true) \/
  (exists code sp office,
     FetchData.pickRace toLowerCase txt = code ++ sp ++ office /\
     In code state_codes /\ sp <> [] /\ all_ws sp /\ office_word office /\
     includes txt code = true) \/
  (FetchData.pickRace toLowerCase txt =
     if includes (toLowerCase txt) (js "generic ballot") then js "Generic Ballot"
     else if includes (toLowerCase txt) (js "approval") then js "Trump Approval"
     else []).
Proof.
  unfold FetchData.pickRace.
  destruct (re_match false FetchData.re_state_office txt) as [m1|] eqn:E1.
  - left. destruct (state_office_sound txt m1 E1) as (Hp & Ho & Hin).
    by exists (group_text m1 1), (group_text m1 2).
  - destruct (re_match false FetchData.re_code_office txt) as [m2|] eqn:E2.
    + right. left. exact (code_office_sound txt m2 E2).
    + right. right. reflexivity.
Qed.

(** X10. The race of [fetch-data.js] is a capitalized word of the text,
    one space and Senate or Governor; or a state code of the text,
    whitespace and Senate or Governor; or one of the two fixed labels; or
    the empty string. *)
Theorem pickRace_shape (toLowerCase : jsstring -> jsstring) (txt : jsstring) :
  FetchData.pickRace toLowerCase txt = [] \/
  FetchData.pickRace toLowerCase txt = js "Generic Ballot" \/
  FetchData.pickRace toLowerCase txt = js "Trump Approval" \/
  exists place sp office : jsstring,
    FetchData.pickRace toLowerCase txt = place ++ sp ++ office /\
    office_word office /\ includes txt place = true /\
    (capital_word place /\ sp = js " " \/
     In place state_codes /\ sp <> [] /\ all_ws sp).
Proof.
  destruct (pickRace_cases toLowerCase txt)
    as [(place & office & -> & Hp & Ho & Hin)
       |[(code & sp & office & -> & Hc & Hne & Hws & Ho & Hin)| -> ]].
  - right. right. right. exists place, (js " "), office. repeat split; try done. by left.
  - right. right. right. exists code, sp, office. repeat split; try done. by right.
  - destruct (includes (toLowerCase txt) (js "generic ballot")); [by right; left|].
    destruct (includes (toLowerCase txt) (js "approval")); [by right; right; left|by left].
Qed.

(** X11. In [fetch-data.js] the race and the category agree on the two
    fixed labels: a record whose race is Generic Ballot has the category
    generic_ballot, and one whose race is Trump Approval has the category
    approval. *)
Theorem pickRace_agrees_with_category (toLowerCase : jsstring -> jsstring) (txt : jsstring) :
  (FetchData.pickRace toLowerCase txt = js "Generic Ballot" ->
   inferCategory toLowerCase txt = js "generic_ballot") /\
  (FetchData.pickRace toLowerCase txt = js "Trump Approval" ->
   inferCategory toLowerCase txt = js "approval").
Proof.
  assert (Hlast : forall u sp office label,
            office_word office -> last label <> Some 101 -> last label <> Some 114 ->
            u ++ sp ++ office <> label).
  { intros u sp office label Ho H1 H2 E. rewrite app_assoc in E.
    destruct (last_office (u ++ sp) office Ho) as [H|H]; rewrite E in H; congruence. }
  destruct (pickRace_cases toLowerCase txt)
    as [(place & office & E & _ & Ho & _)|[(code & sp & office & E & _ & _ & _ & Ho & _)|E]];
    rewrite E.
  - split; intros H; exfalso; revert H; by apply Hlast.
  - split; intros H; exfalso; revert H; by apply Hlast.
  - unfold inferCategory.
    destruct (includes (toLowerCase txt) (js "generic ballot")); [by split|].
    destruct (includes (toLowerCase txt) (js "approval")); by split.
Qed.

(** ** The fields of a record *)

Lemma inferCategory_value (toLowerCase : jsstring -> jsstring) (txt : jsstring) :
  In (inferCategory toLowerCase txt) category_values.
Proof.
  unfold inferCategory, category_values.
  repeat match goal with
  | |- context [if ?b then _ else _] => destruct b
  end; cbn; tauto.
Qed.

Lemma blocks_loop_records (toLowerCase : jsstring -> jsstring) (P : poll -> Prop)
    (d : document) (MAX_POLLS : nat) (anchors : list elem) (blocks : list poll) :
  (forall p, fetch_data_record toLowerCase d p -> P p) ->
  Forall (fun a => In a (doc_anchors d) /\
                   FetchData.isExternalPollUrl toLowerCase (getAttribute_href d a) = true)
         anchors ->
  Forall P blocks ->
  Forall P (FetchData.blocks_loop toLowerCase d MAX_POLLS anchors blocks).
Proof.
  intros HP. revert blocks.
  induction anchors as [|a anchors IH]; intros blocks Ha Hb;
    cbn [FetchData.blocks_loop]; [done|].
  apply Forall_cons in Ha as [[Ha Hext] Has].
  destruct (walk_up d _ 8 (Some a)) as [chosen|] eqn:Hw; [|by apply IH].
  destruct (_ && _) eqn:Hskip; [by apply IH|].
  match goal with |- context [blocks ++ [?p]] => assert (Forall P (blocks ++ [p])) as Hb1 end.
  { apply Forall_app. split; [done|]. constructor; [|constructor].
    apply HP. exists a, chosen. repeat split; done. }
  destruct (_ <=? _)%nat; [done|by apply IH].
Qed.

Lemma page_evaluate_records (toLowerCase : jsstring -> jsstring) (d : document)
    (MAX_POLLS : nat) :
  Forall (fetch_data_record toLowerCase d) (FetchData.page_evaluate toLowerCase d MAX_POLLS).
Proof.
  apply blocks_loop_records; [done| |constructor].
  apply List.Forall_forall. intros a Ha. by apply filter_In in Ha.
Qed.

(** The text of a block that passed a test implying a percent sign and a
    bound on the trimmed length. *)
Lemma block_text_fields (max_text : nat) (txt : jsstring) :
  includes (trim txt) (js "%") = true -> (length (trim txt) <= max_text)%nat ->
  In 37 (clean (Str txt)) /\ (length (clean (Str txt)) <= max_text)%nat /\
  clean (Str (clean (Str txt))) = clean (Str txt).
Proof.
  intros Hpct Hlen. split; [|split].
  - apply In_clean; [reflexivity|]. apply In_trim. by apply includes_single.
  - pose proof (length_clean_trim txt). lia.
  - apply clean_clean.
Qed.

Lemma isLikelyPollBlock_bounds (toLowerCase : jsstring -> jsstring) (txt : jsstring) :
  RTW2.isLikelyPollBlock toLowerCase txt = true ->
  includes txt (js "%") = true /\ (length txt <= 2200)%nat.
Proof.
  unfold RTW2.isLikelyPollBlock.
  destruct (negb (nonempty txt)); [discriminate|].
  destruct (includes txt (js "%")); [|discriminate]. cbn [negb].
  destruct (Nat.ltb_spec (length txt) 25); [discriminate|].
  destruct (Nat.ltb_spec 2200 (length txt)); [discriminate|]. cbn [orb]. intros _.
  split; [reflexivity|lia].
Qed.

Lemma fetch_data_record_fields (toLowerCase : jsstring -> jsstring) (d : document) (p : poll) :
  fetch_data_record toLowerCase d p -> block_fields 1200 10 p.
Proof.
  intros (a & chosen & _ & _ & Hw & ->). apply walk_up_ok in Hw.
  unfold FetchData.block_ok in Hw.
  apply andb_prop in Hw as [Hw Hhi]. apply andb_prop in Hw as [Hpct _].
  apply Nat.leb_le in Hhi.
  destruct (block_text_fields 1200 _ Hpct Hhi) as (H1 & H2 & H3).
  unfold block_fields. cbn [category population results_text results].
  split; [apply inferCategory_value|]. split; [reflexivity|].
  split; [exact H1|]. split; [exact H2|]. split; [exact H3|].
  apply extractResults_cap_length. lia.
Qed.

Lemma rtw2_record_fields (toLowerCase : jsstring -> jsstring) (d : document) (p : poll) :
  from_anchor toLowerCase d p \/ from_container toLowerCase d p ->
  block_fields 2200 12 p /\ results p <> [] /\
  (length (race p) <= 120)%nat /\ (length (pollster p) <= 100)%nat.
Proof.
  assert (Hmk : forall u txt res,
            includes (trim txt) (js "%") = true -> (length (trim txt) <= 2200)%nat ->
            res = RTW2.extractResults txt -> res <> [] ->
            let p := RTW2.make_poll toLowerCase u txt res in
            block_fields 2200 12 p /\ results p <> [] /\
            (length (race p) <= 120)%nat /\ (length (pollster p) <= 100)%nat).
  { intros u txt res Hpct Hlen -> Hne.
    destruct (block_text_fields 2200 _ Hpct Hlen) as (H1 & H2 & H3).
    unfold RTW2.make_poll, block_fields.
    cbn [category population results_text results race pollster].
    split; [|split; [exact Hne|split]].
    - split; [apply inferCategory_value|]. split; [reflexivity|].
      split; [exact H1|]. split; [exact H2|]. split; [exact H3|].
      apply extractResults_cap_length. lia.
    - apply pickRace_lines_length.
    - unfold RTW2.pickPollster. destruct (first_match _ _ _).
      + unfold slice0. rewrite length_take. lia.
      + destruct (clean_lines txt); [simpl; lia|]. unfold slice0. rewrite length_take. lia. }
  intros [(a & chosen & _ & Hw & Hne & ->)|(el & _ & Hl & Hne & ->)].
  - apply walk_up_ok, isLikelyPollBlock_bounds in Hw as [Hpct Hlen]. by apply Hmk.
  - apply isLikelyPollBlock_bounds in Hl as [Hpct Hlen].
    assert (Htt : trim (trim (or_empty (innerText d el))) = trim (or_empty (innerText d el))).
    { unfold trim at 1. rewrite trimStart_id by (unfold trim; apply trimEnd_starts, trimStart_starts).
      apply trimEnd_id. unfold trim. apply trimEnd_ends. }
    apply Hmk; try done; by rewrite Htt.
Qed.

(** X12. Every record that [fetch-data.js] collects, and every row it
    writes, has one of the ten categories, an empty population, a
    normalized block text with a percent sign and at most 1200 code units,
    and at most 10 results. *)
Theorem fetch_data_rows_fields (toLowerCase : jsstring -> jsstring) (d : document)
    (MAX_POLLS : nat) :
  Forall (block_fields 1200 10) (FetchData.page_evaluate toLowerCase d MAX_POLLS) /\
  (forall polls : list poll,
     FetchData.run toLowerCase d MAX_POLLS = Some polls -> Forall (block_fields 1200 10) polls).
Proof.
  assert (H : Forall (block_fields 1200 10) (FetchData.page_evaluate toLowerCase d MAX_POLLS)).
  { eapply Forall_impl; [apply page_evaluate_records|]. apply fetch_data_record_fields. }
  split; [exact H|]. intros polls Hrun. unfold FetchData.run in Hrun.
  destruct (_ <? _)%nat; [discriminate|]. injection Hrun as <-.
  apply List.Forall_forall. intros p Hp. unfold FetchData.out_polls in Hp.
  apply In_take, In_dedupe in Hp. rewrite List.Forall_forall in H. by apply H.
Qed.

(** X13. Every record that [fetch-data_RTW2.js] collects in a frame, and
    every row it writes, has one of the ten categories, an empty
    population, a normalized block text with a percent sign and at most
    2200 code units, between 1 and 12 results, a race of at most 120 code
    units and a pollster of at most 100. *)
Theorem rtw2_rows_fields (toLowerCase : jsstring -> jsstring) (MAX_POLLS : nat) :
  (forall d : document,
     Forall (fun p => block_fields 2200 12 p /\ results p <> [] /\
                      (length (race p) <= 120)%nat /\ (length (pollster p) <= 100)%nat)
            (RTW2.in_frame toLowerCase MAX_POLLS d)) /\
  (forall (frames : list frame) (polls : list poll),
     RTW2.run toLowerCase MAX_POLLS frames = Some polls ->
     Forall (fun p => block_fields 2200 12 p /\ results p <> [] /\
                      (length (race p) <= 120)%nat /\ (length (pollster p) <= 100)%nat)
            polls).
Proof.
  assert (H : forall d : document,
            Forall (fun p => block_fields 2200 12 p /\ results p <> [] /\
                             (length (race p) <= 120)%nat /\ (length (pollster p) <= 100)%nat)
                   (RTW2.in_frame toLowerCase MAX_POLLS d)).
  { intros d. eapply Forall_impl; [apply in_frame_assembled|].
    apply rtw2_record_fields. }
  split; [exact H|]. intros frames polls Hrun. unfold RTW2.run in Hrun.
  destruct (_ <? _)%nat; [discriminate|]. injection Hrun as <-.
  apply List.Forall_forall. intros p Hp. unfold RTW2.out_polls in Hp.
  apply In_take, In_dedupe, In_frames_loop in Hp as (d & _ & Hp).
  specialize (H d). rewrite List.Forall_forall in H. by apply H.
Qed.

(** ** How many records *)

Lemma blocks_loop_length (toLowerCase : jsstring -> jsstring) (d : document)
    (MAX_POLLS : nat) (anchors : list elem) (blocks : list poll) :
  (length (FetchData.blocks_loop toLowerCase d MAX_POLLS anchors blocks)
   <= Nat.max (S (length blocks)) MAX_POLLS)%nat /\
  (length (FetchData.blocks_loop toLowerCase d MAX_POLLS anchors blocks)
   <= length blocks + length anchors)%nat.
Proof.
  revert blocks. induction anchors as [|a anchors IH]; intros blocks;
    cbn [FetchData.blocks_loop length]; [lia|].
  destruct (walk_up d _ 8 (Some a)) as [chosen|]; [|specialize (IH blocks); lia].
  destruct (_ && _); [specialize (IH blocks); lia|].
  match goal with |- context [blocks ++ [?p]] => set (blocks1 := blocks ++ [p]) end.
  assert (Hl : length blocks1 = S (length blocks)).
  { subst blocks1. rewrite length_app. simpl. lia. }
  destruct (Nat.leb_spec MAX_POLLS (length blocks1)); [lia|].
  specialize (IH blocks1). lia.
Qed.

Lemma anchors_loop_length (toLowerCase : jsstring -> jsstring) (d : document)
    (MAX_POLLS : nat) (anchors : list elem) (seenEl : gset elem) (blocks : list poll) :
  (length (RTW2.anchors_loop toLowerCase d MAX_POLLS anchors seenEl blocks)
   <= Nat.max (S (length blocks)) MAX_POLLS)%nat.
Proof.
  revert seenEl blocks. induction anchors as [|a anchors IH]; intros seenEl blocks;
    cbn [RTW2.anchors_loop]; [lia|].
  destruct (walk_up d _ 10 (Some a)) as [chosen|]; [|apply IH].
  case_bool_decide; [apply IH|].
  destruct (length _ =? 0)%nat; [apply IH|].
  match goal with |- context [blocks ++ [?p]] => set (blocks1 := blocks ++ [p]) end.
  assert (Hl : length blocks1 = S (length blocks)).
  { subst blocks1. rewrite length_app. simpl. lia. }
  destruct (Nat.leb_spec MAX_POLLS (length blocks1)); [lia|].
  specialize (IH ({[chosen]} ∪ seenEl) blocks1). lia.
Qed.

Lemma containers_loop_length (toLowerCase : jsstring -> jsstring) (d : document)
    (MAX_POLLS : nat) (elems : list elem) (blocks : list poll) :
  (length (RTW2.containers_loop toLowerCase d MAX_POLLS elems blocks)
   <= Nat.max (S (length blocks)) MAX_POLLS)%nat.
Proof.
  revert blocks. induction elems as [|el elems IH]; intros blocks;
    cbn [RTW2.containers_loop]; [lia|].
  destruct (negb _); [apply IH|].
  destruct (length _ =? 0)%nat; [apply IH|].
  match goal with |- context [blocks ++ [?p]] => set (blocks1 := blocks ++ [p]) end.
  assert (Hl : length blocks1 = S (length blocks)).
  { subst blocks1. rewrite length_app. simpl. lia. }
  destruct (Nat.leb_spec MAX_POLLS (length blocks1)); [lia|].
  specialize (IH blocks1). lia.
Qed.

(** *** The limit as a Number *)

Lemma length_ge_ceiling (q : Q) (n : nat) :
  length_ge n (Fin q) = (Z.to_nat (Qceiling q) <=? n)%nat.
Proof.
  cbn [length_ge]. apply eq_true_iff_eq. rewrite Qle_bool_iff, Nat.leb_le. split.
  - intros H. apply Qceiling_resp_le in H. rewrite Qceiling_Z in H. lia.
  - intros H. apply Qle_trans with (inject_Z (Qceiling q)); [apply Qle_ceiling|].
    rewrite <- Zle_Qle. lia.
Qed.

Lemma length_ge_nat (k n : nat) :
  length_ge n (Fin (Qmake (Z.of_nat k) 1)) = (k <=? n)%nat.
Proof.
  rewrite length_ge_ceiling. change (Qmake (Z.of_nat k) 1) with (inject_Z (Z.of_nat k)).
  by rewrite Qceiling_Z, Nat2Z.id.
Qed.

Section Limit_as_nat.
Variable toLowerCase : jsstring -> jsstring.
Variable MAX_POLLS : jsnum.
Variable k : nat.
Hypothesis Hk : forall n : nat, length_ge n MAX_POLLS = (k <=? n)%nat.

Lemma blocks_loop_num_nat (d : document) (anchors : list elem) (blocks : list poll) :
  blocks_loop_num toLowerCase MAX_POLLS d anchors blocks =
  FetchData.blocks_loop toLowerCase d k anchors blocks.
Proof.
  revert blocks. induction anchors as [|a anchors IH]; intros blocks;
    cbn [blocks_loop_num FetchData.blocks_loop]; [reflexivity|].
  destruct (walk_up d _ 8 (Some a)) as [chosen|]; [|apply IH].
  cbv zeta. rewrite Hk, !IH. reflexivity.
Qed.

Lemma anchors_loop_num_nat (d : document) (anchors : list elem) (seenEl : gset elem)
    (blocks : list poll) :
  anchors_loop_num toLowerCase MAX_POLLS d anchors seenEl blocks =
  RTW2.anchors_loop toLowerCase d k anchors seenEl blocks.
Proof.
  revert seenEl blocks. induction anchors as [|a anchors IH]; intros seenEl blocks;
    cbn [anchors_loop_num RTW2.anchors_loop]; [reflexivity|].
  destruct (walk_up d _ 10 (Some a)) as [chosen|]; [|apply IH].
  cbv zeta. rewrite Hk, !IH. reflexivity.
Qed.

Lemma containers_loop_num_nat (d : document) (elems : list elem) (blocks : list poll) :
  containers_loop_num toLowerCase MAX_POLLS d elems blocks =
  RTW2.containers_loop toLowerCase d k elems blocks.
Proof.
  revert blocks. induction elems as [|el elems IH]; intros blocks;
    cbn [containers_loop_num RTW2.containers_loop]; [reflexivity|].
  cbv zeta. rewrite Hk, !IH. reflexivity.
Qed.

Lemma page_evaluate_num_nat (d : document) :
  page_evaluate_num toLowerCase MAX_POLLS d = FetchData.page_evaluate toLowerCase d k.
Proof. apply blocks_loop_num_nat. Qed.

Lemma in_frame_num_nat (d : document) :
  in_frame_num toLowerCase MAX_POLLS d = RTW2.in_frame toLowerCase k d.
Proof.
  unfold in_frame_num, RTW2.in_frame. cbv zeta.
  by rewrite anchors_loop_num_nat, containers_loop_num_nat.
Qed.

Lemma frames_loop_num_nat (frames : list frame) (polls : list poll) :
  frames_loop_num toLowerCase MAX_POLLS frames polls =
  RTW2.frames_loop toLowerCase k frames polls.
Proof.
  revert polls. induction frames as [|f frames IH]; intros polls;
    cbn [frames_loop_num RTW2.frames_loop]; [reflexivity|].
  cbv zeta. rewrite IH. unfold extractPollsInFrame_num, RTW2.extractPollsInFrame.
  destruct f as [d|]; cbn [frame_evaluate]; [|reflexivity]. by rewrite in_frame_num_nat.
Qed.
End Limit_as_nat.

(** Whatever the limit, a loop adds at most one record per element it
    visits. *)
Lemma blocks_loop_num_visits (toLowerCase : jsstring -> jsstring) (MAX_POLLS : jsnum)
    (d : document) (anchors : list elem) (blocks : list poll) :
  (length (blocks_loop_num toLowerCase MAX_POLLS d anchors blocks)
   <= length blocks + length anchors)%nat.
Proof.
  revert blocks. induction anchors as [|a anchors IH]; intros blocks;
    cbn [blocks_loop_num length]; [lia|].
  destruct (walk_up d _ 8 (Some a)) as [chosen|]; [|specialize (IH blocks); lia].
  destruct (_ && _); [specialize (IH blocks); lia|].
  match goal with |- context [blocks ++ [?p]] => set (blocks1 := blocks ++ [p]) end.
  assert (Hl : length blocks1 = S (length blocks)).
  { subst blocks1. rewrite length_app. simpl. lia. }
  destruct (length_ge _ _); [lia|]. specialize (IH blocks1). lia.
Qed.

Lemma anchors_loop_num_visits (toLowerCase : jsstring -> jsstring) (MAX_POLLS : jsnum)
    (d : document) (anchors : list elem) (seenEl : gset elem) (blocks : list poll) :
  (length (anchors_loop_num toLowerCase MAX_POLLS d anchors seenEl blocks)
   <= length blocks + length anchors)%nat.
Proof.
  revert seenEl blocks. induction anchors as [|a anchors IH]; intros seenEl blocks;
    cbn [anchors_loop_num length]; [lia|].
  destruct (walk_up d _ 10 (Some a)) as [chosen|]; [|specialize (IH seenEl blocks); lia].
  case_bool_decide; [specialize (IH seenEl blocks); lia|].
  destruct (length _ =? 0)%nat; [specialize (IH ({[chosen]} ∪ seenEl) blocks); lia|].
  match goal with |- context [blocks ++ [?p]] => set (blocks1 := blocks ++ [p]) end.
  assert (Hl : length blocks1 = S (length blocks)).
  { subst blocks1. rewrite length_app. simpl. lia. }
  destruct (length_ge _ _); [lia|]. specialize (IH ({[chosen]} ∪ seenEl) blocks1). lia.
Qed.

Lemma containers_loop_num_visits (toLowerCase : jsstring -> jsstring) (MAX_POLLS : jsnum)
    (d : document) (elems : list elem) (blocks : list poll) :
  (length (containers_loop_num toLowerCase MAX_POLLS d elems blocks)
   <= length blocks + length elems)%nat.
Proof.
  revert blocks. induction elems as [|el elems IH]; intros blocks;
    cbn [containers_loop_num length]; [lia|].
  destruct (negb _); [specialize (IH blocks); lia|].
  destruct (length _ =? 0)%nat; [specialize (IH blocks); lia|].
  match goal with |- context [blocks ++ [?p]] => set (blocks1 := blocks ++ [p]) end.
  assert (Hl : length blocks1 = S (length blocks)).
  { subst blocks1. rewrite length_app. simpl. lia. }
  destruct (length_ge _ _); [lia|]. specialize (IH blocks1). lia.
Qed.

Lemma in_frame_nat_bounds (toLowerCase : jsstring -> jsstring) (d : document) (n : nat) :
  (length (RTW2.in_frame toLowerCase n d) <= S (Nat.max 1 n))%nat /\
  ((5 <= n)%nat -> (length (RTW2.in_frame toLowerCase n d) <= n)%nat).
Proof.
  unfold RTW2.in_frame.
  match goal with |- context [RTW2.anchors_loop _ _ _ ?l _ _] =>
    pose proof (anchors_loop_length toLowerCase d n l ∅ []) as Ha;
    set (blocks := RTW2.anchors_loop toLowerCase d n l ∅ []) in * end.
  cbn [length] in Ha. cbv zeta.
  match goal with |- context [RTW2.containers_loop _ _ _ ?l _] =>
    pose proof (containers_loop_length toLowerCase d n l blocks) end.
  destruct (Nat.ltb_spec (length blocks) 5); split; try intros ?; lia.
Qed.

Lemma ceiling_above_four (q : Q) : (4 < q)%Q -> (5 <= Qceiling q)%Z.
Proof.
  intros H. pose proof (Qle_ceiling q) as Hc.
  assert (Hlt : (inject_Z 4 < inject_Z (Qceiling q))%Q) by (eapply Qlt_le_trans; eauto).
  rewrite <- Zlt_Qlt in Hlt. lia.
Qed.

Lemma page_evaluate_num_ceiling (toLowerCase : jsstring -> jsstring) (q : Q) (d : document) :
  (Z.of_nat (length (page_evaluate_num toLowerCase (Fin q) d)) <= Z.max 1 (Qceiling q))%Z.
Proof.
  rewrite (page_evaluate_num_nat toLowerCase (Fin q) _ (length_ge_ceiling q)).
  unfold FetchData.page_evaluate.
  match goal with |- context [FetchData.blocks_loop _ _ ?n ?l _] =>
    destruct (blocks_loop_length toLowerCase d n l []) as [Hb _] end.
  cbn [length] in Hb. lia.
Qed.

(** X14. The limit [MAX_POLLS] is a Number, and the loops compare the
    number of records with it only after a push.  Whatever the limit, the
    page pass of [fetch-data.js] returns no more records than there are
    external anchors, and a frame of [fetch-data_RTW2.js] no more than
    there are anchors and 2500 containers.  For a finite limit [q] the page
    pass returns at most the ceiling of [q] records, but one when [q] is 0
    or negative; a frame returns at most one more than that, and at most
    the ceiling of [q] when [q] is above 4.  A limit of minus infinity
    gives at most one record, and two in a frame.  On a natural number the
    passes are those with a natural limit. *)
Theorem records_per_pass (toLowerCase : jsstring -> jsstring) (d : document) :
  (forall MAX_POLLS : jsnum,
     (length (page_evaluate_num toLowerCase MAX_POLLS d)
      <= length (List.filter
                   (fun a => FetchData.isExternalPollUrl toLowerCase (getAttribute_href d a))
                   (doc_anchors d)))%nat /\
     (length (in_frame_num toLowerCase MAX_POLLS d) <= length (doc_anchors d) + 2500)%nat) /\
  (forall q : Q,
     (Z.of_nat (length (page_evaluate_num toLowerCase (Fin q) d)) <= Z.max 1 (Qceiling q))%Z /\
     (Z.of_nat (length (in_frame_num toLowerCase (Fin q) d)) <= 1 + Z.max 1 (Qceiling q))%Z /\
     ((4 < q)%Q ->
      (Z.of_nat (length (in_frame_num toLowerCase (Fin q) d)) <= Qceiling q)%Z)) /\
  ((length (page_evaluate_num toLowerCase NegInfinity d) <= 1)%nat /\
   (length (in_frame_num toLowerCase NegInfinity d) <= 2)%nat) /\
  (forall n : nat,
     page_evaluate_num toLowerCase (Fin (Qmake (Z.of_nat n) 1)) d =
       FetchData.page_evaluate toLowerCase d n /\
     in_frame_num toLowerCase (Fin (Qmake (Z.of_nat n) 1)) d = RTW2.in_frame toLowerCase n d).
Proof.
  split; [|split; [|split]].
  - intros MAX_POLLS. split.
    + unfold page_evaluate_num.
      match goal with |- context [blocks_loop_num _ _ _ ?l _] =>
        pose proof (blocks_loop_num_visits toLowerCase MAX_POLLS d l []) as H end.
      exact H.
    + unfold in_frame_num. cbv zeta.
      match goal with |- context [anchors_loop_num _ _ _ ?l _ _] =>
        pose proof (anchors_loop_num_visits toLowerCase MAX_POLLS d l ∅ []) as Ha;
        assert (Hl : (length l <= length (doc_anchors d))%nat)
          by (etrans; apply filter_length_le);
        set (blocks := anchors_loop_num toLowerCase MAX_POLLS d l ∅ []) in * end.
      cbn [length] in Ha. destruct (Nat.ltb_spec (length blocks) 5); [|lia].
      match goal with |- context [containers_loop_num _ _ _ ?l _] =>
        pose proof (containers_loop_num_visits toLowerCase MAX_POLLS d l blocks) as Hc;
        assert (Hl2 : (length l <= 2500)%nat) by (rewrite length_take; lia) end.
      lia.
  - intros q. split; [apply page_evaluate_num_ceiling|].
    rewrite (in_frame_num_nat toLowerCase (Fin q) _ (length_ge_ceiling q)).
    set (n := Z.to_nat (Qceiling q)).
    destruct (in_frame_nat_bounds toLowerCase d n) as [Hf1 Hf2].
    split; [subst n; lia|].
    intros Hq. apply ceiling_above_four in Hq.
    assert (5 <= n)%nat by (subst n; lia). specialize (Hf2 ltac:(done)). subst n. lia.
  - assert (H0 : forall n : nat, length_ge n NegInfinity = (0 <=? n)%nat) by done.
    rewrite (page_evaluate_num_nat toLowerCase NegInfinity _ H0).
    rewrite (in_frame_num_nat toLowerCase NegInfinity _ H0).
    destruct (in_frame_nat_bounds toLowerCase d 0) as [Hf1 _].
    unfold FetchData.page_evaluate.
    match goal with |- context [FetchData.blocks_loop _ _ _ ?l _] =>
      destruct (blocks_loop_length toLowerCase d 0 l []) as [Hb _] end.
    cbn [length] in Hb. split; [lia|]. cbn in Hf1. lia.
  - intros n. split.
    + apply page_evaluate_num_nat, length_ge_nat.
    + apply in_frame_num_nat, length_ge_nat.
Qed.









(** The two bounds that exceed [MAX_POLLS] are reached. *)
Example pass_exceeds_small_limit :
  length (FetchData.page_evaluate ascii_toLowerCase three_blocks_page 0) = 1%nat /\
  length (RTW2.in_frame ascii_toLowerCase 2 three_blocks_page) = 3%nat.
Proof. split; vm_compute; reflexivity. Qed.

(** A limit of 5.5 stops the pass at 6 records, a limit that is not a
    number never stops it, a limit of -3 stops it at the first record; a
    page that shows a bot wall ends the run before any pass. *)
Example number_limits_on_a_page :
  length (page_evaluate_num ascii_toLowerCase (Fin (11 # 2)) (results_page 10)) = 6%nat /\
  length (page_evaluate_num ascii_toLowerCase NaN (results_page 10)) = 10%nat /\
  length (page_evaluate_num ascii_toLowerCase (Fin (-3 # 1)) (results_page 10)) = 1%nat /\
  length (in_frame_num ascii_toLowerCase (Fin (3 # 2)) three_blocks_page) = 3%nat /\
  length (in_frame_num ascii_toLowerCase (Fin (-3 # 1)) three_blocks_page) = 2%nat /\
  rtw2_run ascii_toLowerCase (Fin 600) (js "Just a moment...") [] [LiveFrame (results_page 10)]
  = Blocked /\
  match fetch_data_run ascii_toLowerCase (Fin 600) (js "Polls") [] (results_page 10) with
  | Written polls => Some (length polls)
  | _ => None
  end = Some 10%nat /\
  fetch_data_run ascii_toLowerCase NaN (js "Polls") [] (results_page 14) = TooFewRows.
Proof. repeat split; vm_compute; reflexivity. Qed.

(** ** The lines of a block *)

Lemma match_here_newlines (prev : option N) (rest : jsstring) (y : mstate) :
  match_here false (rplus (chr 10)) prev rest = Some y ->
  exists w, rest = w ++ st_rest y /\ Forall (fun c => c = 10) w.
Proof.
  intros H. apply match_here_sound in H.
  apply re_run_lang in H as (w & Hw & Hl); [|reflexivity]. cbn [st_rest] in Hw.
  exists w. split; [exact Hw|].
  apply lang_repeat_class in Hl as (Hall & _ & _).
  eapply Forall_impl; [exact Hall|]. intros c Hc. cbv beta in Hc.
  rewrite cs_test_chr_plain in Hc. apply N.eqb_eq in Hc. by subst.
Qed.

Lemma visible_newlines (w : jsstring) : Forall (fun c => c = 10) w -> visible w = [].
Proof.
  intros H. apply visible_nil_all_ws. eapply Forall_impl; [exact H|].
  by intros c ->.
Qed.

Lemma split_loop_visible (fuel : nat) (piece : jsstring) (prev : option N) (rest : jsstring) :
  visible (concat (split_loop fuel false (rplus (chr 10)) piece prev rest)) =
  visible (piece ++ rest).
Proof.
  revert piece prev rest. induction fuel as [|fuel IH]; intros piece prev rest;
    cbn [split_loop].
  - cbn [concat]. by rewrite app_nil_r.
  - destruct rest as [|c rest]; [cbn [concat]; by rewrite app_nil_r|].
    assert (Hnext : visible (concat (split_loop fuel false (rplus (chr 10)) (piece ++ [c])
                                       (Some c) rest)) = visible (piece ++ c :: rest)).
    { rewrite IH. by rewrite <- app_assoc. }
    destruct (match_here false (rplus (chr 10)) prev (c :: rest)) as [y|] eqn:E; [|exact Hnext].
    destruct (_ && _); [exact Hnext|].
    apply match_here_newlines in E as (w & Hw & Hall).
    cbn [concat]. rewrite visible_app, IH, Hw, !visible_app.
    by rewrite (visible_newlines w Hall).
Qed.

Lemma split_lines_visible (txt : jsstring) :
  visible (concat (split_re false (rplus (chr 10)) txt)) = visible txt.
Proof.
  destruct txt as [|c txt]; [reflexivity|]. unfold split_re.
  by rewrite split_loop_visible.
Qed.

Lemma clean_pieces_visible (pieces : list jsstring) :
  visible (concat (List.filter nonempty (List.map (fun l => clean (Str l)) pieces))) =
  visible (concat pieces).
Proof.
  induction pieces as [|l pieces IH]; [reflexivity|]. cbn [List.map List.filter concat].
  rewrite visible_app, <- IH.
  change l with (or_empty (Str l)) at 3. rewrite <- (visible_clean (Str l)).
  destruct (clean (Str l)) as [|a t]; [reflexivity|].
  cbn [nonempty concat]. by rewrite visible_app.
Qed.

Lemma clean_no_newline (v : jsval) : ~ In 10 (clean v).
Proof.
  intros Hin. destruct (clean_cases v) as [s Hs]. rewrite Hs in Hin.
  assert (Hsp : spaced false (trim (collapse false s)) = true).
  { unfold trim. apply spaced_trimEnd. eapply spaced_trimStart. apply spaced_collapse. }
  apply spaced_ws_is_space in Hsp. rewrite List.Forall_forall in Hsp.
  specialize (Hsp 10 Hin eq_refl). discriminate.
Qed.

(** X16. The lines of a block lose no visible text: put together, they
    hold the non-whitespace code units of the block, in order; and every
    line is non-empty, normalized and free of line feeds. *)
Theorem clean_lines_keep_text (txt : jsstring) :
  visible (concat (clean_lines txt)) = visible txt /\
  Forall (fun line => line <> [] /\ clean (Str line) = line /\ ~ In 10 line) (clean_lines txt).
Proof.
  split.
  - unfold clean_lines. by rewrite clean_pieces_visible, split_lines_visible.
  - unfold clean_lines. apply List.Forall_forall. intros line Hin.
    apply filter_In in Hin as [Hin Hne]. apply in_map_iff in Hin as (l & <- & _).
    split; [by destruct (clean (Str l))|]. split; [apply clean_clean|apply clean_no_newline].
Qed.

(** ** The date text *)

Lemma lang_ropt (ic : bool) (r : regex) (w : jsstring) :
  lang ic (ropt r) w -> w = [] \/ lang ic r w.
Proof.
  intros (ws & -> & Hall & _ & Hhi). specialize (Hhi 1%nat eq_refl).
  destruct ws as [|x [|y ws]]; [by left| |simpl in Hhi; lia].
  right. apply Forall_cons in Hall as [Hx _]. cbn [concat]. by rewrite app_nil_r.
Qed.

Lemma ends_with_digit_app (u v : jsstring) : ends_with_digit v -> ends_with_digit (u ++ v).
Proof. intros (c & Hc & Hd). exists c. by rewrite last_app, Hc. Qed.

Lemma ends_with_digit_nil_r (u v : jsstring) :
  ends_with_digit u -> v = [] \/ ends_with_digit v -> ends_with_digit (u ++ v).
Proof. intros Hu [-> |Hv]; [by rewrite app_nil_r|by apply ends_with_digit_app]. Qed.

Lemma digits_end (ic : bool) (lo hi : nat) (w : jsstring) :
  lang ic (rrange (S lo) hi re_digit) w -> ends_with_digit w /\ starts_with_digit w.
Proof.
  intros H. apply lang_digits in H as [Hd Hlen]. split.
  - destruct (last w) as [c|] eqn:El.
    + exists c. split; [exact El|]. apply last_Some in El as (u & ->).
      apply Forall_app in Hd as [_ Hd]. by apply Forall_cons in Hd as [Hd _].
    + apply last_None in El. subst. simpl in Hlen. lia.
  - destruct w as [|c t]; [simpl in Hlen; lia|]. exists c, t.
    split; [reflexivity|]. by apply Forall_cons in Hd as [Hd _].
Qed.

Lemma lang_month (g : jsstring) :
  lang true
    (Group 1 (alts (lit (js "Jan"))
                (List.map (fun w => lit (js w))
                   ["Feb"; "Mar"; "Apr"; "May"; "Jun"; "Jul"; "Aug"; "Sep"; "Sept"; "Oct";
                    "Nov"; "Dec"]%string))) g ->
  In (ascii_toLowerCase g) month_names.
Proof.
  cbn [lang]. intros H. apply lang_alts in H as (r & Hin & Hr).
  cbn [List.map In] in Hin.
  repeat (destruct Hin as [<-|Hin];
          [apply lang_lit_icase in Hr; rewrite Hr; cbn; tauto|]).
  destruct Hin.
Qed.

Lemma lang_dateRe (w : jsstring) :
  lang true dateRe w ->
  ends_with_digit w /\
  exists mon, In mon month_names /\ startsWith (ascii_toLowerCase w) mon = true.
Proof.
  unfold dateRe. intros (g & v1 & -> & Hg & a & v2 & -> & _ & b & v3 & -> & _ &
                        d & v4 & -> & Hd & o1 & o2 & -> & Ho1 & Ho2).
  split.
  - do 3 apply ends_with_digit_app.
    apply digits_end in Hd as [Hd _].
    apply ends_with_digit_nil_r; [exact Hd|].
    apply lang_ropt in Ho1 as [-> |Ho1]; apply lang_ropt in Ho2 as [-> |Ho2].
    + by left.
    + right. cbn [app]. destruct Ho2 as (u1 & x1 & -> & _ & u2 & x2 & -> & _ & Hx).
      do 2 apply ends_with_digit_app. by apply digits_end in Hx as [Hx _].
    + right. rewrite app_nil_r.
      destruct Ho1 as (u1 & x1 & -> & _ & u2 & x2 & -> & _ & u3 & x3 & -> & _ & Hx).
      do 3 apply ends_with_digit_app. by apply digits_end in Hx as [Hx _].
    + right. apply ends_with_digit_app.
      destruct Ho2 as (u1 & x1 & -> & _ & u2 & x2 & -> & _ & Hx).
      do 2 apply ends_with_digit_app. by apply digits_end in Hx as [Hx _].
  - exists (ascii_toLowerCase g). split; [by apply lang_month|].
    unfold ascii_toLowerCase. rewrite List.map_app. apply startsWith_app.
Qed.

Lemma lang_num_date (w : jsstring) :
  lang false num_date w -> starts_with_digit w /\ In 47 w /\ ends_with_digit w.
Proof.
  unfold num_date. intros (d1 & v1 & -> & Hd1 & s & v2 & -> & Hs & d2 & o & -> & Hd2 & Ho).
  apply lang_chr in Hs as (c & -> & Hc). rewrite cs_test_chr_plain in Hc.
  apply N.eqb_eq in Hc. subst c.
  apply digits_end in Hd1 as [_ (c & t & -> & Hc)]. apply digits_end in Hd2 as [Hd2 _].
  split; [by exists c, (t ++ [47] ++ d2 ++ o)|]. split.
  - apply in_or_app. right. by left.
  - do 2 apply ends_with_digit_app. apply ends_with_digit_nil_r; [exact Hd2|].
    apply lang_ropt in Ho as [-> |(u & x & -> & _ & Hx)]; [by left|right].
    apply ends_with_digit_app. by apply digits_end in Hx as [Hx _].
Qed.

Lemma lang_numRe (w : jsstring) :
  lang false numRe w -> starts_with_digit w /\ In 47 w /\ ends_with_digit w.
Proof.
  unfold numRe. intros (b & v1 & -> & -> & nd & o & -> & Hnd & Ho). cbn [app].
  apply lang_num_date in Hnd as ((c & t & -> & Hc) & Hin & Hend).
  split; [by exists c, (t ++ o)|]. split; [apply in_or_app; by left|].
  apply ends_with_digit_nil_r; [exact Hend|].
  apply lang_ropt in Ho as [-> |(u1 & x1 & -> & _ & u2 & x2 & -> & _ & u3 & x3 & -> & _ & Hx)];
    [by left|right].
  do 3 apply ends_with_digit_app. by apply lang_num_date in Hx as (_ & _ & Hx).
Qed.

(** The text of a match is a piece of the line, in the language of the
    pattern. *)
Lemma re_match_text (ic : bool) (r : regex) (line : jsstring) (m : match_result) :
  wf_regex r = true -> re_match ic r line = Some m ->
  includes line (mr_text m) = true /\ lang ic r (mr_text m).
Proof.
  intros Hwf H. unfold re_match in H.
  apply exec_from_sound in H as (pre & Hs & _ & Hrun); [|exact Hwf].
  apply re_run_lang in Hrun as (w & Hw & Hl); [|exact Hwf].
  cbn [st_rest] in Hw. apply app_inv_tail in Hw. subst w.
  split; [|exact Hl]. rewrite Hs. apply includes_app_mid.
Qed.

Lemma extractDateText_n_shape (n : nat) (txt : jsstring) :
  extractDateText_n n txt = [] \/
  exists line, In line (take n (clean_lines txt)) /\ date_shape line (extractDateText_n n txt).
Proof.
  unfold extractDateText_n.
  destruct (first_match true dateRe (take n (clean_lines txt))) as [m|] eqn:E1.
  - right. apply first_match_some in E1 as (l1 & line & l2 & Hl & _ & Hm).
    exists line. split; [rewrite Hl; apply in_or_app; right; by left|].
    apply re_match_text in Hm as [Hin Hlang]; [|reflexivity].
    apply lang_dateRe in Hlang as [Hend Hmon]. split; [exact Hin|]. split; [exact Hend|].
    by left.
  - destruct (first_match false numRe (take n (clean_lines txt))) as [m|] eqn:E2; [|by left].
    right. apply first_match_some in E2 as (l1 & line & l2 & Hl & _ & Hm).
    exists line. split; [rewrite Hl; apply in_or_app; right; by left|].
    apply re_match_text in Hm as [Hin Hlang]; [|reflexivity].
    apply lang_numRe in Hlang as (Hst & H47 & Hend). split; [exact Hin|].
    split; [exact Hend|]. by right.
Qed.

(** X17. The date text is the empty string or a piece of one of the first
    lines of the block (8 in [fetch-data.js], 12 in [fetch-data_RTW2.js])
    that ends with a digit and either starts with a month abbreviation in
    any letter case or starts with a digit and holds a slash. *)
Theorem extractDateText_shape (txt : jsstring) :
  (FetchData.extractDateText txt = [] \/
   exists line, In line (take 8 (clean_lines txt)) /\
                date_shape line (FetchData.extractDateText txt)) /\
  (RTW2.extractDateText txt = [] \/
   exists line, In line (take 12 (clean_lines txt)) /\
                date_shape line (RTW2.extractDateText txt)).
Proof. split; apply extractDateText_n_shape. Qed.

(** ** More on the results *)

Lemma name_start_not_ws (c : N) : name_start_ok c = true -> is_ws c = false.
Proof.
  unfold name_start_ok, in_ranges. cbn [existsb fst snd]. rewrite orb_false_r.
  intros H. apply orb_prop in H as [H|H]; apply andb_prop in H as [H1 H2];
    apply N.leb_le in H1, H2; unfold is_ws, in_ranges, ws_ranges; cbn [existsb fst snd];
    decide_leb; reflexivity.
Qed.

Lemma name_start_char (c : N) : name_start_ok c = true -> name_char_ok c = true.
Proof.
  unfold name_start_ok, name_char_ok, in_ranges. cbn [existsb fst snd].
  rewrite !orb_false_r. intros H. apply orb_prop in H as [H|H]; rewrite H; [reflexivity|].
  by rewrite orb_true_r.
Qed.

Lemma name_word_chars (u : jsstring) :
  name_word_shape u -> Forall (fun a => name_char_ok a = true \/ is_ws a = true) u.
Proof.
  intros (c & t & -> & Hc & _ & Ht). constructor; [left; by apply name_start_char|].
  eapply Forall_impl; [exact Ht|]. intros a Ha. by left.
Qed.

Lemma name_shape_chars (name : jsstring) :
  name_shape name ->
  (exists c t, name = c :: t /\ name_start_ok c = true) /\
  Forall (fun a => name_char_ok a = true \/ is_ws a = true) name.
Proof.
  intros (u & more & Hu & _ & Hmore & ->). split.
  - destruct Hu as (c & t & -> & Hc & _). by exists c, (t ++ concat (List.map (fun p => fst p ++ snd p) more)).
  - apply Forall_app. split; [by apply name_word_chars|].
    induction Hmore as [|p more (_ & Hws & Hw) _ IH]; [constructor|].
    cbn [List.map concat]. rewrite !Forall_app. split; [split|exact IH].
    + eapply Forall_impl; [exact Hws|]. intros a Ha. by right.
    + by apply name_word_chars.
Qed.

Lemma clean_head (c : N) (s : jsstring) :
  is_ws c = false -> exists t, clean (Str (c :: s)) = c :: t.
Proof.
  intros Hc. rewrite clean_collapse_trim. unfold trim. cbn [trimStart]. rewrite Hc.
  rewrite trimEnd_cons. destruct (trimEnd s) as [|a t].
  - rewrite Hc. cbn [collapse]. rewrite Hc. by exists [].
  - cbn [collapse]. rewrite Hc. eauto.
Qed.

Lemma clean_name_shape (name : jsstring) : name_shape name -> choice_shape (clean (Str name)).
Proof.
  intros H. apply name_shape_chars in H as [(c & t & -> & Hc) Hall].
  split; [|split].
  - destruct (clean_head c t (name_start_not_ws c Hc)) as [t' ->]. by exists c, t'.
  - apply List.Forall_forall. intros a Ha.
    destruct (is_ws a) eqn:Hws.
    + right. destruct (clean_cases (Str (c :: t))) as [s Hs].
      assert (Hsp : spaced false (trim (collapse false s)) = true).
      { unfold trim. apply spaced_trimEnd. eapply spaced_trimStart. apply spaced_collapse. }
      apply spaced_ws_is_space in Hsp. rewrite List.Forall_forall in Hsp.
      apply Hsp; [by rewrite <- Hs|exact Hws].
    + assert (Hin : In a (visible (clean (Str (c :: t))))) by (by apply In_visible).
      rewrite visible_clean in Hin. apply In_visible in Hin as [Hin _].
      rewrite List.Forall_forall in Hall. destruct (Hall a Hin) as [Hn|Hw]; [by left|congruence].
  - apply clean_clean.
Qed.

Lemma extractResults_cap_choices (cap : nat) (txt : jsstring) :
  (0 < cap)%nat -> Forall (fun e => choice_shape (choice e)) (extractResults_cap cap txt).
Proof.
  intros Hcap. destruct (primary_entries cap txt) as [|e l] eqn:Hp.
  - rewrite extractResults_fallback by done.
    destruct (re_match false re_shorthand txt); [|constructor].
    destruct (Number _); try constructor. destruct (Number _); try constructor.
    + split; [by exists 65, []|]. split; [repeat constructor|reflexivity].
    + constructor; [|constructor].
      split; [by exists 66, []|]. split; [repeat constructor|reflexivity].
  - rewrite extractResults_primary by (done || congruence).
    eapply Forall_impl; [apply primary_entries_ok|].
    intros e' (_ & _ & (pre & name & sp & num & sp2 & post & _ & Hname & _ & _ & _ & _ & Hch & _)).
    rewrite Hch. by apply clean_name_shape.
Qed.

(** X18. Every choice among the results starts with a Basic Latin
    letter, holds only letters, periods, apostrophes, hyphens and single
    spaces, and is normalized. *)
Theorem choices_are_names (txt : jsstring) :
  Forall (fun e => choice_shape (choice e)) (FetchData.extractResults txt) /\
  Forall (fun e => choice_shape (choice e)) (RTW2.extractResults txt).
Proof. split; apply extractResults_cap_choices; lia. Qed.

Lemma extractResults_cap_take (cap : nat) (txt : jsstring) (e : result_entry)
    (es : list result_entry) :
  (2 <= cap)%nat ->
  omap entry_of (scan (S (length txt)) None txt) = e :: es ->
  extractResults_cap cap txt = take cap (e :: es).
Proof.
  intros Hcap E. rewrite extractResults_primary.
  - unfold primary_entries. by rewrite E.
  - lia.
  - unfold primary_entries. rewrite E. destruct cap; [lia|]. discriminate.
Qed.

(** X19. The two files extract the same results up to their caps: the
    results of [fetch-data.js] are the first 10 results of
    [fetch-data_RTW2.js]. *)
Theorem results_agree_up_to_cap (txt : jsstring) :
  FetchData.extractResults txt = take 10 (RTW2.extractResults txt).
Proof.
  unfold FetchData.extractResults, RTW2.extractResults.
  destruct (omap entry_of (scan (S (length txt)) None txt)) as [|e es] eqn:E.
  - assert (H10 : primary_entries 10 txt = []) by (unfold primary_entries; by rewrite E).
    assert (H12 : primary_entries 12 txt = []) by (unfold primary_entries; by rewrite E).
    rewrite (extractResults_fallback 10), (extractResults_fallback 12) by (done || lia).
    destruct (re_match false re_shorthand txt); [|reflexivity].
    destruct (Number _); try reflexivity. destruct (Number _); reflexivity.
  - rewrite (extractResults_cap_take 10 txt e es), (extractResults_cap_take 12 txt e es)
      by (lia || done).
    rewrite take_take. reflexivity.
Qed.

Lemma pct_literal_digit (w : jsstring) : pct_literal w -> exists c, In c w /\ is_digit c = true.
Proof.
  intros (ds & fs & Hds & Hlen & _ & H).
  destruct ds as [|c ds]; [simpl in Hlen; lia|]. apply Forall_cons in Hds as [Hc _].
  exists c. split; [|exact Hc]. destruct H as [[-> _]|[_ ->]]; by left.
Qed.

Lemma no_digit_not_in (txt u v w : jsstring) (c : N) :
  Forall (fun a => is_digit a = false) txt -> txt = u ++ v ++ w ->
  In c v -> is_digit c = true -> False.
Proof.
  intros Hall -> Hin Hc. rewrite List.Forall_forall in Hall.
  rewrite (Hall c) in Hc; [discriminate|]. apply in_or_app. right. apply in_or_app. by left.
Qed.

(** X20. A text without a digit gives no result, in either file. *)
Theorem no_digit_no_result (txt : jsstring) :
  Forall (fun c => is_digit c = false) txt ->
  FetchData.extractResults txt = [] /\ RTW2.extractResults txt = [].
Proof.
  intros Hall.
  assert (H : forall cap, (0 < cap)%nat -> extractResults_cap cap txt = []).
  { intros cap Hcap.
    assert (Hp : primary_entries cap txt = []).
    { destruct (primary_entries cap txt) as [|e l] eqn:E; [reflexivity|]. exfalso.
      pose proof (primary_entries_ok cap txt) as Hok. rewrite E in Hok.
      apply Forall_cons in Hok as [(_ & _ & Hocc) _].
      destruct Hocc as (pre & name & sp & num & sp2 & post & Htxt & _ & _ & _ & Hnum & _).
      apply pct_literal_digit in Hnum as (c & Hin & Hc).
      apply (no_digit_not_in txt (pre ++ name ++ sp) num (sp2 ++ 37 :: post) c); try done.
      by rewrite Htxt, <- !app_assoc. }
    rewrite extractResults_fallback by done.
    destruct (re_match false re_shorthand txt) as [m2|] eqn:E; [|reflexivity]. exfalso.
    apply match_shorthand_sound in E
      as (pre & a & sp & dash & sp2 & b & Htxt & Ha & _).
    apply pct_literal_digit in Ha as (c & Hin & Hc).
    by apply (no_digit_not_in txt pre a (sp ++ dash ++ sp2 ++ b ++ st_rest (mr_end m2)) c). }
  split; apply H; lia.
Qed.

Lemma no_digit_no_result_witness :
  Forall (fun c => is_digit c = false) (js "Too close to call") /\
  FetchData.extractResults (js "Too close to call") = [] /\
  RTW2.extractResults (js "Too close to call") = [].
Proof.
  assert (H : Forall (fun c => is_digit c = false) (js "Too close to call"))
    by (repeat constructor).
  split; [exact H|]. exact (no_digit_no_result (js "Too close to call") H).
Defined.

(** ** Anchors and blocks *)

Lemma walk_up_nearest (d : document) (ok : jsstring -> bool) (n : nat) (a e : elem) :
  walk_up d ok n (Some a) = Some e <-> nearest_block d ok n a e.
Proof.
  revert a. induction n as [|n IH]; intros a.
  - split; [discriminate|]. intros (k & Hk & _). lia.
  - cbn [walk_up]. destruct (ok (trim (or_empty (innerText d a)))) eqn:Hok.
    + split.
      * intros [= <-]. exists 0%nat. repeat split; try done; try lia.
      * intros (k & _ & Hanc & _ & Hfirst). destruct k as [|k].
        -- by injection Hanc as ->.
        -- destruct (Hfirst 0%nat) as (e' & [= <-] & Hno); [lia|]. congruence.
    + destruct (parentElement d a) as [p|] eqn:Hp.
      * rewrite IH. split.
        -- intros (k & Hk & Hanc & Hyes & Hfirst). exists (S k).
           split; [lia|]. split; [cbn [ancestor]; by rewrite Hp|]. split; [exact Hyes|].
           intros [|j] Hj; [by exists a|].
           destruct (Hfirst j) as (e' & He' & Hno); [lia|]. exists e'.
           split; [cbn [ancestor]; by rewrite Hp|exact Hno].
        -- intros (k & Hk & Hanc & Hyes & Hfirst). destruct k as [|k].
           { injection Hanc as ->. congruence. }
           cbn [ancestor] in Hanc. rewrite Hp in Hanc. exists k.
           split; [lia|]. split; [exact Hanc|]. split; [exact Hyes|].
           intros j Hj. destruct (Hfirst (S j)) as (e' & He' & Hno); [lia|].
           cbn [ancestor] in He'. rewrite Hp in He'. by exists e'.
      * destruct n; cbn [walk_up]; (split; [discriminate|]);
          intros (k & Hk & Hanc & Hyes & Hfirst); (destruct k as [|k];
          [injection Hanc as ->; congruence|cbn [ancestor] in Hanc; by rewrite Hp in Hanc]).
Qed.

Lemma ancestor_below (d : document) (j k : nat) (a e : elem) :
  (j < k)%nat -> ancestor d k a = Some e -> exists e', ancestor d j a = Some e'.
Proof.
  revert a k. induction j as [|j IH]; intros a k Hj Hanc; [by exists a|].
  destruct k as [|k]; [lia|]. cbn [ancestor] in *.
  destruct (parentElement d a) as [p|]; [|discriminate]. apply (IH p k); (lia || done).
Qed.

Lemma walk_up_none (d : document) (ok : jsstring -> bool) (n : nat) (a : elem) :
  walk_up d ok n (Some a) = None <->
  forall k e, (k < n)%nat -> ancestor d k a = Some e ->
              ok (trim (or_empty (innerText d e))) = false.
Proof.
  split.
  - intros Hnone k. induction k as [k IHk] using lt_wf_ind. intros e Hk Hanc.
    destruct (ok (trim (or_empty (innerText d e)))) eqn:Hok; [|reflexivity].
    exfalso.
    assert (Hn : nearest_block d ok n a e).
    { exists k. repeat split; try done. intros j Hj.
      destruct (ancestor_below d j k a e Hj Hanc) as [e' He'].
      exists e'. split; [exact He'|]. apply (IHk j Hj e'); [lia|exact He']. }
    apply walk_up_nearest in Hn. congruence.
  - intros Hall. destruct (walk_up d ok n (Some a)) as [e|] eqn:E; [|reflexivity].
    apply walk_up_nearest in E as (k & Hk & Hanc & Hyes & _).
    rewrite (Hall k e Hk Hanc) in Hyes. discriminate.
Qed.

(** X21. The block of an anchor is the nearest of the anchor and its
    ancestors whose trimmed text passes the block test, looking at the
    anchor and 7 levels above it in [fetch-data.js], 9 in
    [fetch-data_RTW2.js]; there is none exactly when none of them passes. *)
Theorem block_is_nearest_ancestor (toLowerCase : jsstring -> jsstring) (d : document)
    (a : elem) :
  (forall e, walk_up d FetchData.block_ok 8 (Some a) = Some e <->
             nearest_block d FetchData.block_ok 8 a e) /\
  (forall e, walk_up d (RTW2.isLikelyPollBlock toLowerCase) 10 (Some a) = Some e <->
             nearest_block d (RTW2.isLikelyPollBlock toLowerCase) 10 a e) /\
  (walk_up d FetchData.block_ok 8 (Some a) = None <->
   forall k e, (k < 8)%nat -> ancestor d k a = Some e ->
               FetchData.block_ok (trim (or_empty (innerText d e))) = false) /\
  (walk_up d (RTW2.isLikelyPollBlock toLowerCase) 10 (Some a) = None <->
   forall k e, (k < 10)%nat -> ancestor d k a = Some e ->
               RTW2.isLikelyPollBlock toLowerCase (trim (or_empty (innerText d e))) = false).
Proof.
  split; [intros e; apply walk_up_nearest|]. split; [intros e; apply walk_up_nearest|].
  split; apply walk_up_none.
Qed.

Lemma blocks_loop_urls (toLowerCase : jsstring -> jsstring) (d : document) (MAX_POLLS : nat)
    (anchors : list elem) (blocks : list poll) :
  exists more,
    FetchData.blocks_loop toLowerCase d MAX_POLLS anchors blocks = blocks ++ more /\
    List.map url more `sublist_of` List.map (href d) anchors.
Proof.
  revert blocks. induction anchors as [|a anchors IH]; intros blocks;
    cbn [FetchData.blocks_loop List.map].
  - exists []. by rewrite app_nil_r.
  - assert (Hskip : exists more,
              FetchData.blocks_loop toLowerCase d MAX_POLLS anchors blocks = blocks ++ more /\
              List.map url more `sublist_of` href d a :: List.map (href d) anchors).
    { destruct (IH blocks) as (more & -> & Hsub). exists more. split; [done|].
      by apply sublist_cons. }
    destruct (walk_up d _ 8 (Some a)) as [chosen|]; [|exact Hskip].
    destruct (_ && _); [exact Hskip|].
    match goal with |- context [blocks ++ [?p]] => set (p0 := p) end.
    destruct (_ <=? _)%nat.
    + exists [p0]. split; [done|]. cbn [List.map]. apply sublist_skip, sublist_nil_l.
    + destruct (IH (blocks ++ [p0])) as (more & -> & Hsub). exists (p0 :: more).
      split; [by rewrite <- app_assoc|]. cbn [List.map]. by apply sublist_skip.
Qed.

(** X22. [fetch-data.js] makes at most one record for each external
    anchor, in document order: the urls of its records are a subsequence
    of the hrefs of the external anchors of the page. *)
Theorem one_record_per_anchor (toLowerCase : jsstring -> jsstring) (d : document)
    (MAX_POLLS : nat) :
  List.map url (FetchData.page_evaluate toLowerCase d MAX_POLLS) `sublist_of`
  List.map (href d)
    (List.filter (fun a => FetchData.isExternalPollUrl toLowerCase (getAttribute_href d a))
       (doc_anchors d)).
Proof.
  unfold FetchData.page_evaluate.
  match goal with |- context [FetchData.blocks_loop _ _ _ ?l _] =>
    destruct (blocks_loop_urls toLowerCase d MAX_POLLS l []) as (more & -> & Hsub) end.
  exact Hsub.
Qed.

Lemma anchors_loop_blocks (toLowerCase : jsstring -> jsstring) (d : document)
    (MAX_POLLS : nat) (anchors : list elem) (seenEl : gset elem) (blocks : list poll) :
  (length (RTW2.anchors_loop toLowerCase d MAX_POLLS anchors seenEl blocks)
   <= length blocks + size (list_to_set (blocks_of toLowerCase d anchors) ∖ seenEl))%nat.
Proof.
  revert seenEl blocks. induction anchors as [|a anchors IH]; intros seenEl blocks;
    cbn [RTW2.anchors_loop]; [lia|].
  unfold blocks_of. rewrite omap_cons_eq. fold (blocks_of toLowerCase d anchors).
  destruct (walk_up d _ 10 (Some a)) as [chosen|]; [|apply IH].
  cbn [list_to_set].
  set (S' := list_to_set (blocks_of toLowerCase d anchors) : gset elem).
  assert (Hmono : (size (S' ∖ seenEl) <= size (({[chosen]} ∪ S') ∖ seenEl))%nat).
  { apply subseteq_size. set_solver. }
  assert (Hnew : chosen ∉ seenEl ->
            (S (size (S' ∖ ({[chosen]} ∪ seenEl))) <= size (({[chosen]} ∪ S') ∖ seenEl))%nat).
  { intros Hc.
    assert (Heq : ({[chosen]} ∪ S') ∖ seenEl = {[chosen]} ∪ S' ∖ ({[chosen]} ∪ seenEl)).
    { apply set_eq. intros x. rewrite !elem_of_union, !elem_of_difference, !elem_of_union,
        !elem_of_singleton. destruct (decide (x = chosen)) as [->|]; tauto. }
    rewrite Heq, (size_union {[chosen]} (S' ∖ ({[chosen]} ∪ seenEl))) by set_solver.
    rewrite size_singleton. lia. }
  case_bool_decide as Hc.
  - specialize (IH seenEl blocks). fold S' in IH. lia.
  - specialize (Hnew Hc).
    destruct (length _ =? 0)%nat.
    + specialize (IH ({[chosen]} ∪ seenEl) blocks). fold S' in IH. lia.
    + match goal with |- context [blocks ++ [?p]] => set (blocks1 := blocks ++ [p]) end.
      assert (Hl : length blocks1 = S (length blocks)).
      { subst blocks1. rewrite length_app. simpl. lia. }
      destruct (_ <=? _)%nat; [lia|].
      specialize (IH ({[chosen]} ∪ seenEl) blocks1). fold S' in IH. lia.
Qed.

(** X23. The anchor pass of [fetch-data_RTW2.js] makes at most one record
    for each block: it returns no more records than there are distinct
    blocks reached from the anchors it looks at. *)
Theorem one_record_per_block (toLowerCase : jsstring -> jsstring) (d : document)
    (MAX_POLLS : nat) (anchors : list elem) :
  (length (RTW2.anchors_loop toLowerCase d MAX_POLLS anchors ∅ [])
   <= size (list_to_set (blocks_of toLowerCase d anchors) : gset elem))%nat.
Proof.
  pose proof (anchors_loop_blocks toLowerCase d MAX_POLLS anchors ∅ []) as H.
  cbn [length] in H. rewrite difference_empty_L in H. exact H.
Qed.

(** ** The row limit *)

Lemma floor_log2_int (n : Z) : (0 < n)%Z -> floor_log2 n 1 = Z.log2 n.
Proof.
  intros Hn. unfold floor_log2. change (Z.log2 (Z.pos 1)) with 0%Z. rewrite Z.sub_0_r.
  pose proof (Z.log2_nonneg n) as Hl.
  replace (0 <=? Z.log2 n)%Z with true by (symmetry; apply Z.leb_le; lia).
  replace (Z.pos 1 * 2 ^ Z.log2 n <=? n)%Z with true; [reflexivity|].
  symmetry. apply Z.leb_le. pose proof (Z.log2_spec n Hn). lia.
Qed.

Lemma round_half_even_int (n : Z) : round_half_even n 1 = n.
Proof.
  unfold round_half_even. rewrite Z.mod_1_r, Z.div_1_r. reflexivity.
Qed.

Lemma Qred_int (n : Z) : Qred (Qmake n 1) = Qmake n 1.
Proof.
  pose proof (Qred_correct (Qmake n 1)) as Hc. pose proof (gcd_Qred (Qmake n 1)) as Hg.
  destruct (Qred (Qmake n 1)) as [a b]. unfold Qeq in Hc. cbn [Qnum Qden] in Hc, Hg.
  rewrite Z.mul_1_r in Hc. subst a.
  rewrite Z.gcd_comm, Z.mul_comm, Z.gcd_mul_diag_l in Hg by lia.
  injection Hg as ->. by rewrite Z.mul_1_r.
Qed.

(** A non-negative integer below 2^53 is a double. *)
Lemma to_double_int (n : Z) : (0 <= n < 2 ^ 53)%Z -> to_double (Qmake n 1) = Fin (Qmake n 1).
Proof.
  intros [H0 H53]. unfold to_double. cbn [Qnum Qden].
  destruct (Z.leb_spec n 0) as [Hn|Hn]; [by replace n with 0%Z by lia|].
  rewrite floor_log2_int by lia.
  assert (Hl : (0 <= Z.log2 n < 53)%Z).
  { split; [apply Z.log2_nonneg|]. apply Z.log2_lt_pow2; lia. }
  destruct (Z.max_spec (Z.log2 n - 52) (-1074)) as [[Hm ->]|[Hm ->]]; [lia|].
  destruct (Z.leb_spec 0 (Z.log2 n - 52)) as [He|He].
  - replace (Z.log2 n - 52)%Z with 0%Z by lia. cbn [Z.pow Z.to_pos Pos.mul].
    rewrite round_half_even_int, Z.mul_1_r.
    replace (2 ^ 1024 <=? n)%Z with false; [reflexivity|].
    symmetry. apply Z.leb_gt. eapply Z.lt_le_trans; [exact H53|].
    apply Z.pow_le_mono_r; lia.
  - rewrite round_half_even_int. f_equal.
    set (k := (- (Z.log2 n - 52))%Z).
    assert (Hk : (0 < 2 ^ k)%Z) by (apply Z.pow_pos_nonneg; lia).
    rewrite <- (Qred_int n).
    apply Qred_complete. unfold Qeq. cbn [Qnum Qden]. rewrite Z2Pos.id by exact Hk. lia.
Qed.

Lemma span_digits_all (ds : jsstring) : all_digits ds -> span_digits ds = (ds, []).
Proof.
  intros H. rewrite <- (app_nil_r ds) at 1. by apply span_digits_app.
Qed.

Lemma trim_digits (ds : jsstring) : all_digits ds -> trim ds = ds.
Proof.
  intros H. destruct ds as [|c ds]; [reflexivity|].
  unfold trim. rewrite trimStart_id.
  - apply trimEnd_id. unfold ends_with_ws.
    assert (Hr : all_digits (rev (c :: ds))) by (by apply all_digits_rev).
    destruct (rev (c :: ds)) as [|a t] eqn:E; [reflexivity|].
    apply Forall_cons in Hr as [Ha _]. simpl. by apply is_digit_not_ws.
  - apply Forall_cons in H as [Hc _]. simpl. by apply is_digit_not_ws.
Qed.

Lemma Number_digits (ds : jsstring) :
  all_digits ds -> (1 <= length ds <= 15)%nat ->
  Number (Str ds) = Fin (Qmake (digits_value 0 ds) 1) /\
  (0 <= digits_value 0 ds < 10 ^ 15)%Z.
Proof.
  intros Hd Hlen.
  assert (Hb : (0 <= digits_value 0 ds < 10 ^ 15)%Z).
  { pose proof (digits_value_bounds 0 ds Hd (Z.le_refl 0)) as [H1 H2].
    split; [lia|]. eapply Z.lt_le_trans; [exact H2|].
    rewrite Z.add_0_l, Z.mul_1_l. apply Z.pow_le_mono_r; lia. }
  split; [|exact Hb].
  unfold Number. rewrite trim_digits by done.
  destruct ds as [|c ds]; [simpl in Hlen; lia|].
  unfold decimal_value. rewrite span_digits_all by done.
  apply to_double_int. split; [lia|]. eapply Z.lt_trans; [apply Hb|]. reflexivity.
Qed.

(** X24. The row limit is 600 when [MAX_POLLS] is unset or empty, and the
    number written when it is set to 1 to 15 decimal digits. *)
Theorem row_limit_of_env :
  MAX_POLLS_of_env None = Fin 600 /\
  MAX_POLLS_of_env (Some []) = Fin 600 /\
  (forall ds : jsstring,
     all_digits ds -> (1 <= length ds <= 15)%nat ->
     MAX_POLLS_of_env (Some ds) = Fin (Qmake (digits_value 0 ds) 1)).
Proof.
  split; [reflexivity|]. split; [reflexivity|].
  intros ds Hd Hlen. destruct ds as [|c ds]; [simpl in Hlen; lia|].
  cbn [MAX_POLLS_of_env]. by apply Number_digits.
Qed.

Lemma slice0_num_nat {A : Type} (n : nat) (l : list A) :
  slice0_num (Fin (Qmake (Z.of_nat n) 1)) l = take n l.
Proof.
  unfold slice0_num, truncate. cbn [Qnum Qden]. rewrite Z.quot_1_r.
  replace (0 <=? Z.of_nat n)%Z with true by (symmetry; apply Z.leb_le; lia).
  by rewrite Nat2Z.id.
Qed.

Lemma truncate_small (q : Q) : (0 <= q)%Q -> (q < 10)%Q -> (0 <= truncate q < 10)%Z.
Proof.
  destruct q as [n d]. unfold Qle, Qlt, truncate. cbn [Qnum Qden]. intros H0 H10.
  rewrite Z.mul_1_r in H0. rewrite Z.mul_1_r in H10.
  rewrite Z.quot_div_nonneg by lia. split.
  - apply Z.div_pos; lia.
  - apply Z.div_lt_upper_bound; lia.
Qed.

(** X25. The end of [run] with a row limit that is any Number: with a
    limit that is not a number, or a number from 0 up to but not
    including 10, the run fails for too few rows whatever the page gave;
    a negative limit drops that many rows from the end instead; for a
    limit that is a natural number this is [run] of either file. *)
Theorem row_limit_edge_cases (toLowerCase : jsstring -> jsstring) :
  (forall polls : list poll, finish NaN polls = None) /\
  (forall (q : Q) (polls : list poll),
     (0 <= q)%Q -> (q < 10)%Q -> finish (Fin q) polls = None) /\
  (forall (k : positive) (polls : list poll),
     slice0_num (Fin (Qmake (Zneg k) 1)) (dedupe polls) =
     take (length (dedupe polls) - Pos.to_nat k) (dedupe polls)) /\
  (forall (n : nat) (d : document),
     FetchData.run toLowerCase d n =
     finish (Fin (Qmake (Z.of_nat n) 1)) (FetchData.page_evaluate toLowerCase d n)) /\
  (forall (n : nat) (frames : list frame),
     RTW2.run toLowerCase n frames =
     finish (Fin (Qmake (Z.of_nat n) 1)) (RTW2.frames_loop toLowerCase n frames [])).
Proof.
  split; [reflexivity|]. split; [|split; [|split]].
  - intros q polls H0 H10. unfold finish, slice0_num.
    destruct (truncate_small q H0 H10) as [Hk0 Hk10].
    replace (0 <=? truncate q)%Z with true by (symmetry; apply Z.leb_le; lia).
    destruct (Nat.ltb_spec (length (take (Z.to_nat (truncate q)) (dedupe polls))) 10) as [|H];
      [reflexivity|].
    rewrite length_take in H. lia.
  - intros k polls. unfold slice0_num, truncate. cbn [Qnum Qden]. rewrite Z.quot_1_r.
    change (0 <=? Z.neg k)%Z with false. change (- Z.neg k)%Z with (Z.pos k).
    cbv beta iota. by rewrite Z2Nat.inj_pos.
  - intros n d. unfold FetchData.run, FetchData.out_polls, finish.
    by rewrite slice0_num_nat.
  - intros n frames. unfold RTW2.run, RTW2.out_polls, finish.
    by rewrite slice0_num_nat.
Qed.

(** ** The two passes over a frame *)

Lemma containers_loop_prefix (toLowerCase : jsstring -> jsstring) (d : document)
    (MAX_POLLS : nat) (elems : list elem) (blocks : list poll) :
  Forall (fun el => In el (doc_containers d)) elems ->
  exists more,
    RTW2.containers_loop toLowerCase d MAX_POLLS elems blocks = blocks ++ more /\
    Forall (from_container toLowerCase d) more.
Proof.
  intros Hall. revert blocks. induction Hall as [|el elems Hel Hall IH]; intros blocks;
    cbn [RTW2.containers_loop].
  - exists []. by rewrite app_nil_r.
  - destruct (RTW2.isLikelyPollBlock _ _) eqn:Hl; cbn [negb]; [|apply IH].
    destruct (length _ =? 0)%nat eqn:Hlen; [apply IH|].
    apply length_eqb_0_false in Hlen.
    match goal with |- context [blocks ++ [?p]] => set (p0 := p) end.
    assert (Hp : from_container toLowerCase d p0) by (exists el; eauto).
    destruct (_ <=? _)%nat.
    + exists [p0]. split; [done|]. by constructor.
    + destruct (IH (blocks ++ [p0])) as (more & -> & Hmore). exists (p0 :: more).
      split; [by rewrite <- app_assoc|]. by constructor.
Qed.

(** X26. A frame is read in two passes: the records of the anchor pass
    come first and are kept as they are; the container pass adds its
    records after them, and adds none when the anchor pass gave 5 records
    or more. *)
Theorem frame_passes (toLowerCase : jsstring -> jsstring) (MAX_POLLS : nat) (d : document) :
  exists first more : list poll,
    first = RTW2.anchors_loop toLowerCase d MAX_POLLS
              (List.filter (fun a => negb (RTW2.isNoiseHref toLowerCase (getAttribute_href d a)))
                 (List.filter (fun a => negb (in_header_nav_footer d a)) (doc_anchors d)))
              ∅ [] /\
    RTW2.in_frame toLowerCase MAX_POLLS d = first ++ more /\
    Forall (from_anchor toLowerCase d) first /\
    Forall (from_container toLowerCase d) more /\
    ((5 <= length first)%nat -> more = []).
Proof.
  unfold RTW2.in_frame.
  match goal with |- context [RTW2.anchors_loop _ _ _ ?l _ _] => set (anchors := l) end.
  set (first := RTW2.anchors_loop toLowerCase d MAX_POLLS anchors ∅ []).
  exists first.
  assert (Hfirst : Forall (from_anchor toLowerCase d) first).
  { apply anchors_loop_inv; [done| |constructor].
    apply List.Forall_forall. intros a Ha. subst anchors.
    apply filter_In in Ha as [Ha _]. by apply filter_In in Ha as [? _]. }
  destruct (Nat.ltb_spec (length first) 5) as [Hlt|Hge].
  - match goal with |- context [RTW2.containers_loop _ _ _ ?l _] =>
      destruct (containers_loop_prefix toLowerCase d MAX_POLLS l first) as (more & Hmore & Hall)
    end.
    { apply List.Forall_forall. intros el Hel.
      apply list_elem_of_In, elem_of_take in Hel as (i & Hel & _).
      apply list_elem_of_lookup_2, list_elem_of_In in Hel.
      by apply filter_In in Hel as [? _]. }
    exists more. split; [reflexivity|]. split; [exact Hmore|]. split; [exact Hfirst|].
    split; [exact Hall|]. intros H5. lia.
  - exists []. split; [reflexivity|]. split; [by rewrite app_nil_r|]. split; [exact Hfirst|].
    split; [constructor|done].
Qed.

(** ** Choices and the block text *)

Lemma collapse_app_nonws (b : bool) (u : jsstring) (c : N) (v : jsstring) :
  is_ws c = false -> collapse b (u ++ c :: v) = collapse b u ++ c :: collapse false v.
Proof.
  intros Hc. revert b. induction u as [|a u IH]; intros b; cbn [app collapse].
  - by rewrite Hc.
  - destruct (is_ws a); [destruct b|]; by rewrite IH.
Qed.

Lemma collapse_solid (s : jsstring) : solid s -> solid (collapse false s).
Proof.
  intros [(c & t & -> & Hc) (w & z & Hw & Hz)]. split.
  - cbn [collapse]. rewrite Hc. eauto.
  - rewrite Hw. rewrite (collapse_app_nonws false w z [] Hz). cbn [collapse].
    by exists (collapse false w), z.
Qed.

Lemma collapse_around_solid (b : bool) (pre s post : jsstring) :
  solid s ->
  collapse b (pre ++ s ++ post) = collapse b pre ++ collapse false s ++ collapse false post.
Proof.
  intros [(c & t & -> & Hc) (w & z & Hw & Hz)].
  cbn [app]. rewrite (collapse_app_nonws b pre c (t ++ post) Hc). f_equal.
  cbn [collapse]. rewrite Hc. cbn [app]. f_equal.
  destruct w as [|c' w'].
  - injection Hw as -> ->. reflexivity.
  - injection Hw as -> ->. rewrite <- app_assoc. cbn [app].
    rewrite (collapse_app_nonws false w' z post Hz), (collapse_app_nonws false w' z [] Hz).
    cbn [collapse]. by rewrite <- app_assoc.
Qed.

Lemma trimStart_keeps (A C B : jsstring) :
  (exists c t, C = c :: t /\ is_ws c = false) ->
  exists A', trimStart (A ++ C ++ B) = A' ++ C ++ B.
Proof.
  intros (c & t & -> & Hc). induction A as [|a A IH].
  - exists []. cbn [app trimStart]. by rewrite Hc.
  - cbn [app trimStart]. destruct (is_ws a); [exact IH|]. by exists (a :: A).
Qed.

Lemma trim_keeps (A C B : jsstring) : solid C -> exists A' B', trim (A ++ C ++ B) = A' ++ C ++ B'.
Proof.
  intros [Hhead (w & z & Hw & Hz)]. unfold trim.
  destruct (trimStart_keeps A C B Hhead) as [A' ->]. unfold trimEnd.
  rewrite !rev_app_distr.
  destruct (trimStart_keeps (rev B) (rev C) (rev A')) as [B' HB].
  { exists z, (rev w). split; [|exact Hz]. rewrite Hw, rev_app_distr. reflexivity. }
  rewrite <- app_assoc, HB. exists A', (rev B').
  by rewrite !rev_app_distr, !rev_involutive, <- app_assoc.
Qed.

Lemma clean_solid (s : jsstring) : solid s -> clean (Str s) = collapse false s.
Proof.
  intros Hs. rewrite clean_collapse. pose proof (collapse_solid s Hs) as [(c & t & E & Hc) (w & z & Ew & Hz)].
  unfold trim. rewrite trimStart_id by (rewrite E; simpl; exact Hc).
  apply trimEnd_id. unfold ends_with_ws. rewrite Ew, rev_app_distr. simpl. exact Hz.
Qed.

Lemma clean_includes_solid (pre s post : jsstring) :
  solid s -> includes (clean (Str (pre ++ s ++ post))) (clean (Str s)) = true.
Proof.
  intros Hs. rewrite (clean_solid s Hs), clean_collapse, (collapse_around_solid false pre s post Hs).
  destruct (trim_keeps (collapse false pre) (collapse false s) (collapse false post))
    as (A' & B' & ->); [by apply collapse_solid|].
  apply includes_app_mid.
Qed.

Lemma name_char_not_ws (c : N) : name_char_ok c = true -> is_ws c = false.
Proof.
  unfold name_char_ok, in_ranges. cbn [existsb fst snd]. rewrite orb_false_r.
  intros H.
  repeat (apply orb_prop in H as [H|H]);
    apply andb_prop in H as [H1 H2]; apply N.leb_le in H1, H2;
    unfold is_ws, in_ranges, ws_ranges; cbn [existsb fst snd]; decide_leb; reflexivity.
Qed.

Lemma name_word_last (u : jsstring) :
  name_word_shape u -> exists w z, u = w ++ [z] /\ name_char_ok z = true.
Proof.
  intros (c & t & -> & _ & Hne & Ht).
  destruct (exists_last Hne) as (t' & z & ->).
  apply Forall_app in Ht as [_ Hz]. apply Forall_cons in Hz as [Hz _].
  by exists (c :: t'), z.
Qed.

Lemma name_shape_solid (name : jsstring) : name_shape name -> solid name.
Proof.
  intros Hn. split.
  - apply name_shape_chars in Hn as [(c & t & -> & Hc) _].
    exists c, t. split; [reflexivity|]. by apply name_start_not_ws.
  - destruct Hn as (u & more & Hu & _ & Hmore & ->).
    destruct more as [|p more] using rev_ind.
    + cbn [List.map concat]. rewrite app_nil_r.
      apply name_word_last in Hu as (w & z & -> & Hz). exists w, z.
      split; [reflexivity|]. by apply name_char_not_ws.
    + apply Forall_app in Hmore as [_ Hp]. apply Forall_cons in Hp as [(_ & _ & Hw) _].
      apply name_word_last in Hw as (w & z & Hw & Hz).
      destruct p as [sp word]. cbn [snd] in Hw. subst word.
      rewrite List.map_app, concat_app. cbn [List.map concat fst snd]. rewrite app_nil_r.
      exists (u ++ concat (List.map (fun p0 => fst p0 ++ snd p0) more) ++ sp ++ w), z.
      split; [by rewrite <- !app_assoc|]. by apply name_char_not_ws.
Qed.

Lemma extractResults_cap_in_text (cap : nat) (txt : jsstring) :
  (0 < cap)%nat -> Forall (choice_in_text (clean (Str txt))) (extractResults_cap cap txt).
Proof.
  intros Hcap. destruct (primary_entries cap txt) as [|e l] eqn:Hp.
  - rewrite extractResults_fallback by done.
    destruct (re_match false re_shorthand txt); [|constructor].
    destruct (Number _); try constructor. destruct (Number _); try constructor.
    + right. by left.
    + constructor; [|constructor]. right. by right.
  - rewrite extractResults_primary by (done || congruence).
    eapply Forall_impl; [apply primary_entries_ok|].
    intros e' (_ & _ & (pre & name & sp & num & sp2 & post & Htxt & Hname & _ & _ & _ & _ & Hch & _)).
    left. rewrite Hch, Htxt. apply clean_includes_solid. by apply name_shape_solid.
Qed.

(** X27. The choices of a record are read in its block text: every
    choice found by the primary pattern occurs, as it stands, in the
    normalized text of the block, the only other choices being the
    placeholders A and B of the shorthand. *)
Theorem choices_occur_in_block_text (toLowerCase : jsstring -> jsstring) (MAX_POLLS : nat)
    (d : document) :
  (forall txt : jsstring,
     Forall (choice_in_text (clean (Str txt))) (FetchData.extractResults txt) /\
     Forall (choice_in_text (clean (Str txt))) (RTW2.extractResults txt) /\
     Forall (fun e => includes (clean (Str txt)) (choice e) = true) (primary_entries 10 txt) /\
     Forall (fun e => includes (clean (Str txt)) (choice e) = true) (primary_entries 12 txt)) /\
  Forall (fun p => Forall (choice_in_text (results_text p)) (results p))
         (FetchData.page_evaluate toLowerCase d MAX_POLLS) /\
  Forall (fun p => Forall (choice_in_text (results_text p)) (results p))
         (RTW2.in_frame toLowerCase MAX_POLLS d).
Proof.
  assert (Hprim : forall cap txt,
            Forall (fun e => includes (clean (Str txt)) (choice e) = true)
                   (primary_entries cap txt)).
  { intros cap txt. eapply Forall_impl; [apply primary_entries_ok|].
    intros e' (_ & _ & (pre & name & sp & num & sp2 & post & Htxt & Hname & _ & _ & _ & _ & Hch & _)).
    rewrite Hch, Htxt. apply clean_includes_solid. by apply name_shape_solid. }
  split; [|split].
  - intros txt. split; [apply extractResults_cap_in_text; lia|].
    split; [apply extractResults_cap_in_text; lia|]. split; apply Hprim.
  - eapply Forall_impl; [apply page_evaluate_records|].
    intros p (a & chosen & _ & _ & _ & ->). cbn [results_text results].
    apply extractResults_cap_in_text. lia.
  - eapply Forall_impl; [apply in_frame_assembled|].
    intros p [(a & chosen & _ & _ & _ & ->)|(el & _ & _ & _ & ->)];
      unfold RTW2.make_poll; cbn [results_text results];
      apply extractResults_cap_in_text; lia.
Qed.

(** ** The label pattern of [fetch-data_RTW2.js], run on a normalized line *)












(** *** Normalized lines *)








(** *** The pattern after the label: [\s*:?\s*(.+)$] *)






(** *** The whole pattern on a normalized line *)








(** ** [fetch-data.js]: a match of the pattern shows a label *)





(** ** [fetch-data.js]: a block that starts with the label *)









(** ** The classifiers at work *)

Example sample_forms :
  extractSample (js "Survey of likely voters, n = 800, MoE 3.5") = js "n=800" /\
  extractSample (js "812 lv") = js "812 LV" /\
  extractSample (js "Poll of 1,000 adults") = js "000 ADULTS" /\
  extractSample (js "sample: 1200 registered voters") = [].
Proof. repeat split; vm_compute; reflexivity. Qed.

Example race_forms :
  FetchData.pickRace ascii_toLowerCase (js "Texas Senate: Smith 47% Jones 43%") = js "Texas Senate" /\
  FetchData.pickRace ascii_toLowerCase (js "TX  Governor poll") = js "TX  Governor" /\
  FetchData.pickRace ascii_toLowerCase (js "Generic ballot: D 47% R 43%") = js "Generic Ballot" /\
  FetchData.pickRace ascii_toLowerCase (js "Job approval 44%") = js "Trump Approval" /\
  inferCategory ascii_toLowerCase (js "Generic ballot: D 47% R 43%") = js "generic_ballot" /\
  re_test false RTW2.re_race_state (js "TX poll for Senate") = true /\
  RTW2.pickRace (js "Emerson College" ++ [10] ++ js "TX-07 general" ++ [10] ++ js "Texas Senate")
  = js "TX-07 general".
Proof. repeat split; vm_compute; reflexivity. Qed.

Example date_forms :
  FetchData.extractDateText (js "Emerson" ++ [10] ++ js "Field dates: Jan 12-15, 2026 (LV)")
  = js "Jan 12-15, 2026" /\
  FetchData.extractDateText (js "Emerson" ++ [10] ++ js "Field dates: 01/12 - 01/15 (LV)")
  = js "01/12 - 01/15" /\
  RTW2.extractDateText (js "Conducted 1/12/2026" ++ [10] ++ js "Released February 3")
  = js "February 3" /\
  RTW2.extractDateText (js "No date given") = [].
Proof. repeat split; vm_compute; reflexivity. Qed.

Example blocked_pages :
  maybeBlocked (js "Just a moment...") [] = true /\
  maybeBlocked (js "Attention") (js "Required! | Cloudflare") = true /\
  maybeBlocked (js "All polls") (js "Latest polls") = false.
Proof. repeat split; vm_compute; reflexivity. Qed.

Example row_limits :
  MAX_POLLS_of_env (Some (js "25")) = Fin 25 /\
  MAX_POLLS_of_env (Some (js "abc")) = NaN /\
  MAX_POLLS_of_env (Some (js "-3")) = Fin (-3) /\
  finish (MAX_POLLS_of_env (Some (js "abc")))
    (FetchData.page_evaluate ascii_toLowerCase (results_page 10) 600) = None /\
  option_map (@length poll)
    (finish (MAX_POLLS_of_env None)
       (FetchData.page_evaluate ascii_toLowerCase (results_page 10) 600)) = Some 10%nat.
Proof. repeat split; vm_compute; reflexivity. Qed.

(** A frame of ten poll blocks gives ten rows in both files; with three
    blocks the container pass of [fetch-data_RTW2.js] finds them again, the
    deduplicator drops the repeats, and the run fails for too few rows. *)
Example runs_on_a_page :
  option_map (@length poll) (FetchData.run ascii_toLowerCase (results_page 10) 600) = Some 10%nat /\
  option_map (@length poll)
    (RTW2.run ascii_toLowerCase 600 [FailingFrame; LiveFrame (results_page 10)]) = Some 10%nat /\
  length (RTW2.in_frame ascii_toLowerCase 600 (results_page 3)) = 6%nat /\
  length (dedupe (RTW2.in_frame ascii_toLowerCase 600 (results_page 3))) = 3%nat /\
  RTW2.run ascii_toLowerCase 600 [LiveFrame (results_page 3)] = None /\
  List.map (fun p => (race p, date_text p, sample p, category p, List.map choice (results p)))
    (take 1 (RTW2.in_frame ascii_toLowerCase 600 (results_page 10)))
  = [(js "Texas Senate", js "Jan 12-15, 2026", js "800 LV", js "senate",
      [js "Smith"; js "Jones"])].
Proof. repeat split; vm_compute; reflexivity. Qed.
